(** * gak-cms-backend: reflections and albums API, embedded and verified

    The development follows the TypeScript sources:
    - [src/hooks/useSlug.ts]      ([createSlug]),
    - [src/api/reflections.ts]    (the six reflection routes),
    - [src/lib/supabase.ts]       ([storageHelpers.uploadFile], [deleteFile]),
    - [src/api/albums.ts]         (album creation and deletion, the revision
                                   that goes through [storageHelpers]),
    - [prisma/schema.prisma]      (tables, unique and foreign keys).

    Handlers are written in a small state-and-exception monad over a [World]
    holding the database tables and the storage bucket.  The concurrent part
    of album creation ([imageFiles.map(async ...)] under [Promise.all]) is a
    labelled transition system over the per-image tasks.

    Beyond creation and deletion the albums API is covered by [GET /:id],
    [PUT /:id] and [DELETE /:albumId/images/:imageId], and the storage helper
    by [generateUniquePath] of its later revision. *)

From stdpp Require Import base option list strings gmap fin_maps fin_sets.
From Stdlib Require Import ZArith Ascii String DecimalString DecimalPos DecimalN.

Local Open Scope string_scope.
Local Open Scope Z_scope.

(** ** JavaScript strings

    A JavaScript string is modelled by a Rocq [string]: the sequence of its
    code units, each below 256.  The character classes below are the
    ECMAScript ones restricted to that range. *)

Definition code (c : ascii) : N := N_of_ascii c.

Definition in_range (lo hi : N) (c : ascii) : bool :=
  ((lo <=? code c) && (code c <=? hi))%N.

(** [String.prototype.toLowerCase], one code unit: A-Z, and the Latin-1
    capitals U+00C0..U+00DE except the multiplication sign U+00D7.  Above
    this range lower-casing can produce ASCII letters (U+212A gives [k],
    U+0130 gives [i] and U+0307), so a text without word characters need not
    have an empty slug; what is proved of [createSlug] below does not depend
    on that. *)
Definition lower_char (c : ascii) : ascii :=
  if in_range 65 90 c then ascii_of_N (code c + 32)
  else if in_range 192 222 c && negb (code c =? 215)%N then ascii_of_N (code c + 32)
  else c.

Definition toLowerCase (s : list ascii) : list ascii := map lower_char s.

(** [\s]: tab, line feed, vertical tab, form feed, carriage return, space,
    no-break space. *)
Definition is_space (c : ascii) : bool :=
  in_range 9 13 c || (code c =? 32)%N || (code c =? 160)%N.

(** [\w]: [A-Za-z0-9_]. *)
Definition is_word (c : ascii) : bool :=
  in_range 65 90 c || in_range 97 122 c || in_range 48 57 c || (code c =? 95)%N.

Definition is_hyphen (c : ascii) : bool := (code c =? 45)%N.

(** [[^\w\-]] *)
Definition not_word_or_hyphen (c : ascii) : bool := negb (is_word c || is_hyphen c).

(** What a pending run of matching characters turns into when it ends:
    [rep] when the run is long enough for the pattern, itself otherwise. *)
Definition flush_run (min : nat) (rep run : list ascii) : list ascii :=
  match run with
  | [] => []
  | _ => if (min <=? List.length run)%nat then rep else run
  end.

(** [s.replace(/c{min,}/g, rep)] for a character class [c]: every maximal
    run of at least [min] characters of the class is replaced by [rep]. *)
Fixpoint replace_runs (p : ascii → bool) (min : nat) (rep run s : list ascii)
  : list ascii :=
  match s with
  | [] => flush_run min rep run
  | c :: s' =>
      if p c then replace_runs p min rep (run ++ [c]) s'
      else flush_run min rep run ++ c :: replace_runs p min rep [] s'
  end.

Definition replace_all (p : ascii → bool) (min : nat) (rep s : list ascii) :=
  replace_runs p min rep [] s.

(** [s.replace(/^-+/, "")] *)
Fixpoint trim_start (p : ascii → bool) (s : list ascii) : list ascii :=
  match s with
  | [] => []
  | c :: s' => if p c then trim_start p s' else s
  end.

(** [s.replace(/-+$/, "")] *)
Definition trim_end (p : ascii → bool) (s : list ascii) : list ascii :=
  rev (trim_start p (rev s)).

Definition hyphen : list ascii := ["-"%char].

(** [createSlug] of [src/hooks/useSlug.ts], one line per method call. *)
Definition createSlug_chars (text : list ascii) : list ascii :=
  let s1 := toLowerCase text in
  let s2 := replace_all is_space 1 hyphen s1 in
  let s3 := replace_all not_word_or_hyphen 1 [] s2 in
  let s4 := replace_all is_hyphen 2 hyphen s3 in
  let s5 := trim_start is_hyphen s4 in
  trim_end is_hyphen s5.

Definition createSlug (text : string) : string :=
  string_of_list_ascii (createSlug_chars (list_ascii_of_string text)).

(** JavaScript truthiness of a string: non-empty. *)
Definition truthy (s : string) : bool :=
  match s with EmptyString => false | _ => true end.

(** [s.split(sep).pop()]: what follows the last [sep], the whole string when
    there is none. *)
Fixpoint take_until (sep : ascii) (s : list ascii) : list ascii :=
  match s with
  | [] => []
  | c :: s' => if Ascii.eqb c sep then [] else c :: take_until sep s'
  end.

Definition split_pop (sep : ascii) (s : string) : string :=
  string_of_list_ascii (rev (take_until sep (rev (list_ascii_of_string s)))).

(** ** Request bodies and their validation (zod)

    [c.req.json()] yields a JavaScript value.  Object fields are an
    association list read from the left; a key that is absent reads as
    [undefined], here [None].  Numbers are the integral ones. *)

#[warnings="-register-all"] Inductive json : Type :=
  | JNull
  | JBool (b : bool)
  | JNum (n : Z)
  | JStr (s : string)
  | JArr (items : list json)
  | JObj (fields : list (string * json)).

Fixpoint assoc (k : string) (fields : list (string * json)) : option json :=
  match fields with
  | [] => None
  | (k', v) :: rest => if String.eqb k k' then Some v else assoc k rest
  end.

Inductive PublicationStatus : Type := DRAFT | PUBLISHED.

Global Instance PublicationStatus_eq_dec : EqDecision PublicationStatus.
Proof. solve_decision. Defined.

(** The enum as Prisma reads it from a string. *)
Definition status_of_string (s : string) : option PublicationStatus :=
  if String.eqb s "DRAFT" then Some DRAFT
  else if String.eqb s "PUBLISHED" then Some PUBLISHED
  else None.

(** [z.string().min(n)] *)
Definition z_string (min : nat) (v : json) : option string :=
  match v with
  | JStr s => if (min <=? String.length s)%nat then Some s else None
  | _ => None
  end.

(** [z.enum(["DRAFT", "PUBLISHED"])] *)
Definition z_status (v : json) : option PublicationStatus :=
  match v with
  | JStr s => status_of_string s
  | _ => None
  end.

(** [z.array(z.string())] *)
Fixpoint z_strings (items : list json) : option (list string) :=
  match items with
  | [] => Some []
  | v :: rest =>
      match z_string 0 v, z_strings rest with
      | Some s, Some l => Some (s :: l)
      | _, _ => None
      end
  end.

Definition z_string_array (v : json) : option (list string) :=
  match v with
  | JArr items => z_strings items
  | _ => None
  end.

(** A field schema reads the possibly absent field and either fails (the
    outer [None]) or yields the parsed field. *)
Definition z_required {A} (p : json → option A) (v : option json) : option A :=
  match v with
  | None => None
  | Some j => p j
  end.

(** [.optional()]: [undefined] passes through, anything else is parsed. *)
Definition z_optional {A} (p : json → option A) (v : option json)
  : option (option A) :=
  match v with
  | None => Some None
  | Some j => match p j with Some a => Some (Some a) | None => None end
  end.

(** [.default(d)]: [undefined] becomes [d]. *)
Definition z_default {A} (p : json → option A) (d : A) (v : option json)
  : option A :=
  match v with
  | None => Some d
  | Some j => p j
  end.

(** The output of [createReflectionSchema.parse]. *)
Record CreateReflectionInput := {
  in_title : string;
  in_content : string;
  in_slug : option string;
  in_status : PublicationStatus;
  in_featuredImageId : option string;
  in_tags : option (list string);
  in_publishDate : option string;
}.

(** [createReflectionSchema]; unknown keys are stripped, so only the seven
    declared fields are read. *)
Definition createReflectionSchema (body : json) : option CreateReflectionInput :=
  match body with
  | JObj f =>
      title ← z_required (z_string 1) (assoc "title" f);
      content ← z_required (z_string 1) (assoc "content" f);
      slug ← z_optional (z_string 1) (assoc "slug" f);
      status ← z_default z_status DRAFT (assoc "status" f);
      featuredImageId ← z_optional (z_string 0) (assoc "featuredImageId" f);
      tags ← z_optional z_string_array (assoc "tags" f);
      publishDate ← z_optional (z_string 0) (assoc "publishDate" f);
      Some {| in_title := title; in_content := content; in_slug := slug;
              in_status := status; in_featuredImageId := featuredImageId;
              in_tags := tags; in_publishDate := publishDate |}
  | _ => None
  end.

(** The output of [createReflectionSchema.partial().parse]. *)
Record UpdateReflectionInput := {
  up_title : option string;
  up_content : option string;
  up_slug : option string;
  up_status : option PublicationStatus;
  up_featuredImageId : option string;
  up_tags : option (list string);
  up_publishDate : option string;
}.

(** [createReflectionSchema.partial()]: every field becomes optional.  The
    optional wrapper sits outside the default of [status], and returns
    [undefined] for an absent field before the default is consulted (the
    behaviour of zod 3). *)
Definition createReflectionSchema_partial (body : json)
  : option UpdateReflectionInput :=
  match body with
  | JObj f =>
      title ← z_optional (z_string 1) (assoc "title" f);
      content ← z_optional (z_string 1) (assoc "content" f);
      slug ← z_optional (z_string 1) (assoc "slug" f);
      status ← z_optional z_status (assoc "status" f);
      featuredImageId ← z_optional (z_string 0) (assoc "featuredImageId" f);
      tags ← z_optional z_string_array (assoc "tags" f);
      publishDate ← z_optional (z_string 0) (assoc "publishDate" f);
      Some {| up_title := title; up_content := content; up_slug := slug;
              up_status := status; up_featuredImageId := featuredImageId;
              up_tags := tags; up_publishDate := publishDate |}
  | _ => None
  end.

(** ** Tables ([prisma/schema.prisma])

    Field names carry the table's initial, since [id], [url] and the like
    occur in several tables.  A [DateTime] is a number of milliseconds.  The
    [ReflectionTag] rows of a reflection are the list of its tag ids; the
    [createdAt] and [updatedAt] columns, which no route reads or writes, are
    left out. *)

Record Reflection := {
  r_id : string;
  r_title : string;
  r_content : string;
  r_publishDate : option Z;
  r_slug : string;
  r_status : PublicationStatus;
  r_authorId : string;
  r_featuredImageId : option string;
  r_tags : list string;
}.

Record Album := {
  a_id : string;
  a_name : string;
  a_description : option string;
  a_date : Z;
  a_uploadedById : string;
}.

Record Image := {
  i_id : string;
  i_url : string;
  i_alt : option string;
  i_caption : option string;
  i_width : option Z;
  i_height : option Z;
  i_size : option Z;
  i_albumId : string;
  i_userId : option string;
}.

(** A write that reached the database or the storage service. *)
Inductive Effect : Type :=
  | DbReflectionCreate (id : string)
  | DbReflectionUpdate (id : string)
  | DbReflectionDelete (id : string)
  | DbAlbumCreate (id : string)
  | DbAlbumDelete (id : string)
  | DbImageCreate (id : string)
  | StorageUpload (key : string)
  | StorageRemove (key : string).

Global Instance Effect_eq_dec : EqDecision Effect.
Proof. solve_decision. Defined.

(** The database, the bucket ["albums"] of the storage service, and the
    writes done so far, oldest first. *)
Record World := {
  reflections : gmap string Reflection;
  tagIds : gset string;
  images : gmap string Image;
  albums : gmap string Album;
  bucket : gset string;
  effects : list Effect;
}.

Definition set_reflections (f : gmap string Reflection → gmap string Reflection)
  (w : World) : World :=
  {| reflections := f (reflections w); tagIds := tagIds w; images := images w;
     albums := albums w; bucket := bucket w; effects := effects w |}.

Definition set_images (f : gmap string Image → gmap string Image) (w : World)
  : World :=
  {| reflections := reflections w; tagIds := tagIds w; images := f (images w);
     albums := albums w; bucket := bucket w; effects := effects w |}.

Definition set_albums (f : gmap string Album → gmap string Album) (w : World)
  : World :=
  {| reflections := reflections w; tagIds := tagIds w; images := images w;
     albums := f (albums w); bucket := bucket w; effects := effects w |}.

Definition set_bucket (f : gset string → gset string) (w : World) : World :=
  {| reflections := reflections w; tagIds := tagIds w; images := images w;
     albums := albums w; bucket := f (bucket w); effects := effects w |}.

Definition record (e : Effect) (w : World) : World :=
  {| reflections := reflections w; tagIds := tagIds w; images := images w;
     albums := albums w; bucket := bucket w; effects := effects w ++ [e] |}.

(** ** Collaborators outside the repository

    What the routes call and the repository does not define. *)
Class Collaborators := {
  (** Prisma's reading of a [DateTime] given as a string: an ISO-8601
      instant, or a validation error ([None]). *)
  parseDateTime : string → option Z;
  (** [new Date(s)]; [None] is the invalid date. *)
  Date_parse : string → option Z;
  (** [JSON.parse]; [None] is a [SyntaxError]. *)
  JSON_parse : string → option json;
  (** [storage.from(bucket).getPublicUrl(path).data.publicUrl] *)
  getPublicUrl : string → string → string;
}.

(** ** The handler monad: state and exceptions *)

Inductive Error : Type :=
  | ZodError | SyntaxError | TypeError | PrismaError | StorageError.

Inductive result (A : Type) : Type :=
  | Ok (a : A)
  | Throw (e : Error).
Arguments Ok {A} a.
Arguments Throw {A} e.

Definition M (A : Type) : Type := World → result A * World.

Global Instance M_ret : MRet M := λ A a w, (Ok a, w).

Global Instance M_bind : MBind M := λ A B f m w,
  match m w with
  | (Ok a, w') => f a w'
  | (Throw e, w') => (Throw e, w')
  end.

Definition throw {A} (e : Error) : M A := λ w, (Throw e, w).

(** [try { body } catch (error) { handler }] *)
Definition try_catch {A} (body : M A) (handler : Error → M A) : M A := λ w,
  match body w with
  | (Ok a, w') => (Ok a, w')
  | (Throw e, w') => handler e w'
  end.

(** A value that is there, or the exception raised in its place. *)
Definition or_throw {A} (e : Error) (o : option A) : M A :=
  match o with
  | Some a => mret a
  | None => throw e
  end.

(** ** Responses *)

Inductive Body : Type :=
  | ErrorBody (error : string)
  | ValidationErrorBody
  | ReflectionBody (r : Reflection)
  | ReflectionsBody (rs : list Reflection)
  | SuccessBody
  | AlbumBody (a : Album) (imgs : list Image)
  | TextBody (text : string).

Record Response := { res_body : Body; res_status : Z }.

(** [c.json(body, status)]; the status defaults to 200. *)
Definition c_json (body : Body) (status : Z) : Response :=
  {| res_body := body; res_status := status |}.

Definition c_json_ok (body : Body) : Response := c_json body 200.

(** A route as the framework runs it: an exception that leaves the handler
    is answered by the default error handler. *)
Definition run_handler (h : M Response) (w : World) : Response * World :=
  match h w with
  | (Ok r, w') => (r, w')
  | (Throw _, w') =>
      ({| res_body := TextBody "Internal Server Error"; res_status := 500 |}, w')
  end.

(** The session user as the routes use it. *)
Record User := { user_id : string }.

(** [requireAuth] *)
Definition requireAuth (user : option User) (next : User → M Response)
  : M Response :=
  match user with
  | None => mret (c_json (ErrorBody "Unauthorized") 401)
  | Some u => next u
  end.

(** [await c.req.json()]; a body that is not JSON throws. *)
Definition req_json (body : option json) : M json := or_throw SyntaxError body.

(** ** The Prisma client, table [reflections] *)

(** A [DateTime] argument is a [Date] object or a string. *)
Inductive DateInput : Type :=
  | DateObj (t : Z)
  | DateStr (s : string).

(** [where] of [findMany]: the filters that are set. *)
Record ReflectionWhere := {
  w_status : option string;
  w_authorId : option string;
}.

(** [data] of [reflection.create]. *)
Record ReflectionCreateData := {
  c_id : string;
  c_title : string;
  c_content : string;
  c_publishDate : option DateInput;
  c_slug : string;
  c_status : PublicationStatus;
  c_authorId : string;
  c_featuredImageId : option string;
  c_tags : option (list string);
}.

(** [data] of [reflection.update]; a field left [undefined] is not written. *)
Record ReflectionUpdateData := {
  d_title : option string;
  d_content : option string;
  d_slug : option string;
  d_status : option PublicationStatus;
  d_featuredImageId : option string;
  d_tags : option (list string);
  d_publishDate : option DateInput;
}.

(** [slug @unique]: some row other than [except] holds [slug]. *)
Definition slug_taken (slug : string) (except : option string)
  (m : gmap string Reflection) : bool :=
  existsb (λ kr : string * Reflection,
             String.eqb (r_slug kr.2) slug && negb (bool_decide (Some kr.1 = except)))
          (map_to_list m).

(** Foreign key [featuredImageId] into table [images]. *)
Definition featured_ok (fid : option string) (w : World) : bool :=
  match fid with
  | None => true
  | Some i => bool_decide (is_Some (images w !! i))
  end.

(** [tags: { create: [{ tag: { connect: { id } } }] }]: every tag is a row of
    table [tags], and [(reflectionId, tagId)] is a primary key. *)
Definition tags_ok (tags : option (list string)) (w : World) : bool :=
  match tags with
  | None => true
  | Some l => bool_decide (NoDup l) && forallb (λ t, bool_decide (t ∈ tagIds w)) l
  end.

Definition matches (st : option PublicationStatus) (author : option string)
  (r : Reflection) : bool :=
  match st with
  | None => true
  | Some s => bool_decide (r_status r = s)
  end &&
  match author with
  | None => true
  | Some a => String.eqb (r_authorId r) a
  end.

Section Prisma.
Context `{Collaborators}.

Definition coerce_date (d : option DateInput) : option (option Z) :=
  match d with
  | None => Some None
  | Some (DateObj t) => Some (Some t)
  | Some (DateStr s) =>
      match parseDateTime s with
      | Some t => Some (Some t)
      | None => None
      end
  end.

(** [prisma.reflection.findUnique({ where: { id } })] *)
Definition reflection_findUnique (id : string) : M (option Reflection) :=
  λ w, (Ok (reflections w !! id), w).

(** [prisma.reflection.findMany({ where })]; a status that is not of the
    enum is a validation error. *)
Definition reflection_findMany (wh : ReflectionWhere) : M (list Reflection) :=
  λ w,
    match w_status wh with
    | None =>
        (Ok (List.filter (matches None (w_authorId wh))
               (map_to_list (reflections w)).*2), w)
    | Some s =>
        match status_of_string s with
        | None => (Throw PrismaError, w)
        | Some st =>
            (Ok (List.filter (matches (Some st) (w_authorId wh))
                   (map_to_list (reflections w)).*2), w)
        end
    end.

(** [prisma.reflection.create({ data })] *)
Definition reflection_create (d : ReflectionCreateData) : M Reflection :=
  λ w,
    match coerce_date (c_publishDate d) with
    | None => (Throw PrismaError, w)
    | Some pd =>
        if bool_decide (is_Some (reflections w !! c_id d))
           || slug_taken (c_slug d) None (reflections w)
           || negb (featured_ok (c_featuredImageId d) w)
           || negb (tags_ok (c_tags d) w)
        then (Throw PrismaError, w)
        else
          let r := {| r_id := c_id d; r_title := c_title d;
                      r_content := c_content d; r_publishDate := pd;
                      r_slug := c_slug d; r_status := c_status d;
                      r_authorId := c_authorId d;
                      r_featuredImageId := c_featuredImageId d;
                      r_tags := default [] (c_tags d) |} in
          (Ok r, record (DbReflectionCreate (c_id d))
                   (set_reflections (insert (c_id d) r) w))
    end.

(** [prisma.reflection.update({ where: { id }, data })] *)
Definition reflection_update (id : string) (d : ReflectionUpdateData)
  : M Reflection :=
  λ w,
    match reflections w !! id, coerce_date (d_publishDate d) with
    | Some r, Some pd =>
        if match d_slug d with
           | Some s => slug_taken s (Some id) (reflections w)
           | None => false
           end
           || negb (featured_ok (d_featuredImageId d) w)
           || negb (tags_ok (d_tags d) w)
        then (Throw PrismaError, w)
        else
          let r' := {| r_id := r_id r;
                       r_title := default (r_title r) (d_title d);
                       r_content := default (r_content r) (d_content d);
                       r_publishDate :=
                         match pd with
                         | Some t => Some t
                         | None => r_publishDate r
                         end;
                       r_slug := default (r_slug r) (d_slug d);
                       r_status := default (r_status r) (d_status d);
                       r_authorId := r_authorId r;
                       r_featuredImageId :=
                         match d_featuredImageId d with
                         | Some i => Some i
                         | None => r_featuredImageId r
                         end;
                       r_tags := default (r_tags r) (d_tags d) |} in
          (Ok r', record (DbReflectionUpdate id)
                    (set_reflections (insert id r') w))
    | _, _ => (Throw PrismaError, w)
    end.

(** [prisma.reflection.delete({ where: { id } })] *)
Definition reflection_delete (id : string) : M unit :=
  λ w,
    match reflections w !! id with
    | Some _ =>
        (Ok tt, record (DbReflectionDelete id) (set_reflections (delete id) w))
    | None => (Throw PrismaError, w)
    end.

(** ** The routes of [src/api/reflections.ts] *)

(** [a || b] on strings *)
Definition or_else (a : option string) (b : string) : string :=
  match a with
  | Some s => if truthy s then s else b
  | None => b
  end.

(** [POST /create]; [uuid] is what [crypto.randomUUID()] returns. *)
Definition reflections_create (user : option User) (body : option json)
  (uuid : string) : M Response :=
  requireAuth user (λ user,
    try_catch
      (body ← req_json body;
       validated ← or_throw ZodError (createReflectionSchema body);
       reflection ← reflection_create
         {| c_id := uuid;
            c_title := in_title validated;
            c_content := in_content validated;
            c_publishDate := DateStr <$> in_publishDate validated;
            c_slug := or_else (in_slug validated) (createSlug (in_title validated));
            c_status := in_status validated;
            c_authorId := user_id user;
            c_featuredImageId := in_featuredImageId validated;
            c_tags := in_tags validated |};
       mret (c_json (ReflectionBody reflection) 201))
      (λ _, mret (c_json (ErrorBody "Failed to create reflection") 400))).

Definition with_status (s : string) (wh : ReflectionWhere) : ReflectionWhere :=
  {| w_status := Some s; w_authorId := w_authorId wh |}.

Definition with_authorId (a : string) (wh : ReflectionWhere) : ReflectionWhere :=
  {| w_status := w_status wh; w_authorId := Some a |}.

(** [...(cond && { field })]: the field is written when [cond] holds. *)
Definition spread (cond : bool) (f : ReflectionWhere → ReflectionWhere)
  (wh : ReflectionWhere) : ReflectionWhere :=
  if cond then f wh else wh.

Definition query_truthy (q : option string) : bool :=
  match q with
  | Some s => truthy s
  | None => false
  end.

(** [user.id !== authorId] *)
Definition id_differs (user : User) (authorId : option string) : bool :=
  negb (bool_decide (authorId = Some (user_id user))).

(** The [where] object of [GET /get], spread by spread. *)
Definition list_where (user : option User) (status authorId : option string)
  : ReflectionWhere :=
  let w0 := {| w_status := None; w_authorId := None |} in
  let w1 := spread (query_truthy status) (with_status (default "" status)) w0 in
  let w2 := spread (query_truthy authorId) (with_authorId (default "" authorId)) w1 in
  let w3 := spread (negb (bool_decide (is_Some user))) (with_status "PUBLISHED") w2 in
  spread (bool_decide (status = Some "DRAFT")
          && match user with
             | None => true
             | Some u => id_differs u authorId
             end)
         (with_authorId "none") w3.

(** [GET /get] *)
Definition reflections_list (user : option User) (status authorId : option string)
  : M Response :=
  reflections ← reflection_findMany (list_where user status authorId);
  mret (c_json_ok (ReflectionsBody reflections)).

(** [GET /get/:id] *)
Definition reflections_get (user : option User) (id : string) : M Response :=
  reflection ← reflection_findUnique id;
  match reflection with
  | None => mret (c_json (ErrorBody "Reflection not found") 404)
  | Some reflection =>
      if bool_decide (r_status reflection = DRAFT)
         && match user with
            | None => true
            | Some u => negb (String.eqb (user_id u) (r_authorId reflection))
            end
      then mret (c_json (ErrorBody "Not found") 404)
      else mret (c_json_ok (ReflectionBody reflection))
  end.

(** [PUT /update/:id] *)
Definition reflections_update (user : option User) (id : string)
  (body : option json) : M Response :=
  requireAuth user (λ user,
    try_catch
      (body ← req_json body;
       existing ← reflection_findUnique id;
       match existing with
       | None => mret (c_json (ErrorBody "Reflection not found") 404)
       | Some existing =>
           if negb (String.eqb (r_authorId existing) (user_id user))
           then mret (c_json (ErrorBody "Unauthorized") 403)
           else
             validated ← or_throw ZodError (createReflectionSchema_partial body);
             reflection ← reflection_update id
               {| d_title := up_title validated;
                  d_content := up_content validated;
                  d_slug := up_slug validated;
                  d_status := up_status validated;
                  d_featuredImageId := up_featuredImageId validated;
                  d_tags := up_tags validated;
                  d_publishDate := DateStr <$> up_publishDate validated |};
             mret (c_json_ok (ReflectionBody reflection))
       end)
      (λ _, mret (c_json (ErrorBody "Failed to update reflection") 400))).

(** [DELETE /delete/:id] *)
Definition reflections_delete (user : option User) (id : string) : M Response :=
  requireAuth user (λ user,
    try_catch
      (existing ← reflection_findUnique id;
       match existing with
       | None => mret (c_json (ErrorBody "Reflection not found") 404)
       | Some existing =>
           if negb (String.eqb (r_authorId existing) (user_id user))
           then mret (c_json (ErrorBody "Unauthorized") 403)
           else
             _ ← reflection_delete id;
             mret (c_json (SuccessBody) 200)
       end)
      (λ _, mret (c_json (ErrorBody "Failed to delete reflection") 400))).

(** [PATCH /publish/:id]; [now] is what [new Date()] returns. *)
Definition reflections_publish (user : option User) (id : string) (now : Z)
  : M Response :=
  requireAuth user (λ user,
    try_catch
      (existing ← reflection_findUnique id;
       match existing with
       | None => mret (c_json (ErrorBody "Reflection not found") 404)
       | Some existing =>
           if negb (String.eqb (r_authorId existing) (user_id user))
           then mret (c_json (ErrorBody "Unauthorized") 403)
           else
             reflection ← reflection_update id
               {| d_title := None; d_content := None; d_slug := None;
                  d_status := Some PUBLISHED; d_featuredImageId := None;
                  d_tags := None; d_publishDate := Some (DateObj now) |};
             mret (c_json_ok (ReflectionBody reflection))
       end)
      (λ _, mret (c_json (ErrorBody "Failed to publish reflection") 400))).

(** A request to one of the routes mounted under [/api/reflections], with
    what the route reads from it and from the runtime (clock, UUIDs). *)
Inductive Call : Type :=
  | PostCreate (body : option json) (uuid : string)
  | GetList (status authorId : option string)
  | GetOne (id : string)
  | PutUpdate (id : string) (body : option json)
  | DeleteOne (id : string)
  | PatchPublish (id : string) (now : Z).

Definition route (user : option User) (call : Call) : M Response :=
  match call with
  | PostCreate body uuid => reflections_create user body uuid
  | GetList status authorId => reflections_list user status authorId
  | GetOne id => reflections_get user id
  | PutUpdate id body => reflections_update user id body
  | DeleteOne id => reflections_delete user id
  | PatchPublish id now => reflections_publish user id now
  end.

(** The three routes that write to an existing reflection, and the id they
    address. *)
Definition mutates (call : Call) : option string :=
  match call with
  | PutUpdate id _ | DeleteOne id | PatchPublish id _ => Some id
  | _ => None
  end.

End Prisma.

(** ** Storage ([src/lib/supabase.ts]) and the album routes ([src/api/albums.ts]) *)

(** An uploaded file of the multipart form, as the route reads it. *)
Record File := { f_name : string; f_size : Z }.

(** [await c.req.formData()]: the text field [albumData] and the files
    [image_0], [image_1], ... up to the first index that is absent. *)
Record FormData := {
  fd_albumData : option string;
  fd_images : list File;
}.

(** One element of [images] in [createAlbumSchema]. *)
Record ImageMeta := {
  m_id : string;
  m_alt : option string;
  m_caption : option string;
  m_width : option Z;
  m_height : option Z;
  m_size : option Z;
}.

(** The output of [createAlbumSchema.parse]. *)
Record AlbumInput := {
  al_name : string;
  al_description : option string;
  al_date : string;
  al_images : list ImageMeta;
}.

(** [z.number()] *)
Definition z_number (v : json) : option Z :=
  match v with
  | JNum n => Some n
  | _ => None
  end.

Definition z_image_meta (v : json) : option ImageMeta :=
  match v with
  | JObj f =>
      id ← z_required (z_string 0) (assoc "id" f);
      alt ← z_optional (z_string 0) (assoc "alt" f);
      caption ← z_optional (z_string 0) (assoc "caption" f);
      width ← z_optional z_number (assoc "width" f);
      height ← z_optional z_number (assoc "height" f);
      size ← z_optional z_number (assoc "size" f);
      Some {| m_id := id; m_alt := alt; m_caption := caption;
              m_width := width; m_height := height; m_size := size |}
  | _ => None
  end.

Fixpoint z_image_metas (items : list json) : option (list ImageMeta) :=
  match items with
  | [] => Some []
  | v :: rest =>
      match z_image_meta v, z_image_metas rest with
      | Some m, Some l => Some (m :: l)
      | _, _ => None
      end
  end.

Definition z_image_array (v : json) : option (list ImageMeta) :=
  match v with
  | JArr items => z_image_metas items
  | _ => None
  end.

(** [createAlbumSchema] of the revision that uploads through
    [storageHelpers]. *)
Definition createAlbumSchema (data : json) : option AlbumInput :=
  match data with
  | JObj f =>
      name ← z_required (z_string 1) (assoc "name" f);
      description ← z_optional (z_string 0) (assoc "description" f);
      date ← z_required (z_string 0) (assoc "date" f);
      images ← z_required z_image_array (assoc "images" f);
      Some {| al_name := name; al_description := description;
              al_date := date; al_images := images |}
  | _ => None
  end.

(** [for (const x of xs) { await body(x) }] *)
Fixpoint for_of {A} (xs : list A) (body : A → M unit) : M unit :=
  match xs with
  | [] => mret tt
  | x :: rest => _ ← body x; for_of rest body
  end.

(** [n || m] on numbers: [undefined] and [0] are falsy. *)
Definition num_or_else (n : option Z) (m : Z) : Z :=
  match n with
  | Some k => if k =? 0 then m else k
  | None => m
  end.

(** The rows of table [images] with [albumId = id]: [existing.images]. *)
Definition images_of (id : string) (w : World) : list Image :=
  List.filter (λ i, String.eqb (i_albumId i) id) (map_to_list (images w)).*2.

(** [onDelete: SetNull] of [Reflection.featuredImage], for the images of the
    album [id]. *)
Definition clear_featured (id : string) (imgs : gmap string Image)
  (r : Reflection) : Reflection :=
  match r_featuredImageId r with
  | Some i =>
      match imgs !! i with
      | Some img =>
          if String.eqb (i_albumId img) id then
            {| r_id := r_id r; r_title := r_title r; r_content := r_content r;
               r_publishDate := r_publishDate r; r_slug := r_slug r;
               r_status := r_status r; r_authorId := r_authorId r;
               r_featuredImageId := None; r_tags := r_tags r |}
          else r
      | None => r
      end
  | None => r
  end.

Section Albums.
Context `{Collaborators}.

(** Whether the storage service answers a removal of this key with an
    error. *)
Variable remove_error : string → bool.

(** [storageHelpers.deleteFile]; the only bucket in use is ["albums"],
    which is the [bucket] of the world. *)
Definition deleteFile (bucketName filePath : string) : M unit :=
  λ w,
    if remove_error filePath then (Throw StorageError, w)
    else (Ok tt, record (StorageRemove filePath)
                   (set_bucket (λ b, b ∖ {[filePath]}) w)).

(** [prisma.album.findUnique({ where: { id }, include: { images: true } })] *)
Definition album_findUnique (id : string) : M (option (Album * list Image)) :=
  λ w, (Ok ((λ a, (a, images_of id w)) <$> albums w !! id), w).

(** [prisma.album.delete({ where: { id } })]; the images of the album go
    with it ([onDelete: Cascade]). *)
Definition album_delete (id : string) : M unit :=
  λ w,
    match albums w !! id with
    | Some _ =>
        (Ok tt,
         record (DbAlbumDelete id)
           (set_albums (delete id)
              (set_images (filter (λ kv, i_albumId kv.2 ≠ id))
                 (set_reflections (fmap (clear_featured id (images w))) w))))
    | None => (Throw PrismaError, w)
    end.

(** The storage key the routes derive from an image row. *)
Definition storage_key (id : string) (image : Image) : string :=
  id ++ "/" ++ split_pop "/" (i_url image).

(** [DELETE /:id] *)
Definition albums_delete (user : option User) (id : string) : M Response :=
  requireAuth user (λ user,
    try_catch
      (existing ← album_findUnique id;
       match existing with
       | None => mret (c_json (ErrorBody "Album not found") 404)
       | Some (existing, existing_images) =>
           if negb (String.eqb (a_uploadedById existing) (user_id user))
           then mret (c_json (ErrorBody "Unauthorized") 403)
           else
             _ ← for_of existing_images (λ image,
                   let filePath := split_pop "/" (i_url image) in
                   if truthy filePath
                   then deleteFile "albums" (id ++ "/" ++ filePath)
                   else mret tt);
             _ ← album_delete id;
             mret (c_json_ok SuccessBody)
       end)
      (λ _, mret (c_json (ErrorBody "Failed to delete album") 400))).

(** [prisma.album.create({ data })] *)
Definition album_create (id name : string) (description : option string)
  (date : option Z) (uploadedById : string) : M Album :=
  λ w,
    match date, albums w !! id with
    | Some d, None =>
        let a := {| a_id := id; a_name := name; a_description := description;
                    a_date := d; a_uploadedById := uploadedById |} in
        (Ok a, record (DbAlbumCreate id) (set_albums (insert id a) w))
    | _, _ => (Throw PrismaError, w)
    end.

(** *** Album creation: the per-image tasks

    [imageFiles.map(async (file, index) => ...)] starts one task per file.
    Each runs up to its first [await], the upload, before the next starts;
    from there the tasks advance as the storage service and the database
    answer, in any order. *)
Inductive Task : Type :=
  | Uploading (index : nat) (file : File) (dbImageId filePath : string)
  | Creating (data : Image)
  | Fulfilled (image : Image)
  | Rejected (e : Error).

(** The synchronous part of the callback. *)
Definition start_task (album : Album) (uuid : nat → string) (index : nat)
  (file : File) : Task :=
  let dbImageId := uuid index in
  let fileExt := split_pop "." (f_name file) in
  let filePath := a_id album ++ "/" ++ dbImageId ++ "." ++ fileExt in
  Uploading index file dbImageId filePath.

(** The [data] of [prisma.image.create] once the upload has returned
    [publicUrl]; reading a field of [validated.images[index]] throws when
    the metadata has no such entry. *)
Definition image_data (validated : AlbumInput) (album : Album) (user : User)
  (index : nat) (file : File) (dbImageId publicUrl : string) : option Image :=
  match al_images validated !! index with
  | Some meta =>
      Some {| i_id := dbImageId; i_url := publicUrl;
              i_alt := Some (or_else (m_alt meta) (f_name file));
              i_caption := m_caption meta;
              i_width := m_width meta; i_height := m_height meta;
              i_size := Some (num_or_else (m_size meta) (f_size file));
              i_albumId := a_id album; i_userId := Some (user_id user) |}
  | None => None
  end.

(** What moves a task: an answer of the storage service to the upload, or
    of the database to the insertion, for the task at a position. *)
Inductive Answer : Type :=
  | UploadDone (k : nat)
  | UploadFailed (k : nat)
  | InsertDone (k : nat)
  | InsertFailed (k : nat).

Record Run := { run_world : World; run_tasks : list Task }.

(** One answer arrives.  [None]: this answer cannot arrive in this state.
    The upload is [upload(filePath, file, { upsert: false })] followed by
    [getPublicUrl(filePath)]: it succeeds only on a key that is free. *)
Definition answer (validated : AlbumInput) (album : Album) (user : User)
  (a : Answer) (r : Run) : option Run :=
  let w := run_world r in
  let ts := run_tasks r in
  match a with
  | UploadDone k =>
      match ts !! k with
      | Some (Uploading index file dbImageId filePath) =>
          if bool_decide (filePath ∈ bucket w) then None
          else
            let w' := record (StorageUpload filePath)
                        (set_bucket (λ b, b ∪ {[filePath]}) w) in
            let publicUrl := getPublicUrl "albums" filePath in
            Some {| run_world := w';
                    run_tasks :=
                      <[k := match image_data validated album user index file
                                     dbImageId publicUrl with
                             | Some data => Creating data
                             | None => Rejected TypeError
                             end]> ts |}
      | _ => None
      end
  | UploadFailed k =>
      match ts !! k with
      | Some (Uploading _ _ _ _) =>
          Some {| run_world := w; run_tasks := <[k := Rejected StorageError]> ts |}
      | _ => None
      end
  | InsertDone k =>
      match ts !! k with
      | Some (Creating data) =>
          if bool_decide (is_Some (images w !! i_id data)) then None
          else
            Some {| run_world := record (DbImageCreate (i_id data))
                                   (set_images (insert (i_id data) data) w);
                    run_tasks := <[k := Fulfilled data]> ts |}
      | _ => None
      end
  | InsertFailed k =>
      match ts !! k with
      | Some (Creating _) =>
          Some {| run_world := w; run_tasks := <[k := Rejected PrismaError]> ts |}
      | _ => None
      end
  end.

(** The answers of a schedule, one after the other. *)
Fixpoint answers (validated : AlbumInput) (album : Album) (user : User)
  (sched : list Answer) (r : Run) : option Run :=
  match sched with
  | [] => Some r
  | a :: rest =>
      match answer validated album user a r with
      | Some r' => answers validated album user rest r'
      | None => None
      end
  end.

Definition rejection (t : Task) : option Error :=
  match t with
  | Rejected e => Some e
  | _ => None
  end.

Definition fulfilment (t : Task) : option Image :=
  match t with
  | Fulfilled i => Some i
  | _ => None
  end.

(** [await Promise.all(imagePromises)]: rejected as soon as one task is,
    fulfilled with all the images once every task is, pending ([None])
    otherwise. *)
Definition Promise_all (ts : list Task) : option (result (list Image)) :=
  match omap rejection ts with
  | e :: _ => Some (Throw e)
  | [] =>
      match mapM fulfilment ts with
      | Some imgs => Some (Ok imgs)
      | None => None
      end
  end.

(** The [catch] of [POST /create]. *)
Definition albums_create_catch (e : Error) : Response :=
  match e with
  | ZodError => c_json ValidationErrorBody 400
  | _ => c_json (ErrorBody "Failed to create album") 400
  end.

(** [POST /create] up to and including the start of the tasks: either the
    route has answered already ([requireAuth], an early [return], or the
    [catch]), or the album row is written and the uploads are under way. *)
Definition albums_create_begin (user : option User) (formData : option FormData)
  (albumUuid : string) (uuid : nat → string)
  : M (Response + (User * AlbumInput * Album * list Task)) :=
  match user with
  | None => mret (inl (c_json (ErrorBody "Unauthorized") 401))
  | Some user =>
      try_catch
        (formData ← or_throw TypeError formData;
         match fd_albumData formData with
         | None => mret (inl (c_json (ErrorBody "Album data is required") 400))
         | Some albumDataJson =>
             if negb (truthy albumDataJson)
             then mret (inl (c_json (ErrorBody "Album data is required") 400))
             else
               albumData ← or_throw SyntaxError (JSON_parse albumDataJson);
               validated ← or_throw ZodError (createAlbumSchema albumData);
               let imageFiles := fd_images formData in
               if bool_decide (imageFiles = [])
               then mret (inl (c_json (ErrorBody "At least one image is required") 400))
               else
                 album ← album_create albumUuid (al_name validated)
                           (al_description validated)
                           (Date_parse (al_date validated)) (user_id user);
                 mret (inr (user, validated, album,
                            imap (start_task album uuid) imageFiles))
         end)
        (λ e, mret (inl (albums_create_catch e)))
  end.

(** The answer of [POST /create] once [Promise.all] has settled. *)
Definition albums_create_response (album : Album) (ts : list Task)
  : option Response :=
  match Promise_all ts with
  | Some (Ok images) => Some (c_json (AlbumBody album images) 201)
  | Some (Throw e) => Some (albums_create_catch e)
  | None => None
  end.

End Albums.

(** ** Vocabulary of the statements *)

(** An update whose body is not JSON: [c.req.json()] throws. *)
Definition unreadable (call : Call) : bool :=
  match call with
  | PutUpdate _ None => true
  | _ => false
  end.

(** The storage keys [DELETE /:id] removes for the rows [imgs] of album
    [id]: one per image whose URL has a last segment. *)
Definition removal_keys (id : string) (imgs : list Image) : list string :=
  omap (λ image,
          let filePath := split_pop "/" (i_url image) in
          if truthy filePath then Some (id ++ "/" ++ filePath) else None) imgs.

(** The world once the objects [keys] are removed, in this order. *)
Definition removed (keys : list string) (w : World) : World :=
  foldl (λ w key, record (StorageRemove key) (set_bucket (λ b, b ∖ {[key]}) w))
        w keys.

(** The answers a task still waits for. *)
Definition weight (t : Task) : nat :=
  match t with
  | Uploading _ _ _ _ => 2
  | Creating _ => 1
  | _ => 0
  end.

Definition pending_work (ts : list Task) : nat := sum_list (weight <$> ts).

Definition settled (t : Task) : bool :=
  match t with
  | Fulfilled _ | Rejected _ => true
  | _ => false
  end.

(** The image row a task holds once its upload has returned. *)
Definition row_of (t : Task) : option Image :=
  match t with
  | Creating data | Fulfilled data => Some data
  | _ => None
  end.

Section Vocabulary.
Context `{Collaborators}.

(** The loop of [DELETE /:id] over [existing.images]. *)
Definition removal_loop (remove_error : string → bool) (id : string)
  (imgs : list Image) : M unit :=
  for_of imgs (λ image,
    let filePath := split_pop "/" (i_url image) in
    if truthy filePath
    then deleteFile remove_error "albums" (id ++ "/" ++ filePath)
    else mret tt).

(** The URL of [img] is the public URL of an object that an upload has put
    in the bucket. *)
Definition backed (w : World) (img : Image) : Prop :=
  ∃ key, key ∈ bucket w ∧ StorageUpload key ∈ effects w
         ∧ i_url img = getPublicUrl "albums" key.

(** What holds of the tasks of one [POST /create] at any time; [base] is
    table [images] when the request arrived. *)
Record run_ok (base : gmap string Image) (r : Run) : Prop := {
  tasks_backed : ∀ k t data,
    run_tasks r !! k = Some t → row_of t = Some data → backed (run_world r) data;
  rows_backed : ∀ i img,
    images (run_world r) !! i = Some img →
    base !! i = Some img ∨ backed (run_world r) img;
  no_zod : ∀ k, run_tasks r !! k ≠ Some (Rejected ZodError);
}.

End Vocabulary.

(** ** More of the album routes ([src/api/albums.ts]): [GET /:id],
    [PUT /:id] and [DELETE /:albumId/images/:imageId] *)

(** [onDelete: SetNull] of [Reflection.featuredImage], for the image rows
    [gone]. *)
Definition unfeature (gone : string → bool) (r : Reflection) : Reflection :=
  match r_featuredImageId r with
  | Some i =>
      if gone i then
        {| r_id := r_id r; r_title := r_title r; r_content := r_content r;
           r_publishDate := r_publishDate r; r_slug := r_slug r;
           r_status := r_status r; r_authorId := r_authorId r;
           r_featuredImageId := None; r_tags := r_tags r |}
      else r
  | None => r
  end.

(** The answers of [DELETE /:albumId/images/:imageId]: those of [c.json]
    with a body, and [c.json(null)], sent with status 200 when the album of
    the path is not stored. *)
Inductive ImageReply : Type :=
  | Answered (r : Response)
  | AnsweredNull.

(** The output of [updateAlbumSchema.parse]. *)
Record AlbumUpdateInput := {
  au_name : option string;
  au_description : option string;
  au_date : option string;
}.

(** [updateAlbumSchema] *)
Definition updateAlbumSchema (data : json) : option AlbumUpdateInput :=
  match data with
  | JObj f =>
      name ← z_optional (z_string 1) (assoc "name" f);
      description ← z_optional (z_string 0) (assoc "description" f);
      date ← z_optional (z_string 0) (assoc "date" f);
      Some {| au_name := name; au_description := description; au_date := date |}
  | _ => None
  end.

(** A string as [for ... of] walks it: one string per character. *)
Fixpoint characters (s : string) : list json :=
  match s with
  | EmptyString => []
  | String c rest => JStr (String c EmptyString) :: characters rest
  end.

(** What [albumData.imageIdsToDelete] makes of the deletion step of
    [PUT /:id]: skipped, a loop over these values, or a [for ... of] over
    something that is not iterable. *)
Inductive Deletions : Type :=
  | NoDeletions
  | DeleteThese (items : list json)
  | NotIterable.

Section Ecma.
(** [v > 0] of the language, for a value read from parsed JSON. *)
Variable js_positive : json → bool.

(** [albumData.imageIdsToDelete?.length > 0], and what the loop then
    iterates over. *)
Definition deletions (f : list (string * json)) : Deletions :=
  match assoc "imageIdsToDelete" f with
  | None | Some JNull | Some (JBool _) | Some (JNum _) => NoDeletions
  | Some (JArr items) =>
      match items with
      | [] => NoDeletions
      | _ => DeleteThese items
      end
  | Some (JStr s) => if truthy s then DeleteThese (characters s) else NoDeletions
  | Some (JObj g) =>
      match assoc "length" g with
      | Some len => if js_positive len then NotIterable else NoDeletions
      | None => NoDeletions
      end
  end.
End Ecma.

(** [id: { in: albumData.imageIdsToDelete }]: an array of strings, or a
    validation error. *)
Definition id_list (f : list (string * json)) : option (list string) :=
  match assoc "imageIdsToDelete" f with
  | Some v => z_string_array v
  | None => None
  end.

(** [existing.images.find((img) => img.id === imageId)] *)
Definition find_image (imgs : list Image) (imageId : json) : option Image :=
  match imageId with
  | JStr s => List.find (λ img, String.eqb (i_id img) s) imgs
  | _ => None
  end.

Section MoreAlbums.
Context `{Collaborators}.

(** Whether the storage service answers an upload, or a removal, of this
    key with an error of its own. *)
Variables (upload_error remove_error : string → bool).
Variable js_positive : json → bool.

(** [storageHelpers.uploadFile]: [upload(filePath, file, { upsert: false })],
    which fails on a key that is taken, then [getPublicUrl(filePath)]. *)
Definition uploadFile (bucketName filePath : string) : M string :=
  λ w,
    if upload_error filePath || bool_decide (filePath ∈ bucket w)
    then (Throw StorageError, w)
    else (Ok (getPublicUrl bucketName filePath),
          record (StorageUpload filePath) (set_bucket (λ b, b ∪ {[filePath]}) w)).

(** [prisma.image.findUnique({ where: { id }, include: { album: ... } })] *)
Definition image_findUnique (id : string) : M (option (Image * option Album)) :=
  λ w, (Ok ((λ img, (img, albums w !! i_albumId img)) <$> images w !! id), w).

(** [prisma.image.create({ data })] issued and awaited in one go. *)
Definition image_create (data : Image) : M Image :=
  λ w,
    if bool_decide (is_Some (images w !! i_id data))
       || negb (bool_decide (is_Some (albums w !! i_albumId data)))
    then (Throw PrismaError, w)
    else (Ok data, record (DbImageCreate (i_id data))
                     (set_images (insert (i_id data) data) w)).

(** [prisma.image.delete({ where: { id } })].  The log [effects] has no
    entry for this write. *)
Definition image_delete (id : string) : M unit :=
  λ w,
    match images w !! id with
    | Some _ =>
        (Ok tt, set_images (delete id)
                  (set_reflections (fmap (unfeature (String.eqb id))) w))
    | None => (Throw PrismaError, w)
    end.

(** [prisma.image.deleteMany({ where: { id: { in: ids }, albumId } })].  The
    log [effects] has no entry for this write. *)
Definition image_deleteMany (ids : option (list string)) (albumId : string)
  : M unit :=
  λ w,
    match ids with
    | Some ids =>
        let gone i :=
          bool_decide (i ∈ ids)
          && bool_decide (i_albumId <$> images w !! i = Some albumId) in
        (Ok tt, set_images (filter (λ kv, gone kv.1 = false))
                  (set_reflections (fmap (unfeature gone)) w))
    | None => (Throw PrismaError, w)
    end.

(** [prisma.album.update({ where: { id }, data })]; [date] is [Some None]
    for the invalid date.  The log [effects] has no entry for this write. *)
Definition album_update (id : string) (name description : option string)
  (date : option (option Z)) : M Album :=
  λ w,
    match albums w !! id, date with
    | Some a, None =>
        let a' := {| a_id := a_id a; a_name := default (a_name a) name;
                     a_description :=
                       match description with
                       | Some d => Some d
                       | None => a_description a
                       end;
                     a_date := a_date a; a_uploadedById := a_uploadedById a |} in
        (Ok a', set_albums (insert id a') w)
    | Some a, Some (Some d) =>
        let a' := {| a_id := a_id a; a_name := default (a_name a) name;
                     a_description :=
                       match description with
                       | Some d => Some d
                       | None => a_description a
                       end;
                     a_date := d; a_uploadedById := a_uploadedById a |} in
        (Ok a', set_albums (insert id a') w)
    | _, _ => (Throw PrismaError, w)
    end.

(** [include: { images: true }] on the album [id] *)
Definition album_images (id : string) : M (list Image) :=
  λ w, (Ok (images_of id w), w).

(** [GET /:id] *)
Definition albums_get (id : string) : M Response :=
  album ← album_findUnique id;
  match album with
  | None => mret (c_json (ErrorBody "Album not found") 404)
  | Some (album, album_images) => mret (c_json_ok (AlbumBody album album_images))
  end.

(** [DELETE /:albumId/images/:imageId] *)
Definition albums_delete_image (user : option User) (albumId imageId : string)
  : M ImageReply :=
  match user with
  | None => mret (Answered (c_json (ErrorBody "Unauthorized") 401))
  | Some user =>
      try_catch
        (image ← image_findUnique imageId;
         match image with
         | None => mret (Answered (c_json (ErrorBody "Image not found") 404))
         | Some (image, image_album) =>
             image_album ← or_throw TypeError image_album;
             if negb (String.eqb (a_uploadedById image_album) (user_id user))
             then mret (Answered (c_json (ErrorBody "Unauthorized") 403))
             else
               let filePath := split_pop "/" (i_url image) in
               _ ← (if truthy filePath
                    then deleteFile remove_error "albums" (albumId ++ "/" ++ filePath)
                    else mret tt);
               _ ← image_delete imageId;
               updatedAlbum ← album_findUnique albumId;
               match updatedAlbum with
               | Some (a, imgs) => mret (Answered (c_json_ok (AlbumBody a imgs)))
               | None => mret AnsweredNull
               end
         end)
        (λ _, mret (Answered (c_json (ErrorBody "Failed to delete image") 400)))
  end.

(** [obj.field] on a parsed value: [undefined] unless [obj] is an object
    with this field. *)
Definition fields_of (data : json) : list (string * json) :=
  match data with
  | JObj f => f
  | _ => []
  end.

(** [...(s && { field: s })]: the field is written when [s] is a non-empty
    string. *)
Definition when_truthy (s : option string) : option string :=
  match s with
  | Some x => if truthy x then Some x else None
  | None => None
  end.

(** The deletion step of [PUT /:id]: storage first, then the rows. *)
Definition delete_listed (id : string) (existing_images : list Image)
  (f : list (string * json)) : M unit :=
  match deletions js_positive f with
  | NoDeletions => mret tt
  | NotIterable => throw TypeError
  | DeleteThese items =>
      _ ← for_of items (λ imageId,
            match find_image existing_images imageId with
            | Some image =>
                let filePath := split_pop "/" (i_url image) in
                if truthy filePath
                then deleteFile remove_error "albums" (id ++ "/" ++ filePath)
                else mret tt
            | None => mret tt
            end);
      image_deleteMany (id_list f) id
  end.

(** The upload loop of [PUT /:id], from [image_i] on; [uuid i] is the UUID
    drawn for [image_i]. *)
Fixpoint upload_new (id : string) (user : User) (uuid : nat → string) (i : nat)
  (files : list File) : M (list Image) :=
  match files with
  | [] => mret []
  | file :: rest =>
      let dbImageId := uuid i in
      let fileExt := split_pop "." (f_name file) in
      let filePath := id ++ "/" ++ dbImageId ++ "." ++ fileExt in
      publicUrl ← uploadFile "albums" filePath;
      newImage ← image_create
        {| i_id := dbImageId; i_url := publicUrl; i_alt := Some (f_name file);
           i_caption := None; i_width := None; i_height := None;
           i_size := Some (f_size file); i_albumId := id;
           i_userId := Some (user_id user) |};
      newImages ← upload_new id user uuid (S i) rest;
      mret (newImage :: newImages)
  end.

(** The [catch] of [PUT /:id]. *)
Definition albums_update_catch (e : Error) : Response :=
  match e with
  | ZodError => c_json ValidationErrorBody 400
  | SyntaxError => c_json (ErrorBody "Invalid JSON data") 400
  | _ => c_json (ErrorBody "Failed to update album") 400
  end.

(** [PUT /:id] *)
Definition albums_update (user : option User) (id : string)
  (formData : option FormData) (uuid : nat → string) : M Response :=
  requireAuth user (λ user,
    try_catch
      (formData ← or_throw TypeError formData;
       match fd_albumData formData with
       | None => mret (c_json (ErrorBody "Album data is required") 400)
       | Some albumDataJson =>
           if negb (truthy albumDataJson)
           then mret (c_json (ErrorBody "Album data is required") 400)
           else
             albumData ← or_throw SyntaxError (JSON_parse albumDataJson);
             existing ← album_findUnique id;
             match existing with
             | None => mret (c_json (ErrorBody "Album not found") 404)
             | Some (existing, existing_images) =>
                 if negb (String.eqb (a_uploadedById existing) (user_id user))
                 then mret (c_json (ErrorBody "Unauthorized") 403)
                 else
                   validated ← or_throw ZodError (updateAlbumSchema albumData);
                   _ ← delete_listed id existing_images (fields_of albumData);
                   _ ← upload_new id user uuid 0 (fd_images formData);
                   updatedAlbum ← album_update id
                     (when_truthy (au_name validated))
                     (when_truthy (au_description validated))
                     (Date_parse <$> when_truthy (au_date validated));
                   updatedImages ← album_images id;
                   mret (c_json_ok (AlbumBody updatedAlbum updatedImages))
             end
       end)
      (λ e, mret (albums_update_catch e))).
End MoreAlbums.

(** ** The storage helper that renames before it uploads *)

(** [s.lastIndexOf(c)]; [None] is the answer -1. *)
Fixpoint lastIndexOf (c : ascii) (s : list ascii) : option nat :=
  match s with
  | [] => None
  | x :: rest =>
      match lastIndexOf c rest with
      | Some i => Some (S i)
      | None => if Ascii.eqb x c then Some O else None
      end
  end.

(** The time of [Date.now()], a count of milliseconds, inside a template
    string: its decimal digits. *)
Definition stamp (timestamp : N) : string :=
  NilZero.string_of_uint (N.to_uint timestamp).

(** [storageHelpers.generateUniquePath] of the revision of
    [src/lib/supabase.ts] that uploads with [upsert: true]; [timestamp] is
    the value of [Date.now()]. *)
Definition generateUniquePath (originalPath : string) (timestamp : N) : string :=
  let chars := list_ascii_of_string originalPath in
  match lastIndexOf "." chars with
  | None => originalPath ++ "_" ++ stamp timestamp
  | Some lastDotIndex =>
      let nameWithoutExt := string_of_list_ascii (take lastDotIndex chars) in
      let extension := string_of_list_ascii (drop lastDotIndex chars) in
      nameWithoutExt ++ "_" ++ stamp timestamp ++ extension
  end.

(** ** Vocabulary of the further statements *)

(** [[a-z0-9_-]] *)
Definition slug_char (c : ascii) : bool :=
  in_range 97 122 c || in_range 48 57 c || (code c =? 95)%N || is_hyphen c.

Fixpoint no_double (s : list ascii) : bool :=
  match s with
  | a :: (b :: _) as rest => negb (is_hyphen a && is_hyphen b) && no_double rest
  | _ => true
  end.

(** A slug as [createSlug] makes them. *)
Definition slug_shaped (s : list ascii) : Prop :=
  Forall (λ c, slug_char c = true) s ∧ no_double s = true ∧
  (∀ c, head s = Some c → is_hyphen c = false) ∧
  (∀ c, last s = Some c → is_hyphen c = false).

(** Rows sit under their [id], and no two rows share a slug. *)
Definition store_ok (m : gmap string Reflection) : Prop :=
  (∀ k r, m !! k = Some r → r_id r = k) ∧
  (∀ k1 k2 r1 r2, m !! k1 = Some r1 → m !! k2 = Some r2 →
     r_slug r1 = r_slug r2 → k1 = k2).

(** The key lies in the folder of album [id]. *)
Definition under (id key : string) : Prop := ∃ rest, key = id ++ "/" ++ rest.

(** From [w] to [w'] nothing changed outside album [id]: the other album
    rows, the image rows of other albums, the objects outside the folder of
    [id]; and album [id], if still there, has its owner. *)
Record elsewhere (id : string) (w w' : World) : Prop := {
  other_albums : ∀ k, k ≠ id → albums w' !! k = albums w !! k;
  same_owner : ∀ a', albums w' !! id = Some a' →
    ∃ a, albums w !! id = Some a ∧ a_uploadedById a' = a_uploadedById a;
  images_kept : ∀ k img, images w !! k = Some img → i_albumId img ≠ id →
    images w' !! k = Some img;
  images_new : ∀ k img, images w' !! k = Some img → i_albumId img ≠ id →
    images w !! k = Some img;
  other_keys : ∀ key, ¬ under id key → key ∈ bucket w' ↔ key ∈ bucket w;
}.

(** Every run of [m] relates the world before to the world after by [R]. *)
Definition keeps (R : World → World → Prop) {A} (m : M A) : Prop :=
  ∀ w res w', m w = (res, w') → R w w'.

(** Table [albums] is the same in both worlds. *)
Definition same_albums (w w' : World) : Prop := albums w' = albums w.


Section TaskShape.
Context `{Collaborators}.

(** The storage key of the file at position [k] of a [POST /create]. *)
Definition upload_key (album : Album) (uuid : nat → string) (k : nat)
  (file : File) : string :=
  a_id album ++ "/" ++ uuid k ++ "." ++ split_pop "." (f_name file).

(** What the task at position [k] can be while the request for [files] is
    served: it belongs to the file at this position, holds the row made of
    this file and the metadata at the same position, and the row of a
    fulfilled task is in table [images]. *)
Definition task_of (validated : AlbumInput) (album : Album) (user : User)
  (uuid : nat → string) (files : list File) (w : World) (k : nat) (t : Task)
  : Prop :=
  ∃ file, files !! k = Some file ∧
    match t with
    | Uploading index f dbImageId filePath =>
        index = k ∧ f = file ∧ dbImageId = uuid k
        ∧ filePath = upload_key album uuid k file
    | Creating data =>
        image_data validated album user k file (uuid k)
          (getPublicUrl "albums" (upload_key album uuid k file)) = Some data
    | Fulfilled data =>
        image_data validated album user k file (uuid k)
          (getPublicUrl "albums" (upload_key album uuid k file)) = Some data
        ∧ images w !! i_id data = Some data
    | Rejected _ => True
    end.

Record tasks_ok (validated : AlbumInput) (album : Album) (user : User)
  (uuid : nat → string) (files : list File) (r : Run) : Prop := {
  tasks_length : List.length (run_tasks r) = List.length files;
  tasks_shape : ∀ k t, run_tasks r !! k = Some t →
    task_of validated album user uuid files (run_world r) k t;
  album_row : albums (run_world r) !! a_id album = Some album;
}.
End TaskShape.

(** ** Sample data, used to run the routes *)

Definition sample_json : json :=
  JObj [("name", JStr "Trip"); ("date", JStr "2024-01-01");
        ("images", JArr [JObj [("id", JStr "x")];
                         JObj [("id", JStr "y"); ("alt", JStr "sea")]])].

Definition sample_env : Collaborators :=
  {| parseDateTime := λ s,
       if String.eqb s "2024-01-01T00:00:00.000Z" then Some 1704067200000 else None;
     Date_parse := λ s,
       if String.eqb s "2024-01-01" then Some 1704067200000 else None;
     JSON_parse := λ s, if String.eqb s "trip" then Some sample_json else None;
     getPublicUrl := λ b p, "https://cdn.test/public/" ++ b ++ "/" ++ p |}.

Definition alice : User := {| user_id := "alice" |}.
Definition bob : User := {| user_id := "bob" |}.

Definition empty_world : World :=
  {| reflections := ∅; tagIds := ∅; images := ∅; albums := ∅; bucket := ∅;
     effects := [] |}.

(** A draft of alice. *)
Definition r1 : Reflection :=
  {| r_id := "r1"; r_title := "Hello World"; r_content := "x";
     r_publishDate := None; r_slug := "hello-world"; r_status := DRAFT;
     r_authorId := "alice"; r_featuredImageId := None; r_tags := [] |}.

(** A published reflection of alice. *)
Definition r2 : Reflection :=
  {| r_id := "r2"; r_title := "Second"; r_content := "y";
     r_publishDate := Some 1000; r_slug := "second"; r_status := PUBLISHED;
     r_authorId := "alice"; r_featuredImageId := None; r_tags := [] |}.

(** A draft of bob. *)
Definition r3 : Reflection :=
  {| r_id := "r3"; r_title := "Third"; r_content := "z";
     r_publishDate := None; r_slug := "third"; r_status := DRAFT;
     r_authorId := "bob"; r_featuredImageId := None; r_tags := [] |}.

Definition blog : World :=
  {| reflections := <["r1" := r1]> (<["r2" := r2]> (<["r3" := r3]> ∅));
     tagIds := ∅; images := ∅; albums := ∅; bucket := ∅; effects := [] |}.

Definition hello_body : json :=
  JObj [("title", JStr "Hello World"); ("content", JStr "x")].

(** An album of alice with two images in the bucket. *)
Definition trip : Album :=
  {| a_id := "alb"; a_name := "Trip"; a_description := None;
     a_date := 1704067200000; a_uploadedById := "alice" |}.

Definition photo (id ext : string) : Image :=
  {| i_id := id;
     i_url := "https://cdn.test/public/albums/alb/" ++ id ++ "." ++ ext;
     i_alt := None; i_caption := None; i_width := None; i_height := None;
     i_size := None; i_albumId := "alb"; i_userId := Some "alice" |}.

Definition gallery : World :=
  {| reflections := ∅; tagIds := ∅;
     images := <["u0" := photo "u0" "png"]> (<["u1" := photo "u1" "jpg"]> ∅);
     albums := <["alb" := trip]> ∅;
     bucket := {["alb/u0.png"; "alb/u1.jpg"]};
     effects := [] |}.

Definition trip_form : FormData :=
  {| fd_albumData := Some "trip";
     fd_images := [ {| f_name := "a.png"; f_size := 10 |};
                    {| f_name := "b.jpg"; f_size := 20 |} ] |}.

Definition sample_uuid (n : nat) : string :=
  match n with
  | O => "u0"
  | _ => "u1"
  end.

Definition launch_body : json :=
  JObj [("title", JStr "Launch"); ("content", JStr "x");
        ("status", JStr "PUBLISHED")].


Definition sample_sched : list Answer :=
  [UploadDone 0; UploadFailed 1; InsertDone 0].

(** The form of a [PUT /:id] that sends data and no file. *)
Definition rename_form : FormData :=
  {| fd_albumData := Some "trip"; fd_images := [] |}.

(** Three files for the two entries of [images] in [sample_json]. *)
Definition crowded_form : FormData :=
  {| fd_albumData := Some "trip";
     fd_images := [ {| f_name := "a.png"; f_size := 10 |};
                    {| f_name := "b.jpg"; f_size := 20 |};
                    {| f_name := "c.gif"; f_size := 30 |} ] |}.

(** A user whose id is the literal ["none"], and what they post. *)
Definition nobody : User := {| user_id := "none" |}.

Definition notes_body : json :=
  JObj [("title", JStr "Notes"); ("content", JStr "n")].

(** One file whose name has a ["/"] after its last dot, and one whose name
    ends with [./]. *)
Definition slash_form : FormData :=
  {| fd_albumData := Some "trip";
     fd_images := [ {| f_name := "a.b/c"; f_size := 10 |} ] |}.

Definition dot_slash_form : FormData :=
  {| fd_albumData := Some "trip";
     fd_images := [ {| f_name := "x./"; f_size := 10 |} ] |}.

Definition full_sched : list Answer :=
  [UploadDone 1; UploadDone 0; InsertDone 0; InsertDone 1].

Definition crowded_sched : list Answer :=
  [UploadDone 2; UploadDone 0; InsertDone 0].

(** * Properties *)

(** ** The slug and string helpers on examples *)

Example createSlug_hello : createSlug "Hello World" = "hello-world".
Proof. vm_compute. reflexivity. Qed.

Example createSlug_messy : createSlug "  --A  b__c!!  d-- " = "a-b__c-d".
Proof. vm_compute. reflexivity. Qed.

Example split_pop_url : split_pop "/" "https://x.co/albums/a1/i1.png" = "i1.png".
Proof. vm_compute. reflexivity. Qed.

Example split_pop_trailing : split_pop "/" "a/b/" = "".
Proof. vm_compute. reflexivity. Qed.

(** ** Tactics and facts shared by the proofs *)

(** Unfolds a route down to the calls of the Prisma client. *)
Ltac run_m :=
  unfold run_handler, route, reflections_get, reflections_list, reflections_create,
    reflections_update, reflections_delete, reflections_publish, requireAuth,
    try_catch, req_json, or_throw, throw, reflection_findUnique, c_json_ok, c_json in *;
  unfold mbind, M_bind, mret, M_ret in *; simpl in *.

Lemma filter_none {A} (f : A → bool) (l : list A) :
  (∀ x, x ∈ l → f x = false) → List.filter f l = [].
Proof.
  induction l as [|x l IH]; intros Hf; [done|]. simpl.
  rewrite (Hf x) by apply list_elem_of_here.
  apply IH. intros y Hy. apply Hf. by apply list_elem_of_further.
Qed.

Lemma elem_of_filter_rows (f : Reflection → bool) (m : gmap string Reflection) r :
  r ∈ List.filter f (map_to_list m).*2 ↔ (∃ k, m !! k = Some r) ∧ f r = true.
Proof.
  rewrite list_elem_of_In, filter_In, <- list_elem_of_In, list_elem_of_fmap.
  split.
  - intros [([k r'] & -> & Hin) Hf]. split; [|done]. exists k.
    by apply elem_of_map_to_list.
  - intros [[k Hk] Hf]. split; [|done]. exists (k, r). split; [done|].
    by apply elem_of_map_to_list.
Qed.



Lemma create_schema_title f v :
  createReflectionSchema (JObj f) = Some v →
  assoc "title" f = Some (JStr (in_title v)) ∧
  (assoc "slug" f = None → in_slug v = None).
Proof.
  simpl. intros Hv. simplify_option_eq.
  destruct (assoc "title" f) as [[| | |s| |]|]; simplify_eq/=.
  case_match; simplify_eq/=. split; [done|]. intros Hs. rewrite Hs in *. by simplify_eq/=.
Qed.

Lemma slug_taken_intro (m : gmap string Reflection) k r s :
  m !! k = Some r → r_slug r = s → slug_taken s None m = true.
Proof.
  intros Hk Hs. unfold slug_taken. apply existsb_exists. exists (k, r). split.
  - apply list_elem_of_In. by apply elem_of_map_to_list.
  - simpl. rewrite Hs, String.eqb_refl. done.
Qed.

(** ** What the writes of the Prisma client do *)

Section PrismaFacts.
Context {C : Collaborators}.

Lemma update_row_cases (w : World) id d :
  (∃ e, reflection_update id d w = (Throw e, w)) ∨
  (∃ r r',
      reflection_update id d w
      = (Ok r', record (DbReflectionUpdate id) (set_reflections (insert id r') w)) ∧
      reflections w !! id = Some r ∧ r_authorId r' = r_authorId r ∧
      r_status r' = default (r_status r) (d_status d) ∧
      r_publishDate r' = match coerce_date (d_publishDate d) with
                         | Some (Some t) => Some t
                         | _ => r_publishDate r
                         end).
Proof.
  unfold reflection_update.
  destruct (reflections w !! id) as [r|] eqn:Hid; [|left; by exists PrismaError].
  destruct (coerce_date (d_publishDate d)) as [pd|]; [|left; by exists PrismaError].
  match goal with |- context [if ?b then _ else _] => destruct b end;
    [left; by exists PrismaError|].
  right. eexists r, _. split; [reflexivity|]. by destruct pd.
Qed.

Lemma create_row_cases (w : World) d :
  (∃ e, reflection_create d w = (Throw e, w)) ∨
  (∃ r,
      reflection_create d w
      = (Ok r, record (DbReflectionCreate (c_id d))
                 (set_reflections (insert (c_id d) r) w)) ∧
      reflections w !! c_id d = None ∧
      r_slug r = c_slug d ∧ r_status r = c_status d ∧
      Some (r_publishDate r) = coerce_date (c_publishDate d)).
Proof.
  unfold reflection_create.
  destruct (coerce_date (c_publishDate d)) as [pd|]; [|left; by exists PrismaError].
  destruct (reflections w !! c_id d) as [r|] eqn:Hid.
  { left. exists PrismaError. by rewrite bool_decide_eq_true_2 by eauto. }
  rewrite bool_decide_eq_false_2 by by intros [? ?].
  match goal with |- context [if ?b then _ else _] => destruct b end;
    [left; by exists PrismaError|].
  right. eexists. split; [reflexivity|]. done.
Qed.

End PrismaFacts.

(** ** Reading one reflection *)

Section Visibility.
Context {C : Collaborators}.

(** The four outcomes of [GET /get/:id]: a reflection that is not stored, a
    published one, a draft read by its author, a draft read by anyone else. *)
Lemma get_missing (w : World) user id :
  reflections w !! id = None →
  run_handler (reflections_get user id) w
  = (c_json (ErrorBody "Reflection not found") 404, w).
Proof. intros Hid. run_m. rewrite Hid. reflexivity. Qed.

Lemma get_published (w : World) user id r :
  reflections w !! id = Some r → r_status r = PUBLISHED →
  run_handler (reflections_get user id) w = (c_json_ok (ReflectionBody r), w).
Proof. intros Hid Hst. run_m. rewrite Hid, Hst. reflexivity. Qed.

Lemma get_draft_owner (w : World) u id r :
  reflections w !! id = Some r → r_status r = DRAFT → user_id u = r_authorId r →
  run_handler (reflections_get (Some u) id) w = (c_json_ok (ReflectionBody r), w).
Proof.
  intros Hid Hst Hown. run_m. rewrite Hid, Hst, Hown, String.eqb_refl. reflexivity.
Qed.

Lemma get_draft_hidden (w : World) user id r :
  reflections w !! id = Some r → r_status r = DRAFT →
  (∀ u, user = Some u → user_id u ≠ r_authorId r) →
  run_handler (reflections_get user id) w = (c_json (ErrorBody "Not found") 404, w).
Proof.
  intros Hid Hst Hother. run_m. rewrite Hid, Hst. destruct user as [u|]; [|done].
  simpl. destruct (String.eqb_spec (user_id u) (r_authorId r)) as [e|]; [|done].
  by destruct (Hother u eq_refl).
Qed.

End Visibility.

(** ** Who may write *)

Section Mutation.
Context {C : Collaborators}.

(** Unless the caller is the recorded author of the addressed reflection, a
    write route changes nothing and does not answer 200. *)
Lemma non_owner_leaves_world (w : World) (user : option User) (call : Call) id :
  mutates call = Some id →
  (∀ u r, user = Some u → reflections w !! id = Some r → r_authorId r ≠ user_id u) →
  (run_handler (route user call) w).2 = w ∧
  res_status (run_handler (route user call) w).1 ≠ 200.
Proof.
  intros Hm Hno.
  destruct call as [| | |id' body|id'|id' now]; simplify_eq/=;
    destruct user as [u|]; run_m; try done.
  - destruct body as [b|]; simpl; [|done].
    destruct (reflections w !! id) as [r|] eqn:Hid; simpl; [|done].
    destruct (String.eqb_spec (r_authorId r) (user_id u)) as [e|]; simpl; [|done].
    by destruct (Hno u r eq_refl eq_refl).
  - destruct (reflections w !! id) as [r|] eqn:Hid; simpl; [|done].
    destruct (String.eqb_spec (r_authorId r) (user_id u)) as [e|]; simpl; [|done].
    by destruct (Hno u r eq_refl eq_refl).
  - destruct (reflections w !! id) as [r|] eqn:Hid; simpl; [|done].
    destruct (String.eqb_spec (r_authorId r) (user_id u)) as [e|]; simpl; [|done].
    by destruct (Hno u r eq_refl eq_refl).
Qed.

(** No write route changes the author of the reflection it addresses. *)
Lemma owner_kept (w : World) (user : option User) (call : Call) id r r' :
  mutates call = Some id →
  reflections w !! id = Some r →
  reflections (run_handler (route user call) w).2 !! id = Some r' →
  r_authorId r' = r_authorId r.
Proof.
  intros Hm Hid.
  destruct call as [| | |id' body|id'|id' now]; simplify_eq/=;
    destruct user as [u|]; run_m; rewrite ?Hid; simpl; try congruence.
  - destruct body as [b|]; simpl; rewrite ?Hid; simpl; [|congruence].
    destruct (negb _); simpl; [congruence|].
    destruct (createReflectionSchema_partial b) as [v|]; simpl; [|congruence].
    match goal with |- context [reflection_update id ?d w] =>
      destruct (update_row_cases w id d) as [[e He]|(r0 & r1 & He & Hr0 & Hown & _)];
      rewrite He end; simpl; [congruence|].
    rewrite lookup_insert_eq. congruence.
  - destruct (negb _); simpl; [congruence|].
    unfold reflection_delete. rewrite Hid. simpl. by rewrite lookup_delete_eq.
  - destruct (negb _); simpl; [congruence|].
    match goal with |- context [reflection_update id ?d w] =>
      destruct (update_row_cases w id d) as [[e He]|(r0 & r1 & He & Hr0 & Hown & _)];
      rewrite He end; simpl; [congruence|].
    rewrite lookup_insert_eq. congruence.
Qed.

(** C2, as amended.  For update, delete and publish of the reflection [id]:
    an anonymous caller is answered 401; an authenticated caller whose
    request is readable is answered 404 when [id] is not stored and 403 when
    the stored author differs from the caller, whatever the body says; an
    update whose body is not JSON is answered 400 before the row is looked
    at; in all these cases the world is unchanged.  The world changes, or the
    answer is 200, only for the stored author, and the author recorded on
    the row is never changed. *)
Theorem mutation_authorization (w : World) (user : option User) (call : Call) id :
  mutates call = Some id →
  (user = None →
     run_handler (route user call) w = (c_json (ErrorBody "Unauthorized") 401, w)) ∧
  (∀ u, user = Some u → unreadable call = false →
     (reflections w !! id = None →
        run_handler (route user call) w
        = (c_json (ErrorBody "Reflection not found") 404, w)) ∧
     (∀ r, reflections w !! id = Some r → r_authorId r ≠ user_id u →
        run_handler (route user call) w
        = (c_json (ErrorBody "Unauthorized") 403, w))) ∧
  (∀ u, user = Some u → unreadable call = true →
     run_handler (route user call) w
     = (c_json (ErrorBody "Failed to update reflection") 400, w)) ∧
  ((run_handler (route user call) w).2 ≠ w
   ∨ res_status (run_handler (route user call) w).1 = 200 →
     ∃ u r, user = Some u ∧ reflections w !! id = Some r
            ∧ r_authorId r = user_id u) ∧
  (∀ r r', reflections w !! id = Some r →
     reflections (run_handler (route user call) w).2 !! id = Some r' →
     r_authorId r' = r_authorId r).
Proof.
  intros Hm. split_and!.
  - intros ->. destruct call; simplify_eq/=; reflexivity.
  - intros u -> Hread. split.
    + intros Hid. destruct call as [| | |id' body|id'|id' now]; simplify_eq/=;
        run_m; rewrite ?Hid; try reflexivity.
      destruct body as [b|]; [|done]. simpl. by rewrite Hid.
    + intros r Hid Hno.
      assert (negb (String.eqb (r_authorId r) (user_id u)) = true) as Hneq.
      { by destruct (String.eqb_spec (r_authorId r) (user_id u)). }
      destruct call as [| | |id' body|id'|id' now]; simplify_eq/=;
        run_m; rewrite ?Hid; simpl; rewrite ?Hneq; try reflexivity.
      destruct body as [b|]; [|done]. simpl. by rewrite Hid, Hneq.
  - intros u -> Hun. destruct call as [| | |id' [b|]|id'|id' now]; simplify_eq/=.
    reflexivity.
  - intros Hdone.
    destruct user as [u|].
    + destruct (reflections w !! id) as [r|] eqn:Hid.
      * destruct (String.eqb_spec (r_authorId r) (user_id u)) as [e|ne]; [by eauto|].
        destruct (non_owner_leaves_world w (Some u) call id Hm) as [Hw Hs].
        { intros u' r' [= <-] Hr'. congruence. }
        by destruct Hdone.
      * destruct (non_owner_leaves_world w (Some u) call id Hm) as [Hw Hs].
        { intros u' r' _ Hr'. congruence. }
        by destruct Hdone.
    + destruct (non_owner_leaves_world w None call id Hm) as [Hw Hs]; [done|].
      by destruct Hdone.
  - intros r r'. by apply owner_kept.
Qed.

End Mutation.

(** ** Listing *)

Section Listing.
Context {C : Collaborators}.

Lemma where_anonymous status authorId :
  w_status (list_where None status authorId) = Some "PUBLISHED".
Proof.
  unfold list_where, spread. simpl.
  by destruct (bool_decide (status = Some "DRAFT")).
Qed.

Lemma where_foreign_drafts user authorId :
  (∀ u, user = Some u → authorId ≠ Some (user_id u)) →
  w_authorId (list_where user (Some "DRAFT") authorId) = Some "none".
Proof.
  intros Hother. unfold list_where, spread.
  rewrite (bool_decide_eq_true_2 (Some "DRAFT" = Some "DRAFT")) by done.
  destruct user as [u|]; simpl; [|done].
  unfold id_differs. by rewrite bool_decide_eq_false_2 by by apply Hother.
Qed.

(** Without [authorId] the filter on the author is the literal ["none"],
    for every signed-in caller. *)
Lemma where_without_authorId (u : User) :
  list_where (Some u) (Some "DRAFT") None
  = {| w_status := Some "DRAFT"; w_authorId := Some "none" |}.
Proof. reflexivity. Qed.

(** Every anonymous listing answers 200 with published reflections only,
    whatever [status] and [authorId] were asked for. *)
Lemma anonymous_listing_published (w : World) (status authorId : option string) :
  ∃ rs, run_handler (reflections_list None status authorId) w
        = (c_json_ok (ReflectionsBody rs), w)
        ∧ ∀ r, r ∈ rs → r_status r = PUBLISHED.
Proof.
  run_m. unfold reflection_findMany.
  rewrite where_anonymous. simpl. eexists. split; [reflexivity|].
  intros r [_ Hm]%elem_of_filter_rows. unfold matches in Hm.
  apply andb_prop in Hm as [Hs _]. by apply bool_decide_eq_true in Hs.
Qed.

(** A listing with [status=DRAFT] by an anonymous caller, or by a caller
    whose id is not the [authorId] asked for, answers 200 with the rows
    whose author is the literal ["none"]: its drafts for a signed-in caller,
    its published reflections for an anonymous one. *)
Lemma closed_listing_rows (w : World) (user : option User)
  (authorId : option string) :
  (∀ u, user = Some u → authorId ≠ Some (user_id u)) →
  ∃ rs, run_handler (reflections_list user (Some "DRAFT") authorId) w
        = (c_json_ok (ReflectionsBody rs), w)
        ∧ ∀ r, r ∈ rs ↔ (∃ k, reflections w !! k = Some r)
                        ∧ r_authorId r = "none"
                        ∧ r_status r = match user with
                                       | Some _ => DRAFT
                                       | None => PUBLISHED
                                       end.
Proof.
  intros Hother. pose proof (where_foreign_drafts user authorId Hother) as Ha.
  assert (w_status (list_where user (Some "DRAFT") authorId)
          = Some match user with Some _ => "DRAFT" | None => "PUBLISHED" end) as Hs.
  { destruct user as [u|]; [|apply where_anonymous].
    unfold list_where, spread. simpl.
    destruct (id_differs u authorId); by destruct (query_truthy authorId). }
  run_m. unfold reflection_findMany. rewrite Hs, Ha.
  destruct user as [u|]; simpl; (eexists; split; [reflexivity|]);
    intros r; rewrite elem_of_filter_rows; unfold matches;
    rewrite andb_true_iff, bool_decide_eq_true, String.eqb_eq; tauto.
Qed.

(** So such a listing is empty exactly in a store where no such row is
    authored by ["none"]. *)
Lemma closed_listing_empty (w : World) (user : option User)
  (authorId : option string) :
  (∀ u, user = Some u → authorId ≠ Some (user_id u)) →
  (∀ k r, reflections w !! k = Some r → r_authorId r ≠ "none") →
  run_handler (reflections_list user (Some "DRAFT") authorId) w
  = (c_json_ok (ReflectionsBody []), w).
Proof.
  intros Hother Hnone.
  destruct (closed_listing_rows w user authorId Hother) as (rs & -> & Hrs).
  destruct rs as [|r rs]; [done|]. exfalso.
  destruct (proj1 (Hrs r) (list_elem_of_here _ _)) as ([k Hk] & Ha & _).
  by apply (Hnone k r).
Qed.

End Listing.

(** ** Publication *)

Section Lifecycle.
Context {C : Collaborators}.

(** [PATCH /publish/:id] by the author always succeeds: status [PUBLISHED],
    [publishDate] the current time. *)
Lemma publish_by_owner (w : World) u id r now :
  reflections w !! id = Some r → r_authorId r = user_id u →
  ∃ r',
    run_handler (reflections_publish (Some u) id now) w
    = (c_json_ok (ReflectionBody r'),
       record (DbReflectionUpdate id) (set_reflections (insert id r') w)) ∧
    r_status r' = PUBLISHED ∧ r_publishDate r' = Some now ∧
    r_authorId r' = r_authorId r.
Proof.
  intros Hid Hown. run_m. rewrite Hid. simpl.
  rewrite Hown, String.eqb_refl. simpl.
  unfold reflection_update. rewrite Hid. simpl.
  eexists. split; [reflexivity|]. done.
Qed.

(** C4, as amended.  The author publishes [id] at time [t1] and again at
    [t2], whatever the row held before and whatever the two clock values
    are.  Both calls answer 200 with the stored row; after each the status is
    [PUBLISHED] and [publishDate] is the time of that call, never null.  The
    date differs from what it was before a call exactly when the stored date
    was not already the time of the call: for the second call, exactly when
    the clock has moved. *)
Theorem publish_restamps (w : World) (u : User) id r (t1 t2 : Z) :
  reflections w !! id = Some r → r_authorId r = user_id u →
  ∃ ra rb wa wb,
    run_handler (reflections_publish (Some u) id t1) w
    = (c_json_ok (ReflectionBody ra), wa) ∧
    run_handler (reflections_publish (Some u) id t2) wa
    = (c_json_ok (ReflectionBody rb), wb) ∧
    reflections wa !! id = Some ra ∧ reflections wb !! id = Some rb ∧
    r_status ra = PUBLISHED ∧ r_publishDate ra = Some t1 ∧
    r_status rb = PUBLISHED ∧ r_publishDate rb = Some t2 ∧
    (r_publishDate ra ≠ r_publishDate r ↔ r_publishDate r ≠ Some t1) ∧
    (r_publishDate rb ≠ r_publishDate ra ↔ t1 ≠ t2).
Proof.
  intros Hid Hown.
  destruct (publish_by_owner w u id r t1 Hid Hown) as (ra & Ha & Hsa & Hda & Hoa).
  set (wa := record (DbReflectionUpdate id) (set_reflections (insert id ra) w)) in *.
  assert (reflections wa !! id = Some ra) as Hida by apply lookup_insert_eq.
  destruct (publish_by_owner wa u id ra t2 Hida) as (rb & Hb & Hsb & Hdb & Hob);
    [congruence|].
  eexists ra, rb, wa, _. split_and!; try done.
  - apply lookup_insert_eq.
  - rewrite Hda. split; intros Hne Heq; by apply Hne.
  - rewrite Hda, Hdb. split; intros Hne Heq; apply Hne; congruence.
Qed.


End Lifecycle.

(** ** Slugs *)

Section Slugs.
Context {C : Collaborators}.

(** C7.  Two bodies with the same [title] field and no [slug]: once the first
    is created (201), creating the second is answered 400 and leaves the
    world, and with it the first reflection, as it was. *)
Theorem second_create_same_title_fails (w w1 : World) (u1 u2 : User)
  (f1 f2 : list (string * json)) (uuid1 uuid2 : string) (first : Reflection) :
  assoc "title" f1 = assoc "title" f2 →
  assoc "slug" f1 = None → assoc "slug" f2 = None →
  run_handler (reflections_create (Some u1) (Some (JObj f1)) uuid1) w
  = (c_json (ReflectionBody first) 201, w1) →
  run_handler (reflections_create (Some u2) (Some (JObj f2)) uuid2) w1
  = (c_json (ErrorBody "Failed to create reflection") 400, w1)
  ∧ reflections w1 !! uuid1 = Some first
  ∧ reflections (run_handler (reflections_create (Some u2) (Some (JObj f2)) uuid2) w1).2
      !! uuid1 = Some first.
Proof.
  intros Htitle Hs1 Hs2 Hfirst.
  assert (reflections w1 !! uuid1 = Some first
          ∧ ∃ v1, createReflectionSchema (JObj f1) = Some v1
                  ∧ r_slug first = createSlug (in_title v1)) as [Hrow (v1 & Hv1 & Hslug)].
  { unfold run_handler, reflections_create, requireAuth, try_catch, req_json,
      or_throw, throw, c_json in Hfirst.
    unfold mbind, M_bind, mret, M_ret in Hfirst.
    destruct (createReflectionSchema (JObj f1)) as [v1|] eqn:Hv1; [|by simplify_eq].
    match type of Hfirst with context [reflection_create ?d w] =>
      destruct (create_row_cases w d) as [[e He]|(r0 & He & Hfresh & Hsl & _)];
      rewrite He in Hfirst end; [by simplify_eq|].
    injection Hfirst as -> <-. split; [apply lookup_insert_eq|].
    exists v1. split; [done|]. rewrite Hsl. simpl.
    destruct (create_schema_title f1 v1 Hv1) as [_ Hnone].
    by rewrite (Hnone Hs1). }
  assert (run_handler (reflections_create (Some u2) (Some (JObj f2)) uuid2) w1
          = (c_json (ErrorBody "Failed to create reflection") 400, w1)) as Hsecond.
  { unfold run_handler, reflections_create, requireAuth, try_catch, req_json,
      or_throw, throw, c_json.
    unfold mbind, M_bind, mret, M_ret.
    destruct (createReflectionSchema (JObj f2)) as [v2|] eqn:Hv2; [|done].
    destruct (create_schema_title f1 v1 Hv1) as [Ht1 _].
    destruct (create_schema_title f2 v2 Hv2) as [Ht2 Hnone2].
    assert (in_title v2 = in_title v1) as Hsame by congruence.
    unfold reflection_create. cbn [c_publishDate c_id c_slug].
    destruct (coerce_date _); [|done].
    rewrite (Hnone2 Hs2). cbn [or_else]. rewrite Hsame.
    rewrite (slug_taken_intro (reflections w1) uuid1 first _ Hrow Hslug).
    by rewrite orb_true_r. }
  rewrite Hsecond. done.
Qed.

End Slugs.

(** ** Deleting an album *)

Lemma removed_tables keys w :
  reflections (removed keys w) = reflections w ∧
  images (removed keys w) = images w ∧
  albums (removed keys w) = albums w.
Proof.
  revert w. induction keys as [|k keys IH]; intros w; [done|]. simpl.
  destruct (IH (record (StorageRemove k) (set_bucket (λ b, b ∖ {[k]}) w)))
    as (-> & -> & ->). done.
Qed.

Lemma removed_effects keys w :
  effects (removed keys w) = (effects w ++ (StorageRemove <$> keys))%list.
Proof.
  revert w. induction keys as [|k keys IH]; intros w; simpl.
  - by rewrite app_nil_r.
  - rewrite IH. simpl. by rewrite <- app_assoc.
Qed.

Lemma removed_bucket keys w :
  bucket (removed keys w) = bucket w ∖ list_to_set keys.
Proof.
  revert w. induction keys as [|k keys IH]; intros w; simpl.
  - by rewrite difference_empty_L.
  - rewrite IH. simpl. by rewrite difference_difference_l_L.
Qed.

Section AlbumDelete.
Context {C : Collaborators}.
Variable remove_error : string → bool.

Lemma removal_loop_ok id imgs w :
  (∀ k, k ∈ removal_keys id imgs → remove_error k = false) →
  removal_loop remove_error id imgs w = (Ok tt, removed (removal_keys id imgs) w).
Proof.
  revert w. induction imgs as [|img imgs IH]; intros w Hok; [done|].
  unfold removal_loop, removal_keys in *. simpl in *.
  unfold mbind, M_bind at 1.
  destruct (truthy (split_pop "/" (i_url img))) eqn:Ht; simpl.
  - unfold deleteFile at 1. rewrite Hok by apply list_elem_of_here.
    apply IH. intros k Hk. apply Hok. by apply list_elem_of_further.
  - unfold mret, M_ret at 1. by apply IH.
Qed.

Lemma removal_loop_fails id imgs w :
  (∃ k, k ∈ removal_keys id imgs ∧ remove_error k = true) →
  ∃ done_keys,
    removal_loop remove_error id imgs w = (Throw StorageError, removed done_keys w).
Proof.
  revert w. induction imgs as [|img imgs IH]; intros w (k & Hk & Hfail).
  { by apply elem_of_nil in Hk. }
  unfold removal_loop, removal_keys in *. simpl in *.
  unfold mbind, M_bind at 1.
  destruct (truthy (split_pop "/" (i_url img))) eqn:Ht; simpl.
  - unfold deleteFile at 1.
    destruct (remove_error (id ++ "/" ++ split_pop "/" (i_url img))) eqn:He.
    { by exists []. }
    apply elem_of_cons in Hk as [->|Hk]; [congruence|].
    destruct (IH (record (StorageRemove (id ++ "/" ++ split_pop "/" (i_url img)))
                    (set_bucket (λ b, b ∖ {[id ++ "/" ++ split_pop "/" (i_url img)]}) w)))
      as [ks Hks]; [by eauto|].
    exists ((id ++ "/" ++ split_pop "/" (i_url img)) :: ks). by rewrite Hks.
  - unfold mret, M_ret at 1. apply IH. eauto.
Qed.

Lemma images_of_spec id (w : World) img :
  img ∈ images_of id w ↔ (∃ k, images w !! k = Some img) ∧ i_albumId img = id.
Proof.
  unfold images_of.
  rewrite list_elem_of_In, filter_In, <- list_elem_of_In, list_elem_of_fmap.
  split.
  - intros [([k i] & -> & Hin) Hf]. split.
    + exists k. by apply elem_of_map_to_list.
    + by apply String.eqb_eq.
  - intros [[k Hk] Hf]. split.
    + exists (k, img). split; [done|]. by apply elem_of_map_to_list.
    + by apply String.eqb_eq.
Qed.

(** The owner deletes album [id].  The route rebuilds one storage key from
    the URL of every image row that has a last segment.  If no removal
    fails, the answer is 200, the writes of the request are exactly the
    removals of these keys followed by the deletion of the album row, and
    afterwards neither the album, nor a row of its images, nor one of the
    keys is left.  If some removal fails, the answer is 400 and tables
    [albums] and [images] are as before: the album row is never deleted.
    Whether a rebuilt key is the key of the uploaded object is another
    matter: it is when neither the image id nor the file extension has a
    ["/"], and it need not be otherwise. *)
Lemma album_delete_removes_files_first (w : World) (u : User) id a :
  albums w !! id = Some a → a_uploadedById a = user_id u →
  (∀ k img, images w !! k = Some img → i_albumId img = id →
     truthy (split_pop "/" (i_url img)) = true →
     storage_key id img ∈ removal_keys id (images_of id w)) ∧
  ((∀ k, k ∈ removal_keys id (images_of id w) → remove_error k = false) →
     (run_handler (albums_delete remove_error (Some u) id) w).1
     = c_json_ok SuccessBody ∧
     effects (run_handler (albums_delete remove_error (Some u) id) w).2
     = (effects w ++ (StorageRemove <$> removal_keys id (images_of id w))
          ++ [DbAlbumDelete id])%list ∧
     albums (run_handler (albums_delete remove_error (Some u) id) w).2 !! id = None ∧
     (∀ k img,
        images (run_handler (albums_delete remove_error (Some u) id) w).2 !! k
        = Some img → i_albumId img ≠ id) ∧
     (∀ k, k ∈ removal_keys id (images_of id w) →
        k ∉ bucket (run_handler (albums_delete remove_error (Some u) id) w).2)) ∧
  ((∃ k, k ∈ removal_keys id (images_of id w) ∧ remove_error k = true) →
     (run_handler (albums_delete remove_error (Some u) id) w).1
     = c_json (ErrorBody "Failed to delete album") 400 ∧
     albums (run_handler (albums_delete remove_error (Some u) id) w).2 = albums w ∧
     images (run_handler (albums_delete remove_error (Some u) id) w).2 = images w ∧
     DbAlbumDelete id ∉
       drop (List.length (effects w))
         (effects (run_handler (albums_delete remove_error (Some u) id) w).2)).
Proof.
  intros Hid Hown.
  assert (∀ w1 : result unit * World,
            removal_loop remove_error id (images_of id w) w = w1 →
            run_handler (albums_delete remove_error (Some u) id) w
            = match w1 with
              | (Ok _, w2) =>
                  match album_delete id w2 with
                  | (Ok _, w3) => (c_json_ok SuccessBody, w3)
                  | (Throw _, w3) =>
                      (c_json (ErrorBody "Failed to delete album") 400, w3)
                  end
              | (Throw _, w2) =>
                  (c_json (ErrorBody "Failed to delete album") 400, w2)
              end) as Hrun.
  { intros w1 <-. unfold run_handler, albums_delete, requireAuth, try_catch,
      album_findUnique. unfold mbind, M_bind, mret, M_ret. rewrite Hid. simpl.
    rewrite Hown, String.eqb_refl. simpl. unfold removal_loop, mret, M_ret.
    destruct (for_of _ _ w) as [[[]|e] w2]; [|done].
    by destruct (album_delete id w2) as [[[]|e] w3]. }
  split_and!.
  - intros k img Hk Ha Ht. unfold removal_keys, storage_key.
    apply list_elem_of_omap. exists img. split.
    + apply images_of_spec. eauto.
    + simpl. by rewrite Ht.
  - intros Hok. rewrite (Hrun _ eq_refl), (removal_loop_ok _ _ _ Hok).
    destruct (removed_tables (removal_keys id (images_of id w)) w) as (Hr & Hi & Ha).
    unfold album_delete. rewrite Ha, Hid. simpl. split_and!.
    + done.
    + rewrite removed_effects. by rewrite <- app_assoc.
    + rewrite Ha. apply lookup_delete_eq.
    + intros k img [_ Hne]%map_lookup_filter_Some. done.
    + intros k Hk. rewrite removed_bucket, elem_of_difference, elem_of_list_to_set.
      by intros [_ ?].
  - intros Hbad. rewrite (Hrun _ eq_refl).
    destruct (removal_loop_fails id (images_of id w) w Hbad) as [ks ->].
    destruct (removed_tables ks w) as (Hr & Hi & Ha). split_and!; try done.
    simpl. rewrite removed_effects, drop_app_length.
    intros (k & [=] & _)%list_elem_of_fmap.
Qed.

End AlbumDelete.

(** ** Creating an album *)

Lemma pending_work_insert (ts : list Task) k t t' :
  ts !! k = Some t →
  (pending_work (<[k := t']> ts) + weight t = pending_work ts + weight t')%nat.
Proof.
  unfold pending_work. revert k. induction ts as [|x ts IH]; intros [|k] Hk; simplify_eq/=.
  - lia.
  - specialize (IH k Hk). lia.
Qed.

Lemma pending_work_bound ts : (pending_work ts ≤ 2 * List.length ts)%nat.
Proof.
  unfold pending_work. induction ts as [|t ts IH]; [simpl; lia|].
  rewrite fmap_cons, length_cons. change (sum_list (?x :: ?l)) with (x + sum_list l)%nat.
  destruct t; unfold weight at 1; lia.
Qed.

Lemma settled_fulfilled ts :
  (∀ t, t ∈ ts → settled t = true) → omap rejection ts = [] →
  is_Some (mapM fulfilment ts).
Proof.
  intros Hall Hrej. apply mapM_is_Some, Forall_forall. intros t Hin.
  specialize (Hall t Hin). destruct t as [| |i|e]; simplify_eq/=; [by eexists|].
  assert (e ∈ omap rejection ts) as He.
  { apply list_elem_of_omap. by exists (Rejected e). }
  rewrite Hrej in He. by apply elem_of_nil in He.
Qed.

Lemma all_settled_Promise_all ts :
  (∀ t, t ∈ ts → settled t = true) → is_Some (Promise_all ts).
Proof.
  intros Hall. unfold Promise_all.
  destruct (omap rejection ts) as [|e es] eqn:Hrej; [|by eexists].
  destruct (settled_fulfilled ts Hall Hrej) as [imgs ->]. by eexists.
Qed.

Lemma rejected_Promise_all ts k e :
  ts !! k = Some (Rejected e) →
  ∃ k' e', ts !! k' = Some (Rejected e') ∧ Promise_all ts = Some (Throw e').
Proof.
  intros Hk. unfold Promise_all.
  destruct (omap rejection ts) as [|e' es] eqn:Hrej.
  - assert (e ∈ omap rejection ts) as Hin.
    { apply list_elem_of_omap. exists (Rejected e). split; [|done].
      by eapply list_elem_of_lookup_2. }
    rewrite Hrej in Hin. by apply elem_of_nil in Hin.
  - assert (e' ∈ omap rejection ts) as Hin by (rewrite Hrej; apply list_elem_of_here).
    apply list_elem_of_omap in Hin as (t & Hin & Ht).
    destruct t; simplify_eq/=.
    apply list_elem_of_lookup in Hin as [k' Hk']. by exists k', e'.
Qed.

Section AlbumCreate.
Context {C : Collaborators}.

Variables (validated : AlbumInput) (album : Album) (user : User).

Lemma answer_cases a r r' :
  answer validated album user a r = Some r' →
  ∃ k t t',
    run_tasks r !! k = Some t ∧ run_tasks r' = <[k := t']> (run_tasks r) ∧
    ((a = UploadDone k ∧
      ∃ index file dbImageId filePath,
        t = Uploading index file dbImageId filePath ∧
        (filePath ∉ bucket (run_world r)) ∧
        run_world r' = record (StorageUpload filePath)
                         (set_bucket (λ b, b ∪ {[filePath]}) (run_world r)) ∧
        (t' = Rejected TypeError
         ∨ ∃ data, t' = Creating data
                   ∧ i_url data = getPublicUrl "albums" filePath)) ∨
     (a = UploadFailed k ∧ weight t = 2%nat ∧ t' = Rejected StorageError
      ∧ run_world r' = run_world r) ∨
     (a = InsertDone k ∧
      ∃ data, t = Creating data ∧ t' = Fulfilled data ∧
              images (run_world r) !! i_id data = None ∧
              run_world r' = record (DbImageCreate (i_id data))
                               (set_images (insert (i_id data) data) (run_world r))) ∨
     (a = InsertFailed k ∧ weight t = 1%nat ∧ t' = Rejected PrismaError
      ∧ run_world r' = run_world r)).
Proof.
  destruct r as [w ts]. unfold answer. simpl.
  destruct a as [k|k|k|k]; destruct (ts !! k) as [t|] eqn:Hk; try done;
    destruct t as [index file dbImageId filePath|data|data|e]; try done.
  - case_bool_decide as Hin; [done|]. intros [= <-]. simpl.
    eexists k, _, _. split_and!; [done..|]. left. split; [done|].
    eexists _, _, _, _. split_and!; [done..|].
    unfold image_data. destruct (al_images validated !! index); eauto.
  - intros [= <-]. simpl. eexists k, _, _. split_and!; [done..|].
    right; left. done.
  - case_bool_decide as Hin; [done|]. intros [= <-]. simpl.
    eexists k, _, _. split_and!; [done..|]. right; right; left.
    split; [done|]. eexists. split_and!; try done.
    destruct (images w !! i_id data) eqn:Hl; [|done]. destruct Hin. eauto.
  - intros [= <-]. simpl. eexists k, _, _. split_and!; [done..|].
    right; right; right. done.
Qed.

Lemma backed_upload w key img :
  backed w img →
  backed (record (StorageUpload key) (set_bucket (λ b, b ∪ {[key]}) w)) img.
Proof.
  intros (k & Hb & He & Hu). exists k. simpl. split_and!; [| |done].
  - apply elem_of_union. by left.
  - apply elem_of_app. by left.
Qed.

Lemma backed_insert w i data img :
  backed w img →
  backed (record (DbImageCreate i) (set_images (insert i data) w)) img.
Proof.
  intros (k & Hb & He & Hu). exists k. simpl. split_and!; [done| |done].
  apply elem_of_app. by left.
Qed.

Lemma answer_keeps_ok base a r r' :
  answer validated album user a r = Some r' → run_ok base r → run_ok base r'.
Proof.
  intros Ha [Ht Hr Hz].
  destruct (answer_cases a r r' Ha) as (k & t & t' & Hk & Hts & Hcase).
  destruct r' as [w' ts']. simpl in Hts, Hcase. subst ts'.
  destruct Hcase as [(-> & index & file & dbImageId & filePath & -> & Hfree & -> & Ht')
                    |[(-> & _ & -> & ->)
                    |[(-> & data & -> & -> & Hfresh & ->)
                     |(-> & _ & -> & ->)]]]; simpl.
  - split.
    + intros j tj dj [(<- & <- & _)|(Hne & Hj)]%list_lookup_insert_Some Hrow.
      * destruct Ht' as [->|(data & -> & Hurl)]; simplify_eq/=.
        exists filePath. simpl. split_and!; [| |done].
        -- apply elem_of_union. right. by apply elem_of_singleton.
        -- apply elem_of_app. right. apply list_elem_of_here.
      * apply backed_upload. eauto.
    + intros i img Hi. simpl in Hi. destruct (Hr i img Hi) as [?|?]; [by left|].
      right. by apply backed_upload.
    + intros j [(<- & Heq & _)|(Hne & Hj)]%list_lookup_insert_Some; [|by eapply Hz].
      destruct Ht' as [->|(data & -> & Hurl)]; simplify_eq.
  - split.
    + intros j tj dj [(<- & <- & _)|(Hne & Hj)]%list_lookup_insert_Some Hrow;
        [done|eauto].
    + done.
    + intros j [(<- & Heq & _)|(Hne & Hj)]%list_lookup_insert_Some; [done|by eapply Hz].
  - split.
    + intros j tj dj [(<- & <- & _)|(Hne & Hj)]%list_lookup_insert_Some Hrow.
      * simplify_eq/=. apply backed_insert. by eapply (Ht k (Creating dj)).
      * apply backed_insert. eauto.
    + intros i img Hi. simpl in Hi.
      apply lookup_insert_Some in Hi as [[<- <-]|[Hne Hi]].
      * right. apply backed_insert. by eapply (Ht k (Creating data)).
      * destruct (Hr i img Hi) as [?|?]; [by left|]. right. by apply backed_insert.
    + intros j [(<- & Heq & _)|(Hne & Hj)]%list_lookup_insert_Some; [done|by eapply Hz].
  - split.
    + intros j tj dj [(<- & <- & _)|(Hne & Hj)]%list_lookup_insert_Some Hrow;
        [done|eauto].
    + done.
    + intros j [(<- & Heq & _)|(Hne & Hj)]%list_lookup_insert_Some; [done|by eapply Hz].
Qed.

Lemma answers_keep_ok base sched r r' :
  answers validated album user sched r = Some r' → run_ok base r → run_ok base r'.
Proof.
  revert r. induction sched as [|a sched IH]; intros r Hrun Hok; simplify_eq/=; [done|].
  destruct (answer validated album user a r) as [r1|] eqn:Ha; [|done].
  eapply IH; [done|]. by eapply answer_keeps_ok.
Qed.

Lemma answer_work a r r' :
  answer validated album user a r = Some r' →
  (pending_work (run_tasks r') < pending_work (run_tasks r))%nat.
Proof.
  intros Ha.
  destruct (answer_cases a r r' Ha) as (k & t & t' & Hk & Hts & Hcase).
  pose proof (pending_work_insert (run_tasks r) k t t' Hk) as Hsum.
  rewrite <- Hts in Hsum.
  destruct Hcase as [(-> & index & file & dbImageId & filePath & -> & _ & _ & Ht')
                    |[(-> & Hwt & -> & _)
                    |[(-> & data & -> & -> & _)
                     |(-> & Hwt & -> & _)]]]; simpl in *; try lia.
  destruct Ht' as [->|(data & -> & _)]; simpl in *; lia.
Qed.

Lemma answers_work sched r r' :
  answers validated album user sched r = Some r' →
  (List.length sched + pending_work (run_tasks r') ≤ pending_work (run_tasks r))%nat.
Proof.
  revert r. induction sched as [|a sched IH]; intros r Hrun; simplify_eq/=; [lia|].
  destruct (answer validated album user a r) as [r1|] eqn:Ha; [|done].
  specialize (IH r1 Hrun). apply answer_work in Ha. lia.
Qed.

Lemma answer_keeps_rejected a r r' k e :
  answer validated album user a r = Some r' →
  run_tasks r !! k = Some (Rejected e) → run_tasks r' !! k = Some (Rejected e).
Proof.
  intros Ha Hk.
  destruct (answer_cases a r r' Ha) as (j & t & t' & Hj & Hts & Hcase).
  rewrite Hts. destruct (decide (j = k)) as [->|Hne];
    [|by rewrite list_lookup_insert_ne].
  rewrite Hk in Hj. injection Hj as <-.
  destruct Hcase as [(_ & index & file & dbImageId & filePath & ? & _)
                    |[(_ & ? & _)|[(_ & data & ? & _)|(_ & ? & _)]]]; done.
Qed.

Lemma answers_keep_rejected sched r r' k e :
  answers validated album user sched r = Some r' →
  run_tasks r !! k = Some (Rejected e) → run_tasks r' !! k = Some (Rejected e).
Proof.
  revert r. induction sched as [|a sched IH]; intros r Hrun Hk; simplify_eq/=; [done|].
  destruct (answer validated album user a r) as [r1|] eqn:Ha; [|done].
  eapply IH; [done|]. by eapply answer_keeps_rejected.
Qed.

Lemma failed_upload_rejects sched r r' k :
  answers validated album user sched r = Some r' →
  UploadFailed k ∈ sched →
  run_tasks r' !! k = Some (Rejected StorageError).
Proof.
  revert r. induction sched as [|a sched IH]; intros r Hrun Hin.
  { by apply elem_of_nil in Hin. }
  simpl in Hrun.
  destruct (answer validated album user a r) as [r1|] eqn:Ha; [|done].
  apply elem_of_cons in Hin as [<-|Hin]; [|by eapply IH].
  eapply answers_keep_rejected; [done|].
  destruct (answer_cases _ r r1 Ha) as (j & t & t' & Hj & Hts & Hcase).
  destruct Hcase as [([=] & _)|[([= <-] & _ & -> & _)|[([=] & _)|([=] & _)]]].
  rewrite Hts. apply list_lookup_insert_eq. by eapply lookup_lt_Some.
Qed.

Lemma insert_follows_upload sched r r' n k :
  answers validated album user sched r = Some r' →
  sched !! n = Some (InsertDone k) →
  (∃ data, run_tasks r !! k = Some (Creating data))
  ∨ ∃ m, (m < n)%nat ∧ sched !! m = Some (UploadDone k).
Proof.
  revert r n. induction sched as [|a sched IH]; intros r n Hrun Hn; [done|].
  simpl in Hrun.
  destruct (answer validated album user a r) as [r1|] eqn:Ha; [|done].
  destruct (answer_cases a r r1 Ha) as (j & t & t' & Hj & Hts & Hcase).
  destruct n as [|n]; simpl in Hn.
  - injection Hn as ->. left.
    destruct Hcase as [([=] & _)|[([=] & _)|[([= <-] & data & -> & _)|([=] & _)]]].
    eauto.
  - destruct (IH r1 n Hrun Hn) as [[data Hd]|(m & Hm & Hsm)].
    + rewrite Hts in Hd.
      apply list_lookup_insert_Some in Hd as [(<- & -> & _)|(Hne & Hd)]; [|by eauto].
      right. exists 0%nat. split; [lia|]. simpl.
      destruct Hcase as [(-> & _)|[(_ & _ & [=] & _)
                        |[(_ & data' & _ & [=] & _)|(_ & _ & [=] & _)]]]. done.
    + right. exists (S m). split; [lia|done].
Qed.

Lemma stuck_is_settled r :
  (∀ a, answer validated album user a r = None) →
  ∀ t, t ∈ run_tasks r → settled t = true.
Proof.
  intros Hstuck t [k Hk]%list_elem_of_lookup.
  destruct t as [index file dbImageId filePath|data| |]; try done.
  - specialize (Hstuck (UploadFailed k)). unfold answer in Hstuck.
    by rewrite Hk in Hstuck.
  - specialize (Hstuck (InsertFailed k)). unfold answer in Hstuck.
    by rewrite Hk in Hstuck.
Qed.

(** A [POST /create] that answers before any upload has started answers
    401 or 400 and has written nothing. *)
Lemma early_reply_writes_nothing (w w0 : World) usr formData albumUuid uuid resp :
  albums_create_begin usr formData albumUuid uuid w = (Ok (inl resp), w0) →
  w0 = w ∧ (res_status resp = 401 ∨ res_status resp = 400).
Proof.
  unfold albums_create_begin. destruct usr as [u0|]; [|intros [= <- <-]; auto].
  unfold try_catch, or_throw, throw. unfold mbind, M_bind, mret, M_ret.
  assert (∀ e, res_status (albums_create_catch e) = 400) as Hcatch by by intros [].
  destruct formData as [fd|]; [|intros [= <- <-]; auto].
  destruct (fd_albumData fd) as [albumDataJson|]; [|intros [= <- <-]; auto].
  destruct (negb (truthy albumDataJson)); [intros [= <- <-]; auto|].
  destruct (JSON_parse albumDataJson) as [albumData|]; [|intros [= <- <-]; auto].
  destruct (createAlbumSchema albumData) as [v|]; [|intros [= <- <-]; auto].
  case_bool_decide; [intros [= <- <-]; auto|].
  unfold album_create.
  destruct (Date_parse (al_date v)) as [d|]; [|intros [= <- <-]; auto].
  destruct (albums w !! albumUuid); [intros [= <- <-]; auto|done].
Qed.

(** When the uploads have started, table [images] is as it was and every
    task is waiting for its upload. *)
Lemma begin_running (w w0 : World) usr formData albumUuid uuid ts0 :
  albums_create_begin usr formData albumUuid uuid w
  = (Ok (inr (user, validated, album, ts0)), w0) →
  images w0 = images w ∧ ∀ k t, ts0 !! k = Some t → row_of t = None ∧ rejection t = None.
Proof.
  unfold albums_create_begin. destruct usr as [u0|]; [|done].
  unfold try_catch, or_throw, throw. unfold mbind, M_bind, mret, M_ret.
  destruct formData as [fd|]; [|done].
  destruct (fd_albumData fd) as [albumDataJson|]; [|done].
  destruct (negb (truthy albumDataJson)); [done|].
  destruct (JSON_parse albumDataJson) as [albumData|]; [|done].
  destruct (createAlbumSchema albumData) as [v|]; [|done].
  case_bool_decide; [done|].
  unfold album_create.
  destruct (Date_parse (al_date v)) as [d|]; [|done].
  destruct (albums w !! albumUuid); [done|].
  intros [= -> -> <- <- <-]. split; [done|].
  intros k t Hk. apply list_lookup_imap_Some in Hk as (file & _ & ->). done.
Qed.

(** C8.  A [POST /create] that got as far as starting its uploads, followed
    through any sequence of answers of the storage service and the database.
    An image row is inserted only after the upload of the same task has
    succeeded; every image row present that was not there before the
    request, and every image returned, has the public URL of an object that
    an upload put in the bucket; once an upload has failed the request is
    answered 400; when no task can move any more the request is answered;
    and no sequence is longer than two answers per file. *)
Theorem album_images_follow_uploads (w w0 : World) usr formData albumUuid uuid
  ts0 sched r :
  albums_create_begin usr formData albumUuid uuid w
  = (Ok (inr (user, validated, album, ts0)), w0) →
  answers validated album user sched {| run_world := w0; run_tasks := ts0 |}
  = Some r →
  (∀ n k, sched !! n = Some (InsertDone k) →
     ∃ m, (m < n)%nat ∧ sched !! m = Some (UploadDone k)) ∧
  (∀ i img, images (run_world r) !! i = Some img →
     images w !! i = Some img ∨ backed (run_world r) img) ∧
  (∀ k image, run_tasks r !! k = Some (Fulfilled image) →
     backed (run_world r) image) ∧
  (∀ k, UploadFailed k ∈ sched →
     albums_create_response album (run_tasks r)
     = Some (c_json (ErrorBody "Failed to create album") 400)) ∧
  ((∀ a, answer validated album user a r = None) →
     is_Some (albums_create_response album (run_tasks r))) ∧
  (List.length sched ≤ 2 * List.length ts0)%nat.
Proof.
  intros Hbegin Hrun.
  destruct (begin_running _ _ _ _ _ _ _ Hbegin) as [Himgs Hfresh].
  assert (run_ok (images w) {| run_world := w0; run_tasks := ts0 |}) as Hok0.
  { split; simpl.
    - intros k t data Hk Hrow. destruct (Hfresh k t Hk) as [Hnone _]. congruence.
    - intros i img Hi. left. by rewrite <- Himgs.
    - intros k Hk. by destruct (Hfresh k _ Hk) as [_ ?]. }
  pose proof (answers_keep_ok _ _ _ _ Hrun Hok0) as [Ht Hr Hz].
  split_and!.
  - intros n k Hn.
    destruct (insert_follows_upload _ _ _ n k Hrun Hn) as [[data Hd]|?]; [|done].
    simpl in Hd. by destruct (Hfresh k _ Hd).
  - done.
  - intros k image Hk. by eapply (Ht k (Fulfilled image)).
  - intros k Hin. pose proof (failed_upload_rejects _ _ _ k Hrun Hin) as Hk.
    destruct (rejected_Promise_all _ _ _ Hk) as (k' & e' & Hk' & Hall).
    unfold albums_create_response. rewrite Hall.
    destruct e'; try done. by destruct (Hz k').
  - intros Hstuck. unfold albums_create_response.
    destruct (all_settled_Promise_all (run_tasks r)) as [[imgs|e] ->]; [|by eexists..].
    by apply stuck_is_settled.
  - pose proof (answers_work _ _ _ Hrun) as Hwork. simpl in Hwork.
    pose proof (pending_work_bound ts0). lia.
Qed.

End AlbumCreate.

(** ** Slugs: what [createSlug] returns *)

Ltac all_ascii :=
  intros [[] [] [] [] [] [] [] []]; vm_compute;
  first [reflexivity | (intros; first [discriminate | repeat split; reflexivity])].


Lemma lower_word_slug c : is_word (lower_char c) = true → slug_char (lower_char c) = true.
Proof. revert c. all_ascii. Qed.

Lemma slug_char_fixed c :
  slug_char c = true →
  lower_char c = c ∧ is_space c = false ∧ not_word_or_hyphen c = false.
Proof. revert c. all_ascii. Qed.


Lemma flush_run_elem min rep run c :
  c ∈ flush_run min rep run → c ∈ rep ∨ c ∈ run.
Proof.
  unfold flush_run. destruct run as [|a run]; [by intros ?%elem_of_nil|].
  destruct (min <=? _)%nat; auto.
Qed.

Lemma replace_runs_elem p min rep run s c :
  c ∈ replace_runs p min rep run s → c ∈ rep ∨ c ∈ run ∨ c ∈ s.
Proof.
  revert run. induction s as [|a s IH]; intros run; simpl.
  - intros [?|?]%flush_run_elem; auto.
  - destruct (p a).
    + intros Hin. apply IH in Hin as [?|[Hin|?]]; auto.
      * apply elem_of_app in Hin as [?|Hin]; auto.
        apply list_elem_of_singleton in Hin as ->. right; right. by constructor.
      * right; right. by constructor.
    + intros Hin. apply elem_of_app in Hin as [Hin|Hin].
      * apply flush_run_elem in Hin as [?|?]; auto.
      * apply elem_of_cons in Hin as [->|Hin]; [right; right; by constructor|].
        apply IH in Hin as [?|[Hin|?]]; auto; [by apply elem_of_nil in Hin|].
        right; right. by constructor.
Qed.


Lemma replace_runs_id p min rep s :
  Forall (λ c, p c = false) s → replace_runs p min rep [] s = s.
Proof.
  induction 1 as [|a s Ha _ IH]; [done|]. simpl. by rewrite Ha, IH.
Qed.

Lemma trim_start_split p s :
  ∃ pre, s = (pre ++ trim_start p s)%list ∧ Forall (λ c, p c = true) pre.
Proof.
  induction s as [|a s (pre & Hs & Hpre)]; [by exists []|]. simpl.
  destruct (p a) eqn:Ha.
  - exists (a :: pre). split; [by rewrite Hs at 1|by constructor].
  - by exists [].
Qed.

Lemma trim_start_head p s c : head (trim_start p s) = Some c → p c = false.
Proof.
  induction s as [|a s IH]; [done|]. simpl. destruct (p a) eqn:Ha; [done|].
  by intros [= <-].
Qed.

Lemma trim_start_id p s :
  (∀ c, head s = Some c → p c = false) → trim_start p s = s.
Proof. destruct s as [|a s]; [done|]. intros H. simpl. by rewrite (H a). Qed.

Lemma trim_end_split p s :
  ∃ post, s = (trim_end p s ++ post)%list ∧ Forall (λ c, p c = true) post.
Proof.
  unfold trim_end. destruct (trim_start_split p (rev s)) as (pre & Hs & Hpre).
  exists (rev pre). split.
  - rewrite <- rev_app_distr, <- Hs. by rewrite rev_involutive.
  - by apply Forall_rev.
Qed.

Lemma last_rev_head {A} (l : list A) : last (rev l) = head l.
Proof. destruct l as [|a l]; [done|]. simpl. by rewrite last_snoc. Qed.

Lemma trim_end_last p s c : last (trim_end p s) = Some c → p c = false.
Proof. unfold trim_end. rewrite last_rev_head. apply trim_start_head. Qed.

Lemma trim_end_id p s :
  (∀ c, last s = Some c → p c = false) → trim_end p s = s.
Proof.
  intros H. unfold trim_end. rewrite trim_start_id; [apply rev_involutive|].
  intros c Hc. apply H. pose proof (last_rev_head (rev s)) as E.
  rewrite rev_involutive in E. by rewrite E.
Qed.

Lemma no_double_tail a s : no_double (a :: s) = true → no_double s = true.
Proof. destruct s as [|b s]; [done|]. simpl. by intros [_ ?]%andb_prop. Qed.

Lemma no_double_app_r s1 s2 : no_double (s1 ++ s2) = true → no_double s2 = true.
Proof. induction s1 as [|a s1 IH]; [done|]. intros H%no_double_tail. by apply IH. Qed.

Lemma no_double_app_l s1 s2 : no_double (s1 ++ s2) = true → no_double s1 = true.
Proof.
  induction s1 as [|a s1 IH]; [done|]. destruct s1 as [|b s1]; [done|].
  simpl. intros [-> H]%andb_prop. by apply IH.
Qed.

Lemma no_double_cons a s :
  no_double s = true →
  (is_hyphen a = false ∨ ∀ b, head s = Some b → is_hyphen b = false) →
  no_double (a :: s) = true.
Proof.
  destruct s as [|b s]; [done|]. intros Hs Hab.
  change (negb (is_hyphen a && is_hyphen b) && no_double (b :: s) = true).
  rewrite Hs, andb_true_r. destruct Hab as [->|Hb]; [done|].
  by rewrite (Hb b eq_refl), andb_false_r.
Qed.

Lemma collapse_no_double run s :
  Forall (λ c, is_hyphen c = true) run →
  no_double (replace_runs is_hyphen 2 hyphen run s) = true.
Proof.
  revert run. induction s as [|a s IH]; intros run Hrun; simpl.
  - unfold flush_run. destruct run as [|x [|y run]]; done.
  - destruct (is_hyphen a) eqn:Ha.
    + apply IH. apply Forall_app. split; [done|]. by repeat constructor.
    + assert (no_double (a :: replace_runs is_hyphen 2 hyphen [] s) = true) as Hrest.
      { apply no_double_cons; [by apply IH|by left]. }
      unfold flush_run. destruct run as [|x [|y run]]; simpl app; [done|..].
      * apply no_double_cons; [done|]. right. by intros b [= <-].
      * change (no_double ("-"%char :: a :: replace_runs is_hyphen 2 hyphen [] s) = true).
        apply no_double_cons; [done|]. right. by intros b [= <-].
Qed.

Lemma collapse_id run s :
  no_double (run ++ s) = true → (List.length run ≤ 1)%nat →
  Forall (λ c, is_hyphen c = true) run →
  replace_runs is_hyphen 2 hyphen run s = (run ++ s)%list.
Proof.
  revert run. induction s as [|a s IH]; intros run Hnd Hlen Hrun; simpl.
  - rewrite app_nil_r. destruct run as [|x [|y run]]; simpl in *; [done..|lia].
  - destruct (is_hyphen a) eqn:Ha.
    + destruct run as [|x [|y run]]; simpl in *; [| |lia].
      * by rewrite (IH [a]); [| |simpl; lia|repeat constructor].
      * apply Forall_cons in Hrun as [Hx _]. by rewrite Hx, Ha in Hnd.
    + rewrite (IH []); [|by apply no_double_app_r in Hnd; apply no_double_tail in Hnd
                        |simpl; lia|done].
      destruct run as [|x [|y run]]; simpl in *; [done..|lia].
Qed.

Lemma is_hyphen_spec c : is_hyphen c = true ↔ c = "-"%char.
Proof.
  split; [|by intros ->]. revert c.
  intros [[] [] [] [] [] [] [] []]; vm_compute; first [reflexivity | discriminate].
Qed.

Lemma no_double_infix s l1 l2 :
  no_double s = true → s ≠ (l1 ++ "-"%char :: "-"%char :: l2)%list.
Proof.
  intros Hs ->. by apply no_double_app_r in Hs.
Qed.

Lemma flush_remove run : flush_run 1 [] run = [].
Proof. by destruct run. Qed.

Lemma remove_runs_elem p run s c :
  c ∈ replace_runs p 1 [] run s → p c = false ∧ c ∈ s.
Proof.
  revert run. induction s as [|a s IH]; intros run; simpl.
  - rewrite flush_remove. by intros ?%elem_of_nil.
  - destruct (p a) eqn:Ha.
    + intros [? ?]%IH. split; [done|by constructor].
    + rewrite flush_remove. simpl. intros [->|Hin]%elem_of_cons.
      * split; [done|by constructor].
      * apply IH in Hin as [? ?]. split; [done|by constructor].
Qed.

Lemma createSlug_chars_shaped text : slug_shaped (createSlug_chars text).
Proof.
  unfold createSlug_chars.
  set (s1 := toLowerCase text).
  set (s2 := replace_all is_space 1 hyphen s1).
  set (s3 := replace_all not_word_or_hyphen 1 [] s2).
  set (s4 := replace_all is_hyphen 2 hyphen s3).
  set (s5 := trim_start is_hyphen s4).
  assert (∀ c, c ∈ s4 → slug_char c = true) as Hchars.
  { intros c [Hc|[Hc|Hc]]%replace_runs_elem.
    - apply list_elem_of_singleton in Hc as ->. done.
    - by apply elem_of_nil in Hc.
    - apply remove_runs_elem in Hc as [Hkeep Hc2].
      apply replace_runs_elem in Hc2 as [Hc2|[Hc2|Hc2]].
      + apply list_elem_of_singleton in Hc2 as ->. done.
      + by apply elem_of_nil in Hc2.
      + apply list_elem_of_fmap in Hc2 as (c0 & -> & _).
        unfold not_word_or_hyphen in Hkeep. apply negb_false_iff, orb_prop in Hkeep.
        destruct Hkeep as [Hw|Hh]; [by apply lower_word_slug|].
        unfold slug_char. by rewrite Hh, !orb_true_r. }
  assert (no_double s4 = true) as Hnd by by apply collapse_no_double.
  destruct (trim_start_split is_hyphen s4) as (pre & H4 & _). fold s5 in H4.
  destruct (trim_end_split is_hyphen s5) as (post & H5 & _).
  assert (∀ c, c ∈ trim_end is_hyphen s5 → c ∈ s4) as Hsub.
  { intros c Hc. rewrite H4, H5. apply elem_of_app. right. apply elem_of_app. by left. }
  split_and!.
  - apply Forall_forall. intros c Hc. by apply Hchars, Hsub.
  - rewrite H4, H5 in Hnd. by apply no_double_app_r, no_double_app_l in Hnd.
  - intros c Hc. apply (trim_start_head is_hyphen s4). fold s5. rewrite H5.
    destruct (trim_end is_hyphen s5); [done|]. done.
  - apply trim_end_last.
Qed.

Lemma createSlug_chars_fixed s : slug_shaped s → createSlug_chars s = s.
Proof.
  intros (Hchars & Hnd & Hhead & Hlast). unfold createSlug_chars.
  assert (toLowerCase s = s) as ->.
  { unfold toLowerCase. clear -Hchars.
    induction Hchars as [|c s Hc _ IH]; [done|]. simpl.
    destruct (slug_char_fixed c Hc) as (-> & _). by rewrite IH. }
  unfold replace_all.
  rewrite (replace_runs_id is_space 1 hyphen s);
    [|eapply Forall_impl; [exact Hchars|]; intros c Hc;
      by destruct (slug_char_fixed c Hc) as (_ & ? & _)].
  rewrite (replace_runs_id not_word_or_hyphen 1 [] s);
    [|eapply Forall_impl; [exact Hchars|]; intros c Hc;
      by destruct (slug_char_fixed c Hc) as (_ & _ & ?)].
  rewrite (collapse_id [] s); [|done|simpl; lia|done]. simpl.
  rewrite trim_start_id by done. by apply trim_end_id.
Qed.

(** Whatever the text, the slug consists of lower-case letters, digits,
    underscores and hyphens only, has no two hyphens in a row, and neither
    starts nor ends with a hyphen. *)
Theorem createSlug_shape (text : string) :
  Forall (λ c, slug_char c = true) (list_ascii_of_string (createSlug text)) ∧
  (∀ l1 l2, list_ascii_of_string (createSlug text)
            ≠ (l1 ++ "-"%char :: "-"%char :: l2)%list) ∧
  head (list_ascii_of_string (createSlug text)) ≠ Some "-"%char ∧
  last (list_ascii_of_string (createSlug text)) ≠ Some "-"%char.
Proof.
  unfold createSlug. rewrite list_ascii_of_string_of_list_ascii.
  destruct (createSlug_chars_shaped (list_ascii_of_string text))
    as (Hchars & Hnd & Hhead & Hlast).
  split_and!; [done| |intros H; by apply Hhead in H|intros H; by apply Hlast in H].
  intros l1 l2. by apply no_double_infix.
Qed.

(** A slug is its own slug: [createSlug] applied twice gives what it gives
    once. *)
Theorem createSlug_idempotent (text : string) :
  createSlug (createSlug text) = createSlug text.
Proof.
  unfold createSlug. rewrite list_ascii_of_string_of_list_ascii.
  f_equal. apply createSlug_chars_fixed, createSlug_chars_shaped.
Qed.


(** ** The reflection routes beyond their authorization *)

Lemma slug_taken_false (m : gmap string Reflection) s ex k r :
  slug_taken s ex m = false → m !! k = Some r → r_slug r = s → ex = Some k.
Proof.
  intros Hfree Hk Hs. unfold slug_taken in Hfree.
  destruct (decide (ex = Some k)) as [|Hne]; [done|exfalso].
  assert (existsb (λ kr : string * Reflection,
             String.eqb (r_slug kr.2) s && negb (bool_decide (Some kr.1 = ex)))
            (map_to_list m) = true) as Htrue; [|congruence].
  apply existsb_exists. exists (k, r). split.
  - apply list_elem_of_In. by apply elem_of_map_to_list.
  - simpl. rewrite Hs, String.eqb_refl. simpl.
    rewrite bool_decide_eq_false_2; [done|congruence].
Qed.

Lemma slug_taken_other (m : gmap string Reflection) k r s id :
  m !! k = Some r → r_slug r = s → k ≠ id → slug_taken s (Some id) m = true.
Proof.
  intros Hk Hs Hne. unfold slug_taken. apply existsb_exists. exists (k, r). split.
  - apply list_elem_of_In. by apply elem_of_map_to_list.
  - simpl. rewrite Hs, String.eqb_refl. simpl.
    rewrite bool_decide_eq_false_2; [done|congruence].
Qed.

Lemma partial_schema_slug f v s :
  createReflectionSchema_partial (JObj f) = Some v →
  assoc "slug" f = Some (JStr s) → up_slug v = Some s.
Proof.
  simpl. intros Hv Hs. rewrite Hs in Hv. simplify_option_eq.
  repeat case_match; by simplify_eq/=.
Qed.

Lemma partial_schema_empty f :
  (∀ k, k ∈ ["title"; "content"; "slug"; "status"; "featuredImageId"; "tags";
             "publishDate"] → assoc k f = None) →
  createReflectionSchema_partial (JObj f)
  = Some {| up_title := None; up_content := None; up_slug := None;
            up_status := None; up_featuredImageId := None; up_tags := None;
            up_publishDate := None |}.
Proof.
  intros Hnone. simpl.
  rewrite !Hnone by (repeat first [apply list_elem_of_here | apply list_elem_of_further]).
  reflexivity.
Qed.

Lemma status_of_string_Some s st :
  status_of_string s = Some st →
  (s = "DRAFT" ∧ st = DRAFT) ∨ (s = "PUBLISHED" ∧ st = PUBLISHED).
Proof.
  unfold status_of_string. destruct (String.eqb_spec s "DRAFT"); [intros [= <-]; auto|].
  destruct (String.eqb_spec s "PUBLISHED"); [intros [= <-]; auto|done].
Qed.

Section ReflectionRoutes.
Context {C : Collaborators}.

Lemma create_row_full (w : World) d :
  (∃ e, reflection_create d w = (Throw e, w)) ∨
  (reflection_create d w
   = (Ok {| r_id := c_id d; r_title := c_title d; r_content := c_content d;
            r_publishDate := default None (coerce_date (c_publishDate d));
            r_slug := c_slug d; r_status := c_status d;
            r_authorId := c_authorId d;
            r_featuredImageId := c_featuredImageId d;
            r_tags := default [] (c_tags d) |},
      record (DbReflectionCreate (c_id d))
        (set_reflections (insert (c_id d)
           {| r_id := c_id d; r_title := c_title d; r_content := c_content d;
              r_publishDate := default None (coerce_date (c_publishDate d));
              r_slug := c_slug d; r_status := c_status d;
              r_authorId := c_authorId d;
              r_featuredImageId := c_featuredImageId d;
              r_tags := default [] (c_tags d) |}) w)) ∧
   reflections w !! c_id d = None ∧
   slug_taken (c_slug d) None (reflections w) = false ∧
   featured_ok (c_featuredImageId d) w = true).
Proof.
  unfold reflection_create.
  destruct (coerce_date (c_publishDate d)) as [pd|]; [|left; by exists PrismaError].
  destruct (reflections w !! c_id d) as [r|] eqn:Hid.
  { left. exists PrismaError. by rewrite bool_decide_eq_true_2 by eauto. }
  rewrite bool_decide_eq_false_2 by by intros [? ?]. simpl.
  destruct (slug_taken _ _ _); [left; by exists PrismaError|].
  destruct (featured_ok _ _); [|left; by exists PrismaError].
  simpl. destruct (tags_ok _ _); [|left; by exists PrismaError].
  right. done.
Qed.

Lemma update_row_full (w : World) id d :
  (∃ e, reflection_update id d w = (Throw e, w)) ∨
  (∃ r pd,
     reflections w !! id = Some r ∧ coerce_date (d_publishDate d) = Some pd ∧
     (∀ s, d_slug d = Some s → slug_taken s (Some id) (reflections w) = false) ∧
     featured_ok (d_featuredImageId d) w = true ∧
     let r' := {| r_id := r_id r;
                  r_title := default (r_title r) (d_title d);
                  r_content := default (r_content r) (d_content d);
                  r_publishDate := match pd with Some t => Some t | None => r_publishDate r end;
                  r_slug := default (r_slug r) (d_slug d);
                  r_status := default (r_status r) (d_status d);
                  r_authorId := r_authorId r;
                  r_featuredImageId :=
                    match d_featuredImageId d with
                    | Some i => Some i
                    | None => r_featuredImageId r
                    end;
                  r_tags := default (r_tags r) (d_tags d) |} in
     reflection_update id d w
     = (Ok r', record (DbReflectionUpdate id) (set_reflections (insert id r') w))).
Proof.
  unfold reflection_update.
  destruct (reflections w !! id) as [r|] eqn:Hid; [|left; by exists PrismaError].
  destruct (coerce_date (d_publishDate d)) as [pd|]; [|left; by exists PrismaError].
  destruct (match d_slug d with Some s => _ | None => false end) eqn:Hslug;
    [left; by exists PrismaError|].
  simpl. destruct (featured_ok _ _); [|left; by exists PrismaError].
  simpl. destruct (tags_ok _ _); [|left; by exists PrismaError].
  right. exists r, pd. split_and!; try done.
  intros s Hs. by rewrite Hs in Hslug.
Qed.

Lemma create_schema_fields body v :
  createReflectionSchema body = Some v →
  ∃ f, body = JObj f ∧
       assoc "title" f = Some (JStr (in_title v)) ∧
       (∀ x, or_else (in_slug v) x
             = match assoc "slug" f with Some (JStr s) => s | _ => x end) ∧
       (assoc "status" f = None → in_status v = DRAFT) ∧
       (∀ s, assoc "status" f = Some (JStr s) →
             status_of_string s = Some (in_status v)) ∧
       (assoc "publishDate" f = None → in_publishDate v = None).
Proof.
  destruct body as [| | | | |f]; try done. simpl. intros Hv. exists f.
  split; [done|]. simplify_option_eq.
  destruct (assoc "title" f) as [[| | |t| |]|]; simplify_eq/=.
  case_match; simplify_eq/=.
  split_and!; try done.
  - intros x. destruct (assoc "slug" f) as [[| | |sl| |]|]; simplify_eq/=; [|done].
    destruct sl as [|a sl]; by simplify_eq/=.
  - intros Hnone. rewrite Hnone in *. by simplify_eq/=.
  - intros s0 Hs0. rewrite Hs0 in *. by simplify_eq/=.
  - intros Hnone. rewrite Hnone in *. by simplify_eq/=.
Qed.

(** [POST /create] has three outcomes.  Anonymous: 401, nothing written.
    Refused (no JSON, a body the schema rejects, or a row the table rejects):
    400, nothing written.  Accepted: 201 with the stored row, written under
    the fresh id; its author is the caller, whatever the body says; its slug
    is the one of the body when that is a string and [createSlug] of the
    title otherwise; an absent status is stored as [DRAFT], and an absent
    [publishDate] as null. *)
Theorem create_outcome (w : World) (user : option User) (body : option json)
  (uuid : string) :
  (user = None ∧
   run_handler (reflections_create user body uuid) w
   = (c_json (ErrorBody "Unauthorized") 401, w)) ∨
  (user ≠ None ∧
   run_handler (reflections_create user body uuid) w
   = (c_json (ErrorBody "Failed to create reflection") 400, w)) ∨
  (∃ u f r,
     user = Some u ∧ body = Some (JObj f) ∧
     run_handler (reflections_create user body uuid) w
     = (c_json (ReflectionBody r) 201,
        record (DbReflectionCreate uuid) (set_reflections (insert uuid r) w)) ∧
     reflections w !! uuid = None ∧
     r_id r = uuid ∧ r_authorId r = user_id u ∧
     assoc "title" f = Some (JStr (r_title r)) ∧
     r_slug r = match assoc "slug" f with
                | Some (JStr s) => s
                | _ => createSlug (r_title r)
                end ∧
     (assoc "status" f = None → r_status r = DRAFT) ∧
     (∀ s, assoc "status" f = Some (JStr s) → status_of_string s = Some (r_status r)) ∧
     (assoc "publishDate" f = None → r_publishDate r = None)).
Proof.
  destruct user as [u|]; [right|by left].
  unfold run_handler, reflections_create, requireAuth, try_catch, req_json, or_throw,
    throw, c_json. unfold mbind, M_bind, mret, M_ret.
  destruct body as [b|]; [|by left].
  destruct (createReflectionSchema b) as [v|] eqn:Hv; [|by left].
  destruct (create_schema_fields b v Hv) as (f & -> & Ht & Hslug & Hdef & Hst & Hpd).
  match goal with |- context [reflection_create ?d w] =>
    destruct (create_row_full w d) as [[e ->]|(-> & Hfresh & _)] end; [by left|].
  right. eexists u, f, _. split_and!; try done.
  - simpl. apply Hslug.
  - simpl. intros Hnone. by rewrite (Hpd Hnone).
Qed.

(** The author deletes a reflection: the answer is 200, the row is gone and
    nothing else is, and from then on [GET /get/:id] answers 404
    ["Reflection not found"] to every reader, the former author included. *)
Theorem delete_then_get (w : World) (u : User) id r (reader : option User) :
  reflections w !! id = Some r → r_authorId r = user_id u →
  (run_handler (reflections_delete (Some u) id) w).1 = c_json SuccessBody 200 ∧
  reflections (run_handler (reflections_delete (Some u) id) w).2
  = delete id (reflections w) ∧
  run_handler (reflections_get reader id)
    (run_handler (reflections_delete (Some u) id) w).2
  = (c_json (ErrorBody "Reflection not found") 404,
     (run_handler (reflections_delete (Some u) id) w).2).
Proof.
  intros Hid Hown.
  assert (run_handler (reflections_delete (Some u) id) w
          = (c_json SuccessBody 200,
             record (DbReflectionDelete id) (set_reflections (delete id) w))) as ->.
  { unfold run_handler, reflections_delete, requireAuth, try_catch,
      reflection_findUnique, reflection_delete. unfold mbind, M_bind, mret, M_ret.
    rewrite Hid. simpl. rewrite Hown, String.eqb_refl. simpl. by rewrite Hid. }
  split_and!; [done..|]. apply get_missing. simpl. apply lookup_delete_eq.
Qed.

(** No call of a reflection route, by anyone and with any arguments, breaks
    the shape of the table: a row stays under its own [id], and no two rows
    share a slug. *)
Theorem routes_keep_store_ok (w : World) (user : option User) (call : Call) :
  store_ok (reflections w) →
  store_ok (reflections (run_handler (route user call) w).2).
Proof.
  intros [Hkey Hslug].
  assert (∀ id r', (∃ r, reflections w !! id = Some r ∧ r_id r' = r_id r) →
            (∀ k r0, reflections w !! k = Some r0 → r_slug r0 = r_slug r' → k = id) →
            store_ok (<[id := r']> (reflections w))) as Hput.
  { intros id r' (r & Hid & Hrid) Hfree. split.
    - intros k r0 [[<- <-]|[Hne Hk]]%lookup_insert_Some; [|by apply Hkey].
      rewrite Hrid. by apply Hkey.
    - intros k1 k2 ra rb [[<- <-]|[Hne1 Hk1]]%lookup_insert_Some
        [[<- <-]|[Hne2 Hk2]]%lookup_insert_Some Heq; [done| | |by eapply Hslug].
      + symmetry. by eapply Hfree.
      + by eapply Hfree. }
  destruct call as [body uuid|st au|id|id body|id|id now];
    unfold run_handler, route, reflections_get, reflections_list, reflections_create,
      reflections_update, reflections_delete, reflections_publish, requireAuth,
      try_catch, req_json, or_throw, throw, reflection_findUnique, c_json_ok, c_json;
    unfold mbind, M_bind, mret, M_ret.
  - destruct user as [u|]; [|done]. destruct body as [b|]; [|done].
    destruct (createReflectionSchema b) as [v|]; [|done].
    match goal with |- context [reflection_create ?d w] =>
      destruct (create_row_full w d) as [[e ->]|(-> & Hfresh & Hfree & _)] end; [done|].
    simpl in *. split.
    + intros k r0 [[<- <-]|[Hne Hk]]%lookup_insert_Some; [done|by apply Hkey].
    + intros k1 k2 ra rb [[<- <-]|[Hne1 Hk1]]%lookup_insert_Some
        [[<- <-]|[Hne2 Hk2]]%lookup_insert_Some Heq; [done| | |by eapply Hslug].
      * by pose proof (slug_taken_false _ _ _ _ _ Hfree Hk2 (eq_sym Heq)).
      * by pose proof (slug_taken_false _ _ _ _ _ Hfree Hk1 Heq).
  - unfold reflection_findMany. repeat case_match; by simplify_eq/=.
  - repeat case_match; by simplify_eq/=.
  - destruct user as [u|]; [|done]. destruct body as [b|]; [|done].
    destruct (reflections w !! id) as [r|] eqn:Hid; [|done].
    destruct (negb _); [done|].
    destruct (createReflectionSchema_partial b) as [v|]; [|done].
    match goal with |- context [reflection_update id ?d w] =>
      destruct (update_row_full w id d) as [[e ->]|(r0 & pd & Hr0 & _ & Hfree & _ & ->)]
    end; [done|].
    simpl in *. apply Hput; [by eauto|].
    intros k r1 Hk Heq. destruct (up_slug v) as [s|] eqn:Hs; simpl in *.
    + pose proof (slug_taken_false _ _ _ _ _ (Hfree s eq_refl) Hk Heq). congruence.
    + by eapply Hslug.
  - destruct user as [u|]; [|done].
    destruct (reflections w !! id) as [r|] eqn:Hid; [|done].
    destruct (negb _); [done|]. unfold reflection_delete. rewrite Hid. simpl. split.
    + intros k r0 [_ Hk]%lookup_delete_Some. by apply Hkey.
    + intros k1 k2 ra rb [_ Hk1]%lookup_delete_Some [_ Hk2]%lookup_delete_Some.
      by eapply Hslug.
  - destruct user as [u|]; [|done].
    destruct (reflections w !! id) as [r|] eqn:Hid; [|done].
    destruct (negb _); [done|].
    match goal with |- context [reflection_update id ?d w] =>
      destruct (update_row_full w id d) as [[e ->]|(r0 & pd & Hr0 & _ & Hfree & _ & ->)]
    end; [done|].
    simpl in *. apply Hput; [by eauto|].
    intros k r1 Hk Heq. by eapply Hslug.
Qed.

(** [PUT /update/:id] by the author with a body that has none of the fields
    of the schema answers 200 with the stored row and leaves the table as it
    was: unknown fields are dropped, not written. *)
Theorem update_without_fields (w : World) (u : User) id r f :
  reflections w !! id = Some r → r_authorId r = user_id u →
  (∀ k, k ∈ ["title"; "content"; "slug"; "status"; "featuredImageId"; "tags";
             "publishDate"] → assoc k f = None) →
  (run_handler (reflections_update (Some u) id (Some (JObj f))) w).1
  = c_json_ok (ReflectionBody r) ∧
  reflections (run_handler (reflections_update (Some u) id (Some (JObj f))) w).2
  = reflections w.
Proof.
  intros Hid Hown Hnone.
  unfold run_handler, reflections_update, requireAuth, try_catch, req_json, or_throw,
    throw, reflection_findUnique, c_json_ok, c_json. unfold mbind, M_bind, mret, M_ret.
  rewrite Hid. cbn [negb]. rewrite Hown, String.eqb_refl. cbn [negb].
  rewrite (partial_schema_empty f Hnone).
  unfold reflection_update. rewrite Hid. simpl.
  destruct r; simpl. split; [done|]. by apply insert_id.
Qed.

(** [PUT /update/:id] moving a reflection to the slug of another row is
    answered 400 and writes nothing. *)
Theorem update_to_taken_slug (w : World) (u : User) id r other held f :
  reflections w !! id = Some r → r_authorId r = user_id u →
  reflections w !! other = Some held → other ≠ id →
  assoc "slug" f = Some (JStr (r_slug held)) →
  run_handler (reflections_update (Some u) id (Some (JObj f))) w
  = (c_json (ErrorBody "Failed to update reflection") 400, w).
Proof.
  intros Hid Hown Hother Hne Hs.
  unfold run_handler, reflections_update, requireAuth, try_catch, req_json, or_throw,
    throw, reflection_findUnique, c_json_ok, c_json. unfold mbind, M_bind, mret, M_ret.
  rewrite Hid. cbn [negb]. rewrite Hown, String.eqb_refl. cbn [negb].
  destruct (createReflectionSchema_partial (JObj f)) as [v|] eqn:Hv; [|done].
  unfold reflection_update. rewrite Hid. cbn [d_publishDate d_slug].
  destruct (coerce_date _); [|done].
  rewrite (partial_schema_slug f v _ Hv Hs).
  by rewrite (slug_taken_other _ _ _ _ _ Hother eq_refl Hne).
Qed.

(** A signed-in caller who asks for [status=DRAFT] with [authorId] equal to
    the own id is answered with exactly the own drafts. *)
Theorem list_own_drafts (w : World) (u : User) :
  user_id u ≠ "" →
  ∃ rs,
    run_handler (reflections_list (Some u) (Some "DRAFT") (Some (user_id u))) w
    = (c_json_ok (ReflectionsBody rs), w) ∧
    ∀ r, r ∈ rs ↔ (∃ k, reflections w !! k = Some r)
                  ∧ r_status r = DRAFT ∧ r_authorId r = user_id u.
Proof.
  intros Hid.
  assert (list_where (Some u) (Some "DRAFT") (Some (user_id u))
          = {| w_status := Some "DRAFT"; w_authorId := Some (user_id u) |}) as Hwhere.
  { unfold list_where, spread, id_differs. simpl.
    rewrite bool_decide_eq_true_2 by done. simpl.
    by destruct (user_id u). }
  unfold run_handler, reflections_list, reflection_findMany, c_json_ok, c_json.
  unfold mbind, M_bind, mret, M_ret. rewrite Hwhere. simpl.
  eexists. split; [reflexivity|]. intros r. rewrite elem_of_filter_rows.
  unfold matches. rewrite andb_true_iff, bool_decide_eq_true, String.eqb_eq. tauto.
Qed.

(** [GET /] with a [status] that is neither [DRAFT] nor [PUBLISHED]: the
    anonymous caller never sees it (the filter is overwritten by
    [PUBLISHED]) and is answered 200; for a signed-in caller it reaches the
    database, whose error no handler catches: the answer is 500.  The store
    is unchanged in both cases. *)
Theorem list_unknown_status (w : World) (user : option User) s authorId :
  truthy s = true → status_of_string s = None →
  (user = None →
     ∃ rs, run_handler (reflections_list user (Some s) authorId) w
           = (c_json_ok (ReflectionsBody rs), w)) ∧
  (user ≠ None →
     run_handler (reflections_list user (Some s) authorId) w
     = ({| res_body := TextBody "Internal Server Error"; res_status := 500 |}, w)).
Proof.
  intros Htruthy Hbad.
  assert (s ≠ "DRAFT") as Hnd by (intros ->; done).
  split.
  - intros ->. unfold run_handler, reflections_list, reflection_findMany.
    unfold mbind, M_bind, mret, M_ret. rewrite where_anonymous. simpl. by eexists.
  - intros Huser. destruct user as [u|]; [|done].
    assert (w_status (list_where (Some u) (Some s) authorId) = Some s) as Hst.
    { unfold list_where, spread. simpl. rewrite Htruthy.
      rewrite (bool_decide_eq_false_2 (Some s = Some "DRAFT")) by congruence. simpl.
      by destruct (query_truthy authorId). }
    unfold run_handler, reflections_list, reflection_findMany.
    unfold mbind, M_bind, mret, M_ret. by rewrite Hst, Hbad.
Qed.
End ReflectionRoutes.

(** ** Strings and storage keys *)

Lemma list_ascii_append a b :
  list_ascii_of_string (a ++ b)
  = (list_ascii_of_string a ++ list_ascii_of_string b)%list.
Proof. induction a as [|c a IH]; simpl; [done|]. by rewrite IH. Qed.

Lemma list_ascii_inj a b : list_ascii_of_string a = list_ascii_of_string b → a = b.
Proof.
  intros Heq. rewrite <- (string_of_list_ascii_of_string a),
    <- (string_of_list_ascii_of_string b). by rewrite Heq.
Qed.

Lemma append_inv_tail a b x : a ++ x = b ++ x → a = b.
Proof.
  intros Heq. apply list_ascii_inj. apply (f_equal list_ascii_of_string) in Heq.
  rewrite !list_ascii_append in Heq. by apply app_inv_tail in Heq.
Qed.

Lemma take_until_app sep a b :
  sep ∉ a → take_until sep (a ++ sep :: b)%list = a.
Proof.
  induction a as [|c a IH]; intros Hnot; simpl.
  - by rewrite Ascii.eqb_refl.
  - apply not_elem_of_cons in Hnot as [Hne Hnot].
    destruct (Ascii.eqb_spec c sep); [congruence|]. by rewrite IH.
Qed.

Lemma split_pop_last sep prefix name :
  sep ∉ list_ascii_of_string name →
  split_pop sep (prefix ++ String sep name) = name.
Proof.
  intros Hnot. unfold split_pop. rewrite list_ascii_append. simpl.
  rewrite rev_app_distr. simpl. rewrite <- app_assoc. simpl.
  rewrite take_until_app.
  - by rewrite rev_involutive, string_of_list_ascii_of_string.
  - by rewrite list_elem_of_In, <- in_rev, <- list_elem_of_In.
Qed.



Section KeyRoundTrip.
Context `{Collaborators}.

End KeyRoundTrip.

Lemma lastIndexOf_None c s : lastIndexOf c s = None → c ∉ s.
Proof.
  induction s as [|x s IH]; simpl; [intros _; apply not_elem_of_nil|].
  destruct (lastIndexOf c s) as [i|]; [done|].
  destruct (Ascii.eqb_spec x c) as [|Hne]; [done|]. intros _.
  apply not_elem_of_cons. split; [congruence|by apply IH].
Qed.

Lemma lastIndexOf_Some c s i :
  lastIndexOf c s = Some i →
  ∃ ext, drop i s = c :: ext ∧ c ∉ ext.
Proof.
  revert i. induction s as [|x s IH]; intros i; simpl; [done|].
  destruct (lastIndexOf c s) as [j|] eqn:Hj.
  - intros [= <-]. simpl. by apply IH.
  - destruct (Ascii.eqb_spec x c) as [->|Hne]; [|done]. intros [= <-].
    exists s. split; [done|]. by apply lastIndexOf_None.
Qed.

Lemma digits_only d c :
  c ∈ list_ascii_of_string (NilEmpty.string_of_uint d) → in_range 48 57 c = true.
Proof.
  induction d; simpl; [by intros ?%elem_of_nil|..];
    (intros [->|?]%elem_of_cons; [reflexivity|by apply IHd]).
Qed.

Lemma stamp_digits t c :
  c ∈ list_ascii_of_string (stamp t) → in_range 48 57 c = true.
Proof.
  unfold stamp, NilZero.string_of_uint.
  destruct (N.to_uint t) eqn:Hd; try (rewrite <- Hd; apply digits_only).
  simpl. intros [->|?%elem_of_nil]%elem_of_cons; [reflexivity|done].
Qed.

Lemma stamp_no_dot t : "."%char ∉ list_ascii_of_string (stamp t).
Proof. by intros ?%stamp_digits. Qed.

Lemma stamp_no_underscore t : "_"%char ∉ list_ascii_of_string (stamp t).
Proof. by intros ?%stamp_digits. Qed.

Lemma stamp_inj t1 t2 : stamp t1 = stamp t2 → t1 = t2.
Proof.
  assert (∀ t, N.to_uint t ≠ Decimal.Nil) as Hnn.
  { intros [|p]; [done|]. apply DecimalPos.Unsigned.to_uint_nonnil. }
  unfold stamp. intros Heq. apply (f_equal NilZero.uint_of_string) in Heq.
  rewrite !NilZero.usu in Heq by apply Hnn. injection Heq as Heq.
  by apply DecimalN.Unsigned.to_uint_inj.
Qed.

Lemma stamped_inj a1 a2 t1 t2 :
  a1 ++ "_" ++ stamp t1 = a2 ++ "_" ++ stamp t2 → a1 = a2 ∧ t1 = t2.
Proof.
  intros Heq.
  assert (stamp t1 = stamp t2) as Hst.
  { apply (f_equal (split_pop "_")) in Heq.
    change (?a ++ "_" ++ ?b) with (a ++ String "_" b) in Heq.
    by rewrite !split_pop_last in Heq by apply stamp_no_underscore. }
  rewrite Hst in Heq. apply append_inv_tail in Heq. split; [done|by apply stamp_inj].
Qed.

Lemma generateUniquePath_cases p t :
  (("."%char ∉ list_ascii_of_string p) ∧ generateUniquePath p t = p ++ "_" ++ stamp t)
  ∨ (∃ name ext,
       p = name ++ String "." ext ∧ ("."%char ∉ list_ascii_of_string ext) ∧
       generateUniquePath p t = (name ++ "_" ++ stamp t) ++ String "." ext).
Proof.
  unfold generateUniquePath.
  destruct (lastIndexOf "." (list_ascii_of_string p)) as [i|] eqn:Hi.
  - right. destruct (lastIndexOf_Some _ _ _ Hi) as (ext & Hdrop & Hext).
    exists (string_of_list_ascii (take i (list_ascii_of_string p))),
           (string_of_list_ascii ext).
    rewrite Hdrop. split_and!.
    + apply list_ascii_inj. rewrite list_ascii_append. simpl.
      rewrite !list_ascii_of_string_of_list_ascii, <- Hdrop.
      by rewrite take_drop.
    + by rewrite list_ascii_of_string_of_list_ascii.
    + apply list_ascii_inj. rewrite !list_ascii_append. simpl.
      rewrite ?list_ascii_append. simpl.
      rewrite !list_ascii_of_string_of_list_ascii. by rewrite <- ?app_assoc.
  - left. split; [by apply lastIndexOf_None|done].
Qed.

Lemma append_fresh a b : b ≠ "" → a ++ b ≠ a.
Proof.
  intros Hb. induction a as [|c a IH]; simpl; [done|].
  intros [= Heq]. by apply IH.
Qed.

(** [generateUniquePath] never returns the path it was given; the result
    has a dot exactly when the path has one, and then the same extension. *)
Theorem generateUniquePath_keeps_extension (p : string) (t : N) :
  ("."%char ∈ list_ascii_of_string (generateUniquePath p t)
   ↔ "."%char ∈ list_ascii_of_string p) ∧
  ("."%char ∈ list_ascii_of_string p →
   split_pop "." (generateUniquePath p t) = split_pop "." p) ∧
  generateUniquePath p t ≠ p.
Proof.
  pose proof (stamp_no_dot t) as Hst.
  destruct (generateUniquePath_cases p t)
    as [[Hno ->]|(name & ext & -> & Hext & ->)].
  - split_and!.
    + rewrite list_ascii_append. simpl. rewrite elem_of_app, elem_of_cons.
      split; [intros [?|[?|?]]; done|by left].
    + done.
    + by apply append_fresh.
  - split_and!.
    + rewrite !list_ascii_append. simpl. rewrite !elem_of_app, !elem_of_cons.
      split; intros _; right; by left.
    + intros _. by rewrite !split_pop_last.
    + intros Heq. apply append_inv_tail in Heq. by apply append_fresh in Heq.
Qed.

Lemma generateUniquePath_inj (p1 p2 : string) (t1 t2 : N) :
  generateUniquePath p1 t1 = generateUniquePath p2 t2 → p1 = p2 ∧ t1 = t2.
Proof.
  pose proof (stamp_no_dot t1) as Hst1. pose proof (stamp_no_dot t2) as Hst2.
  destruct (generateUniquePath_cases p1 t1)
    as [[Hno1 ->]|(name1 & ext1 & -> & Hext1 & ->)];
  destruct (generateUniquePath_cases p2 t2)
    as [[Hno2 ->]|(name2 & ext2 & -> & Hext2 & ->)].
  - apply stamped_inj.
  - intros Heq. exfalso. apply (f_equal list_ascii_of_string) in Heq.
    assert ("."%char ∈ list_ascii_of_string (p1 ++ "_" ++ stamp t1)) as Hin.
    { rewrite Heq, list_ascii_append. simpl. rewrite elem_of_app, elem_of_cons.
      right. by left. }
    rewrite list_ascii_append in Hin. simpl in Hin.
    rewrite elem_of_app, elem_of_cons in Hin. destruct Hin as [?|[?|?]]; done.
  - intros Heq. exfalso. apply (f_equal list_ascii_of_string) in Heq.
    assert ("."%char ∈ list_ascii_of_string (p2 ++ "_" ++ stamp t2)) as Hin.
    { rewrite <- Heq, list_ascii_append. simpl. rewrite elem_of_app, elem_of_cons.
      right. by left. }
    rewrite list_ascii_append in Hin. simpl in Hin.
    rewrite elem_of_app, elem_of_cons in Hin. destruct Hin as [?|[?|?]]; done.
  - intros Heq.
    assert (ext1 = ext2) as <-.
    { apply (f_equal (split_pop ".")) in Heq. by rewrite !split_pop_last in Heq. }
    apply append_inv_tail in Heq. apply stamped_inj in Heq as [-> ->]. done.
Qed.

(** The renaming is one-to-one: two uploads that differ in the path or in
    the time get different names. *)
Theorem generateUniquePath_distinct (p1 p2 : string) (t1 t2 : N) :
  (p1, t1) ≠ (p2, t2) → generateUniquePath p1 t1 ≠ generateUniquePath p2 t2.
Proof.
  intros Hne Heq. apply Hne.
  by destruct (generateUniquePath_inj p1 p2 t1 t2 Heq) as [-> ->].
Qed.

(** ** The album routes stay inside their album *)

#[global] Instance elsewhere_refl id : Reflexive (elsewhere id).
Proof. intros w. split; eauto. Qed.

#[global] Instance elsewhere_trans id : Transitive (elsewhere id).
Proof.
  intros w1 w2 w3 [A1 B1 C1 D1 E1] [A2 B2 C2 D2 E2]. split.
  - intros k Hk. rewrite A2, A1; done.
  - intros a3 H3. destruct (B2 a3 H3) as (a2 & H2 & Ho2).
    destruct (B1 a2 H2) as (a1 & H1 & Ho1). exists a1. split; congruence.
  - eauto.
  - eauto.
  - intros key Hk. rewrite E2, E1; done.
Qed.

Section Keeps.
Context (R : World → World → Prop) `{!Reflexive R, !Transitive R}.

Lemma keeps_ret {A} (a : A) : keeps R (mret a).
Proof. intros w res w' [= <- <-]. reflexivity. Qed.

Lemma keeps_throw {A} e : keeps R (@throw A e).
Proof. intros w res w' [= <- <-]. reflexivity. Qed.

Lemma keeps_or_throw {A} e (o : option A) : keeps R (or_throw e o).
Proof. destruct o; [apply keeps_ret|apply keeps_throw]. Qed.

Lemma keeps_read {A} (f : World → A) : keeps R (λ w, (Ok (f w), w)).
Proof. intros w res w' [= <- <-]. reflexivity. Qed.

Lemma keeps_bind {A B} (m : M A) (f : A → M B) :
  keeps R m → (∀ a, keeps R (f a)) → keeps R (m ≫= f).
Proof.
  intros Hm Hf w res w'. unfold mbind, M_bind.
  destruct (m w) as [[a|e] w1] eqn:Hmw.
  - intros Hfa. etrans; [by eapply Hm|by eapply Hf].
  - intros [= <- <-]. by eapply Hm.
Qed.

Lemma keeps_try_catch {A} (m : M A) (h : Error → M A) :
  keeps R m → (∀ e, keeps R (h e)) → keeps R (try_catch m h).
Proof.
  intros Hm Hh w res w'. unfold try_catch.
  destruct (m w) as [[a|e] w1] eqn:Hmw.
  - intros [= <- <-]. by eapply Hm.
  - intros Hhe. etrans; [by eapply Hm|by eapply Hh].
Qed.

Lemma keeps_for_of {A} (xs : list A) (body : A → M unit) :
  (∀ x, keeps R (body x)) → keeps R (for_of xs body).
Proof.
  intros Hbody. induction xs as [|x xs IH]; simpl; [apply keeps_ret|].
  apply keeps_bind; [done|]. by intros [].
Qed.

Lemma keeps_requireAuth user next :
  (∀ u, keeps R (next u)) → keeps R (requireAuth user next).
Proof. intros Hn. destruct user; [apply Hn|apply keeps_ret]. Qed.

Lemma keeps_run (m : M Response) w :
  keeps R m → R w (run_handler m w).2.
Proof.
  intros Hm. unfold run_handler. destruct (m w) as [[r|e] w'] eqn:Hmw; by eapply Hm.
Qed.
End Keeps.

Lemma under_intro id rest : under id (id ++ "/" ++ rest).
Proof. by exists rest. Qed.

(** Applies a lemma on [keeps] and finds the order it needs. *)
Ltac kp lem :=
  apply lem;
  try match goal with
      | |- Reflexive _ => apply _
      | |- Transitive _ => apply _
      end.

Section AlbumIsolation.
Context `{Collaborators}.
Variables (upload_error remove_error : string → bool).
Variable js_positive : json → bool.

Lemma keeps_deleteFile id rest bucketName :
  keeps (elsewhere id) (deleteFile remove_error bucketName (id ++ "/" ++ rest)).
Proof.
  intros w res w'. unfold deleteFile.
  destruct (remove_error _); intros [= <- <-]; [reflexivity|].
  split; simpl; eauto. intros key Hkey. rewrite elem_of_difference, elem_of_singleton.
  split; [by intros [? _]|]. intros Hin. split; [done|]. intros ->.
  apply Hkey, under_intro.
Qed.

Lemma keeps_uploadFile id rest bucketName :
  keeps (elsewhere id) (uploadFile upload_error bucketName (id ++ "/" ++ rest)).
Proof.
  intros w res w'. unfold uploadFile.
  destruct (_ || _); intros [= <- <-]; [reflexivity|].
  split; simpl; eauto. intros key Hkey. rewrite elem_of_union, elem_of_singleton.
  split; [|by left]. intros [?| ->]; [done|]. destruct Hkey. apply under_intro.
Qed.

Lemma keeps_image_create id data :
  i_albumId data = id → keeps (elsewhere id) (image_create data).
Proof.
  intros Hid w res w'. unfold image_create.
  destruct (bool_decide (is_Some (images w !! i_id data))) eqn:Hold; simpl.
  { intros [= <- <-]. reflexivity. }
  apply bool_decide_eq_false in Hold.
  destruct (negb _); intros [= <- <-]; [reflexivity|].
  split; simpl; eauto.
  - intros k img Hk Hne. rewrite lookup_insert_ne; [done|].
    intros <-. apply Hold. eauto.
  - intros k img [[<- <-]|[_ ?]]%lookup_insert_Some Hne; [congruence|done].
Qed.

Lemma keeps_image_deleteMany ids id :
  keeps (elsewhere id) (image_deleteMany ids id).
Proof.
  intros w res w'. unfold image_deleteMany.
  destruct ids as [ids|]; intros [= <- <-]; [|reflexivity].
  split; simpl; eauto.
  - intros k img Hk Hne. apply map_lookup_filter_Some. split; [done|]. simpl.
    rewrite Hk. simpl. rewrite (bool_decide_eq_false_2 (Some _ = Some id)) by congruence.
    apply andb_false_r.
  - by intros k img [? _]%map_lookup_filter_Some _.
Qed.

Lemma keeps_album_update id name description date :
  keeps (elsewhere id) (album_update id name description date).
Proof.
  intros w res w'. unfold album_update.
  destruct (albums w !! id) as [a|] eqn:Ha; [|intros [= <- <-]; reflexivity].
  destruct date as [[d|]|]; intros [= <- <-]; try reflexivity.
  - split; simpl; eauto.
    + intros k Hk. by rewrite lookup_insert_ne.
    + intros a'. rewrite lookup_insert_eq. intros [= <-]. by exists a.
  - split; simpl; eauto.
    + intros k Hk. by rewrite lookup_insert_ne.
    + intros a'. rewrite lookup_insert_eq. intros [= <-]. by exists a.
Qed.

Lemma keeps_album_delete id : keeps (elsewhere id) (album_delete id).
Proof.
  intros w res w'. unfold album_delete.
  destruct (albums w !! id) as [a|] eqn:Ha; intros [= <- <-]; [|reflexivity].
  split; simpl; eauto.
  - intros k Hk. by rewrite lookup_delete_ne.
  - intros a'. by rewrite lookup_delete_eq.
  - intros k img Hk Hne. by apply map_lookup_filter_Some.
  - by intros k img [? _]%map_lookup_filter_Some _.
Qed.

Lemma keeps_upload_new id user uuid i files :
  keeps (elsewhere id) (upload_new upload_error id user uuid i files).
Proof.
  revert i. induction files as [|file files IH]; intros i; simpl.
  - kp keeps_ret.
  - kp keeps_bind; [apply keeps_uploadFile|]. intros publicUrl.
    kp keeps_bind; [by apply keeps_image_create|]. intros newImage.
    kp keeps_bind; [apply IH|]. intros newImages. kp keeps_ret.
Qed.

Lemma keeps_delete_listed id imgs f :
  keeps (elsewhere id) (delete_listed remove_error js_positive id imgs f).
Proof.
  unfold delete_listed. destruct (deletions js_positive f) as [|items|].
  - kp keeps_ret.
  - kp keeps_bind; [ |intros; apply keeps_image_deleteMany].
    kp keeps_for_of. intros imageId.
    destruct (find_image imgs imageId) as [image|]; [|kp keeps_ret].
    simpl. destruct (truthy _); [apply keeps_deleteFile|kp keeps_ret].
  - kp keeps_throw.
Qed.

(** [PUT /:id], whoever calls it and whatever the form holds, touches
    nothing outside album [id]: the other album rows, the image rows of
    other albums and the objects outside the folder [id/] are as before, and
    the album keeps its owner. *)
Theorem album_update_stays_in_album (w : World) (user : option User) id formData uuid :
  elsewhere id w
    (run_handler
       (albums_update upload_error remove_error js_positive user id formData uuid) w).2.
Proof.
  kp (keeps_run (elsewhere id)). unfold albums_update.
  kp keeps_requireAuth. intros u.
  kp keeps_try_catch; [|intros; kp keeps_ret].
  kp keeps_bind; [kp keeps_or_throw|]. intros fd.
  destruct (fd_albumData fd) as [albumDataJson|]; [|kp keeps_ret].
  destruct (negb _); [kp keeps_ret|].
  kp keeps_bind; [kp keeps_or_throw|]. intros albumData.
  kp keeps_bind; [kp keeps_read|]. intros [[existing imgs]|];
    [|kp keeps_ret].
  destruct (negb _); [kp keeps_ret|].
  kp keeps_bind; [kp keeps_or_throw|]. intros validated.
  kp keeps_bind; [apply keeps_delete_listed|]. intros _.
  kp keeps_bind; [apply keeps_upload_new|]. intros _.
  kp keeps_bind; [apply keeps_album_update|]. intros updatedAlbum.
  kp keeps_bind; [kp keeps_read|]. intros updatedImages.
  kp keeps_ret.
Qed.

(** [DELETE /:id], whoever calls it, touches nothing outside album [id]:
    the other album rows, the image rows of other albums and the objects
    outside the folder [id/] are as before. *)
Theorem album_delete_stays_in_album (w : World) (user : option User) id :
  elsewhere id w (run_handler (albums_delete remove_error user id) w).2.
Proof.
  kp (keeps_run (elsewhere id)). unfold albums_delete.
  kp keeps_requireAuth. intros u.
  kp keeps_try_catch; [|intros; kp keeps_ret].
  kp keeps_bind; [kp keeps_read|]. intros [[existing imgs]|];
    [|kp keeps_ret].
  destruct (negb _); [kp keeps_ret|].
  kp keeps_bind; [ |].
  - kp keeps_for_of. intros image. simpl.
    destruct (truthy _); [apply keeps_deleteFile|kp keeps_ret].
  - intros _. kp keeps_bind; [apply keeps_album_delete|].
    intros _. kp keeps_ret.
Qed.
End AlbumIsolation.

(** ** Refusals and outcomes of the album routes *)

Section ImageDelete.
Context `{Collaborators}.
Variable remove_error : string → bool.

(** [DELETE /:albumId/images/:imageId] refuses without writing: 401 to the
    anonymous caller, 404 when the image is not stored, 403 when the caller
    does not own the album the image row belongs to.  The album named in the
    path plays no part in the check. *)
Theorem image_delete_refused (w : World) (user : option User) albumId imageId :
  (user = None →
     albums_delete_image remove_error user albumId imageId w
     = (Ok (Answered (c_json (ErrorBody "Unauthorized") 401)), w)) ∧
  (∀ u, user = Some u → images w !! imageId = None →
     albums_delete_image remove_error user albumId imageId w
     = (Ok (Answered (c_json (ErrorBody "Image not found") 404)), w)) ∧
  (∀ u img a, user = Some u → images w !! imageId = Some img →
     albums w !! i_albumId img = Some a → a_uploadedById a ≠ user_id u →
     albums_delete_image remove_error user albumId imageId w
     = (Ok (Answered (c_json (ErrorBody "Unauthorized") 403)), w)).
Proof.
  split_and!.
  - by intros ->.
  - intros u -> Himg. unfold albums_delete_image, try_catch, image_findUnique.
    unfold mbind, M_bind, mret, M_ret. by rewrite Himg.
  - intros u img a -> Himg Ha Hne.
    unfold albums_delete_image, try_catch, image_findUnique, or_throw.
    unfold mbind, M_bind, mret, M_ret. rewrite Himg. simpl. rewrite Ha. simpl.
    by destruct (String.eqb_spec (a_uploadedById a) (user_id u)).
Qed.

Lemma image_delete_runs (w : World) (u : User) albumId imageId img a :
  images w !! imageId = Some img → albums w !! i_albumId img = Some a →
  a_uploadedById a = user_id u →
  truthy (split_pop "/" (i_url img)) = true →
  remove_error (albumId ++ "/" ++ split_pop "/" (i_url img)) = false →
  ∃ reply w',
    albums_delete_image remove_error (Some u) albumId imageId w = (Ok reply, w') ∧
    images w' = delete imageId (images w) ∧
    albums w' = albums w ∧
    bucket w' = bucket w ∖ {[albumId ++ "/" ++ split_pop "/" (i_url img)]} ∧
    reply = match albums w !! albumId with
            | Some a' => Answered (c_json_ok (AlbumBody a' (images_of albumId w')))
            | None => AnsweredNull
            end.
Proof.
  intros Himg Ha Hown Hseg Hok.
  unfold albums_delete_image, try_catch, image_findUnique, or_throw, deleteFile,
    image_delete, album_findUnique.
  unfold mbind, M_bind, mret, M_ret. rewrite Himg. simpl. rewrite Ha. simpl.
  rewrite Hown, String.eqb_refl. simpl. rewrite Hseg, Hok. simpl.
  rewrite Himg. simpl.
  destruct (albums w !! albumId) as [a'|]; simpl;
    eexists _, _; (split; [reflexivity|]); simpl; by split_and!.
Qed.

(** The owner deletes an image whose URL has a last segment.  If the storage
    service refuses the removal the answer is 400 and nothing is written.
    Otherwise the row is deleted, the object [albumId/<last segment>] is
    removed, the album rows are as before, and the answer is the album of
    the path with its remaining images, or [null] when the path names no
    album. *)
Theorem image_delete_by_owner (w : World) (u : User) albumId imageId img a :
  images w !! imageId = Some img → albums w !! i_albumId img = Some a →
  a_uploadedById a = user_id u →
  truthy (split_pop "/" (i_url img)) = true →
  (remove_error (albumId ++ "/" ++ split_pop "/" (i_url img)) = true →
     albums_delete_image remove_error (Some u) albumId imageId w
     = (Ok (Answered (c_json (ErrorBody "Failed to delete image") 400)), w)) ∧
  (remove_error (albumId ++ "/" ++ split_pop "/" (i_url img)) = false →
     ∃ reply w',
       albums_delete_image remove_error (Some u) albumId imageId w = (Ok reply, w') ∧
       images w' = delete imageId (images w) ∧
       albums w' = albums w ∧
       bucket w' = bucket w ∖ {[albumId ++ "/" ++ split_pop "/" (i_url img)]} ∧
       reply = match albums w !! albumId with
               | Some a' => Answered (c_json_ok (AlbumBody a' (images_of albumId w')))
               | None => AnsweredNull
               end).
Proof.
  intros Himg Ha Hown Hseg. split; [|by apply (image_delete_runs w u albumId imageId img a)].
  unfold albums_delete_image, try_catch, image_findUnique, or_throw, deleteFile.
  unfold mbind, M_bind, mret, M_ret. rewrite Himg. simpl. rewrite Ha. simpl.
  rewrite Hown, String.eqb_refl. simpl. rewrite Hseg. by intros ->.
Qed.

(** The storage key is built from the album of the path, the ownership
    check from the album of the row.  When the two differ the owner's request
    succeeds, the row is deleted, and the object of the image is still in
    the bucket. *)
Theorem image_delete_wrong_album_leaves_object (w : World) (u : User)
  albumId imageId img a :
  images w !! imageId = Some img → albums w !! i_albumId img = Some a →
  a_uploadedById a = user_id u →
  truthy (split_pop "/" (i_url img)) = true →
  remove_error (albumId ++ "/" ++ split_pop "/" (i_url img)) = false →
  albumId ≠ i_albumId img →
  storage_key (i_albumId img) img ∈ bucket w →
  ∃ reply w',
    albums_delete_image remove_error (Some u) albumId imageId w = (Ok reply, w') ∧
    images w' !! imageId = None ∧
    storage_key (i_albumId img) img ∈ bucket w'.
Proof.
  intros Himg Ha Hown Hseg Hok Hne Hin.
  destruct (image_delete_runs w u albumId imageId img a Himg Ha Hown Hseg Hok)
    as (reply & w' & Hrun & Hi & _ & Hb & _).
  exists reply, w'. split_and!; [done| |].
  - rewrite Hi. apply lookup_delete_eq.
  - rewrite Hb. apply elem_of_difference. split; [done|].
    rewrite elem_of_singleton. unfold storage_key. intros Heq.
    apply Hne. symmetry. by apply append_inv_tail in Heq.
Qed.
End ImageDelete.

Section AlbumRefusals.
Context `{Collaborators}.
Variables (upload_error remove_error : string → bool).
Variable js_positive : json → bool.

(** [DELETE /:id] refuses without writing: 401 to the anonymous caller, 404
    when the album is not stored, 403 when the caller is not its owner. *)
Theorem album_delete_refused (w : World) (user : option User) id :
  (user = None →
     run_handler (albums_delete remove_error user id) w
     = (c_json (ErrorBody "Unauthorized") 401, w)) ∧
  (∀ u, user = Some u → albums w !! id = None →
     run_handler (albums_delete remove_error user id) w
     = (c_json (ErrorBody "Album not found") 404, w)) ∧
  (∀ u a, user = Some u → albums w !! id = Some a → a_uploadedById a ≠ user_id u →
     run_handler (albums_delete remove_error user id) w
     = (c_json (ErrorBody "Unauthorized") 403, w)).
Proof.
  split_and!.
  - by intros ->.
  - intros u -> Ha. unfold run_handler, albums_delete, requireAuth, try_catch,
      album_findUnique. unfold mbind, M_bind, mret, M_ret. by rewrite Ha.
  - intros u a -> Ha Hne. unfold run_handler, albums_delete, requireAuth, try_catch,
      album_findUnique. unfold mbind, M_bind, mret, M_ret. rewrite Ha. simpl.
    by destruct (String.eqb_spec (a_uploadedById a) (user_id u)).
Qed.

(** [PUT /:id] refuses without writing: 401 to the anonymous caller; with a
    readable [albumData], 404 when the album is not stored and 403 when the
    caller is not its owner; and 400 when the form cannot be read, has no
    [albumData], or [albumData] is empty or not JSON, before the album is
    looked up. *)
Theorem album_update_refused (w : World) (user : option User) id formData uuid :
  (user = None →
     run_handler (albums_update upload_error remove_error js_positive user id
                    formData uuid) w
     = (c_json (ErrorBody "Unauthorized") 401, w)) ∧
  (∀ u fd albumDataJson albumData,
     user = Some u → formData = Some fd →
     fd_albumData fd = Some albumDataJson → truthy albumDataJson = true →
     JSON_parse albumDataJson = Some albumData →
     (albums w !! id = None →
        run_handler (albums_update upload_error remove_error js_positive user id
                       formData uuid) w
        = (c_json (ErrorBody "Album not found") 404, w)) ∧
     (∀ a, albums w !! id = Some a → a_uploadedById a ≠ user_id u →
        run_handler (albums_update upload_error remove_error js_positive user id
                       formData uuid) w
        = (c_json (ErrorBody "Unauthorized") 403, w))) ∧
  (∀ u, user = Some u →
     (formData = None ∨ ∃ fd, formData = Some fd ∧
        (fd_albumData fd = None ∨ fd_albumData fd = Some ""
         ∨ ∃ j, fd_albumData fd = Some j ∧ JSON_parse j = None)) →
     (run_handler (albums_update upload_error remove_error js_positive user id
                     formData uuid) w).2 = w ∧
     res_status (run_handler (albums_update upload_error remove_error js_positive
                                user id formData uuid) w).1 = 400).
Proof.
  split_and!.
  - by intros ->.
  - intros u fd j data -> -> Hj Htruthy Hparse.
    unfold run_handler, albums_update, requireAuth, try_catch, or_throw,
      album_findUnique. unfold mbind, M_bind, mret, M_ret.
    rewrite Hj, Htruthy, Hparse. simpl. split.
    + by intros ->.
    + intros a -> Hne. simpl.
      by destruct (String.eqb_spec (a_uploadedById a) (user_id u)).
  - intros u -> Hbad.
    unfold run_handler, albums_update, requireAuth, try_catch, or_throw, throw.
    unfold mbind, M_bind, mret, M_ret.
    destruct Hbad as [->|(fd & -> & [Hj|[Hj|(j & Hj & Hparse)]])]; [done|..].
    + by rewrite Hj.
    + by rewrite Hj.
    + rewrite Hj. destruct (negb (truthy j)); [done|]. by rewrite Hparse.
Qed.
End AlbumRefusals.

#[global] Instance same_albums_refl : Reflexive same_albums.
Proof. by intros w. Qed.

#[global] Instance same_albums_trans : Transitive same_albums.
Proof. unfold same_albums. intros w1 w2 w3 H12 H23. congruence. Qed.

Section AlbumTable.
Context `{Collaborators}.
Variables (upload_error remove_error : string → bool).
Variable js_positive : json → bool.

Lemma same_albums_deleteFile bucketName key :
  keeps same_albums (deleteFile remove_error bucketName key).
Proof.
  intros w res w'. unfold deleteFile.
  by destruct (remove_error _); intros [= <- <-].
Qed.

Lemma same_albums_delete_listed id imgs f :
  keeps same_albums (delete_listed remove_error js_positive id imgs f).
Proof.
  unfold delete_listed. destruct (deletions js_positive f) as [|items|].
  - kp keeps_ret.
  - kp keeps_bind.
    + kp keeps_for_of. intros imageId.
      destruct (find_image imgs imageId) as [image|]; [|kp keeps_ret].
      simpl. destruct (truthy _); [apply same_albums_deleteFile|kp keeps_ret].
    + intros _ w res w'. unfold image_deleteMany.
      by destruct (id_list f); intros [= <- <-].
  - kp keeps_throw.
Qed.

Lemma same_albums_upload_new id user uuid i files :
  keeps same_albums (upload_new upload_error id user uuid i files).
Proof.
  revert i. induction files as [|file files IH]; intros i; simpl.
  - kp keeps_ret.
  - kp keeps_bind.
    { intros w res w'. unfold uploadFile. by destruct (_ || _); intros [= <- <-]. }
    intros publicUrl. kp keeps_bind.
    { intros w res w'. unfold image_create. by destruct (_ || _); intros [= <- <-]. }
    intros newImage. kp keeps_bind; [apply IH|]. intros newImages. kp keeps_ret.
Qed.

(** [PUT /:id] writes the album row last.  A request that is not answered
    200 leaves table [albums] as it was.  One that is answered 200 was sent
    by the owner and replaced the row of [id] only; the new row has the same
    id and owner, a name that is the old one or not empty, and a description
    that is the old one or not empty: the route cannot clear a
    description. *)
Theorem album_update_writes_album_last (w w' : World) (u : User) id formData uuid
  resp :
  run_handler (albums_update upload_error remove_error js_positive (Some u) id
                 formData uuid) w = (resp, w') →
  (res_status resp ≠ 200 → albums w' = albums w) ∧
  (res_status resp = 200 →
     ∃ a a',
       resp = c_json_ok (AlbumBody a' (images_of id w')) ∧
       albums w !! id = Some a ∧ a_uploadedById a = user_id u ∧
       albums w' = <[id := a']> (albums w) ∧
       a_id a' = a_id a ∧ a_uploadedById a' = a_uploadedById a ∧
       (a_name a' = a_name a ∨ a_name a' ≠ "") ∧
       (a_description a' = a_description a
        ∨ ∃ d, a_description a' = Some d ∧ d ≠ "")).
Proof.
  unfold run_handler, albums_update, requireAuth, try_catch, or_throw, throw,
    album_findUnique, album_images.
  unfold mbind, M_bind, mret, M_ret.
  assert (∀ e, res_status (albums_update_catch e) ≠ 200) as Hcatch by by intros [].
  destruct formData as [fd|]; [|by intros [= <- <-]]. simpl.
  destruct (fd_albumData fd) as [albumDataJson|]; [|by intros [= <- <-]].
  destruct (negb (truthy albumDataJson)); [by intros [= <- <-]|].
  destruct (JSON_parse albumDataJson) as [albumData|]; [|by intros [= <- <-]].
  destruct (albums w !! id) as [a|] eqn:Ha; [|by intros [= <- <-]]. simpl.
  destruct (String.eqb_spec (a_uploadedById a) (user_id u)) as [Hown|Hown];
    [|by intros [= <- <-]]. simpl.
  destruct (updateAlbumSchema albumData) as [v|]; [|by intros [= <- <-]].
  destruct (delete_listed _ _ _ _ _ w) as [[[]|e1] w1] eqn:H1.
  2:{ apply same_albums_delete_listed in H1. intros [= <- <-].
      split; [done|]. intros Hst. by destruct (Hcatch e1). }
  apply same_albums_delete_listed in H1.
  destruct (upload_new _ _ _ _ _ _ w1) as [[newImages|e2] w2] eqn:H2.
  2:{ apply same_albums_upload_new in H2. intros [= <- <-].
      split; [unfold same_albums in *; congruence|].
      intros Hst. by destruct (Hcatch e2). }
  apply same_albums_upload_new in H2.
  assert (albums w2 = albums w) as Hsame by (unfold same_albums in *; congruence).
  unfold album_update. rewrite Hsame, Ha.
  assert (∀ d0 : string, truthy d0 = true → d0 ≠ "") as Htruthy by by intros [].
  assert (∀ name : option string,
            default (a_name a) (when_truthy name) = a_name a
            ∨ default (a_name a) (when_truthy name) ≠ "") as Hname.
  { intros [n|]; simpl; [|by left]. destruct (truthy n) eqn:Hn; simpl; [|by left].
    right. by apply Htruthy. }
  assert (∀ description : option string,
            match when_truthy description with
            | Some d => Some d
            | None => a_description a
            end = a_description a
            ∨ ∃ d, match when_truthy description with
                   | Some d => Some d
                   | None => a_description a
                   end = Some d ∧ d ≠ "") as Hdesc.
  { intros [d|]; simpl; [|by left]. destruct (truthy d) eqn:Hd; simpl; [|by left].
    right. exists d. split; [done|]. by apply Htruthy. }
  destruct (Date_parse <$> when_truthy (au_date v)) as [[d|]|].
  - intros [= <- <-]. split; [done|]. intros _. simpl.
    exists a. eexists. split_and!;
      [reflexivity|done|done|by rewrite Hsame|done|done|apply Hname|apply Hdesc].
  - intros [= <- <-]. split; [done|]. intros Hst. by destruct (Hcatch PrismaError).
  - intros [= <- <-]. split; [done|]. intros _. simpl.
    exists a. eexists. split_and!;
      [reflexivity|done|done|by rewrite Hsame|done|done|apply Hname|apply Hdesc].
Qed.
End AlbumTable.

Section DeleteThenGet.
Context `{Collaborators}.
Variable remove_error : string → bool.

(** The owner deletes an album and no removal fails: the answer is 200,
    afterwards [GET /:id] answers 404, no image row of the album is left,
    and a second [DELETE /:id] changes nothing, whoever sends it: it is
    answered 404 to a signed-in caller and 401 to an anonymous one. *)
Theorem album_delete_then_get (w : World) (u : User) id a :
  albums w !! id = Some a → a_uploadedById a = user_id u →
  (∀ key, key ∈ removal_keys id (images_of id w) → remove_error key = false) →
  ∃ w',
    run_handler (albums_delete remove_error (Some u) id) w
    = (c_json_ok SuccessBody, w') ∧
    albums_get id w' = (Ok (c_json (ErrorBody "Album not found") 404), w') ∧
    images_of id w' = [] ∧
    (∀ caller, run_handler (albums_delete remove_error caller id) w'
               = (match caller with
                  | Some _ => c_json (ErrorBody "Album not found") 404
                  | None => c_json (ErrorBody "Unauthorized") 401
                  end, w')).
Proof.
  intros Ha Hown Hok.
  unfold run_handler at 1. unfold albums_delete at 1.
  unfold requireAuth, try_catch, album_findUnique.
  unfold mbind at 1. unfold M_bind at 1. rewrite Ha. simpl.
  rewrite Hown, String.eqb_refl. simpl.
  change (for_of (images_of id w) _) with (removal_loop remove_error id (images_of id w)).
  unfold mbind at 1. unfold M_bind at 1.
  rewrite (removal_loop_ok remove_error id (images_of id w) w Hok).
  destruct (removed_tables (removal_keys id (images_of id w)) w) as (Hr & Hi & Hal).
  unfold mbind, M_bind, album_delete. rewrite Hal, Ha. simpl.
  eexists. split; [reflexivity|].
  assert (∀ w0 : World, albums w0 !! id = None →
            albums_get id w0 = (Ok (c_json (ErrorBody "Album not found") 404), w0)) as Hget.
  { intros w0 Hnone. unfold albums_get, album_findUnique.
    unfold mbind, M_bind, mret, M_ret. by rewrite Hnone. }
  split_and!.
  - apply Hget. simpl. apply lookup_delete_eq.
  - apply filter_none. intros img Hin.
    apply list_elem_of_fmap in Hin as ([k i] & -> & Hin).
    apply elem_of_map_to_list in Hin. simpl in Hin.
    apply map_lookup_filter_Some in Hin as [_ Hne]. simpl in *.
    by destruct (String.eqb_spec (i_albumId i) id).
  - intros [b|]; [|done]. unfold run_handler, albums_delete, requireAuth,
      try_catch, album_findUnique. unfold mbind, M_bind, mret, M_ret. simpl.
    by rewrite lookup_delete_eq.
Qed.
End DeleteThenGet.

(** ** Album creation: what a 201 means, and what a failure leaves *)

Section AlbumCreateMore.
Context `{Collaborators}.
Variables (validated : AlbumInput) (album : Album) (user : User).
Variable uuid : nat → string.
Variable files : list File.

Lemma task_of_world w w' k t :
  (∀ i img, images w !! i = Some img → images w' !! i = Some img) →
  task_of validated album user uuid files w k t →
  task_of validated album user uuid files w' k t.
Proof.
  intros Hmono (file & Hfile & Ht). exists file. split; [done|].
  destruct t; try done. destruct Ht as [? ?]. split; [done|]. by apply Hmono.
Qed.

Lemma answer_keeps_tasks a r r' :
  answer validated album user a r = Some r' →
  tasks_ok validated album user uuid files r →
  tasks_ok validated album user uuid files r'.
Proof.
  intros Ha [Hlen Hshape Hrow].
  destruct (answer_cases _ _ _ _ _ _ Ha) as (k & t & t' & Hk & Hts & Hcase).
  assert (∀ i img, images (run_world r) !! i = Some img →
                   images (run_world r') !! i = Some img) as Hmono.
  { destruct Hcase as [(_ & ? & ? & ? & ? & _ & _ & -> & _)
      |[(_ & _ & _ & ->)|[(_ & data & _ & _ & Hfree & ->)|(_ & _ & _ & ->)]]];
      try done.
    intros i img Hi. simpl. rewrite lookup_insert_ne; [done|]. congruence. }
  assert (albums (run_world r') = albums (run_world r)) as Halb.
  { by destruct Hcase as [(_ & ? & ? & ? & ? & _ & _ & -> & _)
      |[(_ & _ & _ & ->)|[(_ & data & _ & _ & Hfree & ->)|(_ & _ & _ & ->)]]]. }
  split.
  - by rewrite Hts, length_insert.
  - intros j tj Hj. rewrite Hts in Hj.
    destruct (decide (k = j)) as [->|Hne].
    + rewrite list_lookup_insert_eq in Hj by by eapply lookup_lt_Some.
      injection Hj as <-.
      destruct (Hshape j t Hk) as (file & Hfile & Ht). exists file. split; [done|].
      unfold answer in Ha.
      destruct a as [k0|k0|k0|k0];
        destruct Hcase as [(Heq & Hc)|[(Heq & Hc)|[(Heq & Hc)|(Heq & Hc)]]];
        try (by inversion Heq); (assert (k0 = j) as -> by congruence); clear Heq.
      * destruct Hc as (index & f & dbImageId & filePath & -> & Hnin & _ & _).
        destruct Ht as (-> & -> & -> & ->). rewrite Hk in Ha.
        case_bool_decide; [done|]. injection Ha as <-. simpl in Hts.
        apply (f_equal (λ l, l !! j)) in Hts.
        rewrite !list_lookup_insert_eq in Hts by by eapply lookup_lt_Some.
        injection Hts as <-.
        by destruct (image_data validated album user j file (uuid j) _).
      * by destruct Hc as (_ & -> & _).
      * destruct Hc as (data & -> & -> & _ & ->). split; [done|]. simpl.
        by rewrite lookup_insert_eq.
      * by destruct Hc as (_ & -> & _).
    + rewrite list_lookup_insert_ne in Hj by done.
      eapply task_of_world; [done|]. by apply Hshape.
  - by rewrite Halb.
Qed.

Lemma answers_keep_tasks sched r r' :
  answers validated album user sched r = Some r' →
  tasks_ok validated album user uuid files r →
  tasks_ok validated album user uuid files r'.
Proof.
  revert r. induction sched as [|a sched IH]; intros r; simpl.
  - by intros [= ->].
  - destruct (answer validated album user a r) as [r1|] eqn:Ha; [|done].
    intros Hrun Hok. eapply IH; [done|]. by eapply answer_keeps_tasks.
Qed.

Lemma begin_tasks_ok (w w0 : World) usr fd albumUuid ts0 :
  fd_images fd = files →
  albums_create_begin usr (Some fd) albumUuid uuid w
  = (Ok (inr (user, validated, album, ts0)), w0) →
  tasks_ok validated album user uuid files {| run_world := w0; run_tasks := ts0 |}
  ∧ a_id album = albumUuid ∧ usr = Some user
  ∧ a_uploadedById album = user_id user ∧ a_name album = al_name validated
  ∧ files ≠ [].
Proof.
  intros <-. unfold albums_create_begin. destruct usr as [u0|]; [|done].
  unfold try_catch, or_throw, throw. unfold mbind, M_bind, mret, M_ret. simpl.
  destruct (fd_albumData fd) as [albumDataJson|]; [|done].
  destruct (negb (truthy albumDataJson)); [done|].
  destruct (JSON_parse albumDataJson) as [albumData|]; [|done].
  destruct (createAlbumSchema albumData) as [v|]; [|done].
  case_bool_decide as Hfiles; [done|].
  unfold album_create.
  destruct (Date_parse (al_date v)) as [d|]; [|done].
  destruct (albums w !! albumUuid); [done|].
  intros [= -> -> <- <- <-]. split_and!; try done.
  split; simpl.
  - by rewrite length_imap.
  - intros k t Hk. apply list_lookup_imap_Some in Hk as (file & Hfile & ->).
    exists file. done.
  - by rewrite lookup_insert_eq.
Qed.

(** A [POST /create] answered 201 has handled every file: the body lists
    one image per file, in the order of the files; the image at position [k]
    has the id drawn for [k], belongs to the new album and to the caller,
    carries the public URL of the key [<album>/<id>.<extension>], and is
    stored in table [images]; the album row is stored too, owned by the
    caller. *)
Theorem album_created_lists_every_file (w w0 : World) usr fd albumUuid ts0 sched r
  resp :
  fd_images fd = files →
  albums_create_begin usr (Some fd) albumUuid uuid w
  = (Ok (inr (user, validated, album, ts0)), w0) →
  answers validated album user sched {| run_world := w0; run_tasks := ts0 |}
  = Some r →
  albums_create_response album (run_tasks r) = Some resp →
  res_status resp = 201 →
  ∃ imgs,
    resp = c_json (AlbumBody album imgs) 201 ∧
    a_id album = albumUuid ∧ a_uploadedById album = user_id user ∧
    albums (run_world r) !! albumUuid = Some album ∧
    List.length imgs = List.length files ∧
    ∀ k file, files !! k = Some file →
      ∃ img, imgs !! k = Some img ∧
        i_id img = uuid k ∧ i_albumId img = albumUuid ∧
        i_userId img = Some (user_id user) ∧
        i_url img = getPublicUrl "albums"
                      (albumUuid ++ "/" ++ uuid k ++ "." ++ split_pop "." (f_name file)) ∧
        images (run_world r) !! uuid k = Some img.
Proof.
  intros Hfiles Hbegin Hrun Hresp Hst.
  destruct (begin_tasks_ok _ _ _ _ _ _ Hfiles Hbegin) as (Hok0 & Hid & _ & Hown & _).
  destruct (answers_keep_tasks _ _ _ Hrun Hok0) as [Hlen Hshape Hrow].
  unfold albums_create_response, Promise_all in Hresp.
  destruct (omap rejection (run_tasks r)) as [|e ?].
  2:{ injection Hresp as <-. by destruct e. }
  destruct (mapM fulfilment (run_tasks r)) as [imgs|] eqn:Hall; [|done].
  injection Hresp as <-. exists imgs.
  apply mapM_Some in Hall.
  pose proof (Forall2_length _ _ _ Hall) as Hlen2.
  split_and!; try done.
  - by rewrite <- Hid.
  - by rewrite <- Hlen2.
  - intros k file Hfile.
    destruct (lookup_lt_is_Some_2 (run_tasks r) k) as [t Ht].
    { rewrite Hlen. by eapply lookup_lt_Some. }
    destruct (Forall2_lookup_l _ _ _ _ _ Hall Ht) as (img & Himg & Hful).
    destruct t as [| |data|]; try done. injection Hful as ->.
    destruct (Hshape k _ Ht) as (file' & Hfile' & Hdata & Hstored).
    rewrite Hfile in Hfile'. injection Hfile' as <-.
    exists img. split; [done|].
    unfold image_data in Hdata.
    destruct (al_images validated !! k); [|done]. injection Hdata as <-.
    simpl in *. unfold upload_key in *. subst albumUuid. done.
Qed.

Lemma answer_bucket_mono a r r' key :
  answer validated album user a r = Some r' →
  key ∈ bucket (run_world r) → key ∈ bucket (run_world r').
Proof.
  intros Ha Hin.
  destruct (answer_cases _ _ _ _ _ _ Ha) as (k & t & t' & Hk & Hts & Hcase).
  destruct Hcase as [(_ & ? & ? & ? & ? & _ & _ & -> & _)
    |[(_ & _ & _ & ->)|[(_ & data & _ & _ & Hfree & ->)|(_ & _ & _ & ->)]]];
    try done.
  simpl. apply elem_of_union. by left.
Qed.

Lemma answers_bucket_mono sched r r' key :
  answers validated album user sched r = Some r' →
  key ∈ bucket (run_world r) → key ∈ bucket (run_world r').
Proof.
  revert r. induction sched as [|a sched IH]; intros r; simpl.
  - by intros [= ->].
  - destruct (answer validated album user a r) as [r1|] eqn:Ha; [|done].
    intros Hrun Hin. eapply IH; [done|]. by eapply answer_bucket_mono.
Qed.

Lemma upload_beyond_metadata sched r r' k file :
  tasks_ok validated album user uuid files r →
  files !! k = Some file → al_images validated !! k = None →
  answers validated album user sched r = Some r' →
  UploadDone k ∈ sched →
  upload_key album uuid k file ∈ bucket (run_world r') ∧
  run_tasks r' !! k = Some (Rejected TypeError).
Proof.
  intros Hok Hfile Hmeta. revert r Hok.
  induction sched as [|a sched IH]; intros r Hok Hrun Hin.
  { by apply elem_of_nil in Hin. }
  simpl in Hrun.
  destruct (answer validated album user a r) as [r1|] eqn:Ha; [|done].
  pose proof (answer_keeps_tasks _ _ _ Ha Hok) as Hok1.
  apply elem_of_cons in Hin as [<-|Hin]; [|by eapply IH].
  destruct (answer_cases _ _ _ _ _ _ Ha) as (j & t & t' & Hj & Hts & Hcase).
  destruct Hcase as [([= <-] & index & f & dbImageId & filePath & -> & _ & Hw & _)
                    |[([=] & _)|[([=] & _)|([=] & _)]]].
  destruct (tasks_shape _ _ _ _ _ _ Hok k _ Hj) as (file' & Hfile' & -> & -> & -> & ->).
  rewrite Hfile in Hfile'. injection Hfile' as <-.
  split.
  - eapply answers_bucket_mono; [done|]. rewrite Hw. simpl.
    apply elem_of_union. right. by apply elem_of_singleton.
  - eapply answers_keep_rejected; [done|].
    unfold answer in Ha. rewrite Hj in Ha. case_bool_decide; [done|].
    injection Ha as <-. simpl. unfold image_data. rewrite Hmeta.
    apply list_lookup_insert_eq. by eapply lookup_lt_Some.
Qed.

(** More files than entries in [images] of [albumData]: the album row is
    written, but whatever the storage service and the database answer, the
    request is never answered 201; once it is answered, the answer is 400
    ["Failed to create album"].  A file without metadata whose upload has
    succeeded is left in the bucket, its task rejected and no row made for
    it. *)
Theorem files_beyond_metadata_never_created (w w0 : World) usr fd albumUuid ts0
  sched r :
  fd_images fd = files →
  (List.length (al_images validated) < List.length files)%nat →
  albums_create_begin usr (Some fd) albumUuid uuid w
  = (Ok (inr (user, validated, album, ts0)), w0) →
  answers validated album user sched {| run_world := w0; run_tasks := ts0 |}
  = Some r →
  albums (run_world r) !! albumUuid = Some album ∧
  (∀ resp, albums_create_response album (run_tasks r) = Some resp →
     resp = c_json (ErrorBody "Failed to create album") 400) ∧
  (∀ k file, files !! k = Some file →
     (List.length (al_images validated) ≤ k)%nat →
     UploadDone k ∈ sched →
     upload_key album uuid k file ∈ bucket (run_world r) ∧
     run_tasks r !! k = Some (Rejected TypeError)).
Proof.
  intros Hfiles Hshort Hbegin Hrun.
  destruct (begin_tasks_ok _ _ _ _ _ _ Hfiles Hbegin) as (Hok0 & Hid & _).
  pose proof (answers_keep_tasks _ _ _ Hrun Hok0) as Hok.
  destruct Hok as [Hlen Hshape Hrow].
  destruct (begin_running _ _ _ _ _ _ _ _ _ _ Hbegin) as [Himgs Hfresh].
  assert (run_ok (images w) {| run_world := w0; run_tasks := ts0 |}) as Hrok0.
  { split; simpl.
    - intros k t data Hk Hrowk. destruct (Hfresh k t Hk) as [Hnone _]. congruence.
    - intros i img Hi. left. by rewrite <- Himgs.
    - intros k Hk. by destruct (Hfresh k _ Hk) as [_ ?]. }
  pose proof (answers_keep_ok _ _ _ _ _ _ _ Hrun Hrok0) as [_ _ Hz].
  split_and!.
  - by rewrite <- Hid.
  - intros resp Hresp. unfold albums_create_response, Promise_all in Hresp.
    destruct (omap rejection (run_tasks r)) as [|e es] eqn:Hrej.
    + destruct (mapM fulfilment (run_tasks r)) as [imgs|] eqn:Hall; [|done].
      exfalso. apply mapM_Some in Hall.
      destruct (lookup_lt_is_Some_2 (run_tasks r) (List.length (al_images validated)))
        as [t Ht]; [lia|].
      destruct (Forall2_lookup_l _ _ _ _ _ Hall Ht) as (img & _ & Hful).
      destruct t as [| |data|]; try done.
      destruct (Hshape _ _ Ht) as (file & _ & Hdata & _).
      unfold image_data in Hdata.
      rewrite (lookup_ge_None_2 (al_images validated)) in Hdata; [done|lia].
    + injection Hresp as <-.
      assert (e ∈ omap rejection (run_tasks r)) as Hin
        by (rewrite Hrej; apply list_elem_of_here).
      apply list_elem_of_omap in Hin as (t & Hin & Ht).
      destruct t; simplify_eq/=.
      apply list_elem_of_lookup in Hin as [k Hk].
      destruct e; try done. by destruct (Hz k).
  - intros k file Hfile Hge Hin.
    eapply upload_beyond_metadata; [exact Hok0|done| |done|done].
    apply lookup_ge_None_2. lia.
Qed.

End AlbumCreateMore.

(** ** The routes on the sample data *)

#[local] Existing Instance sample_env.

(** C1, at a concrete input.  The anonymous reader of alice's draft [r1] and
    the reader of the id [r9], which is not stored, both get status 404, but
    the bodies differ (["Not found"] against ["Reflection not found"]): the
    answer for a hidden draft can be told from the answer for a reflection
    that does not exist. *)
Theorem hidden_draft_is_told_apart :
  reflections blog !! "r1" = Some r1 ∧ r_status r1 = DRAFT ∧
  reflections blog !! "r9" = None ∧
  (run_handler (reflections_get None "r1") blog).1 = c_json (ErrorBody "Not found") 404 ∧
  (run_handler (reflections_get None "r9") blog).1 = c_json (ErrorBody "Reflection not found") 404 ∧
  (run_handler (reflections_get None "r1") blog).1 ≠ (run_handler (reflections_get None "r9") blog).1.
Proof. vm_compute. repeat split; try reflexivity. discriminate. Qed.

(** Against C2 as stated: bob, who is not the author of [r1], sends an update
    without a JSON body and is answered 400, not 403. *)
Lemma unreadable_update_is_not_forbidden :
  reflections blog !! "r1" = Some r1 ∧ r_authorId r1 ≠ user_id bob ∧
  run_handler (route (Some bob) (PutUpdate "r1" None)) blog
  = (c_json (ErrorBody "Failed to update reflection") 400, blog) ∧
  res_status (run_handler (route (Some bob) (PutUpdate "r1" None)) blog).1 ≠ 403.
Proof. vm_compute. repeat split; try reflexivity; discriminate. Qed.

Lemma mutation_authorization_witness :
  run_handler (route (Some bob) (PatchPublish "r1" 7)) blog
  = (c_json (ErrorBody "Unauthorized") 403, blog).
Proof.
  refine (proj2 (proj1 (proj2 (mutation_authorization blog (Some bob) (PatchPublish "r1" 7) "r1" eq_refl)) bob eq_refl eq_refl) r1 _ _).
  - reflexivity.
  - discriminate.
Defined.

Lemma blog_has_no_sentinel_author :
  ∀ k r, reflections blog !! k = Some r → r_authorId r ≠ "none".
Proof.
  change (map_Forall (λ _ r, r_authorId r ≠ "none") (reflections blog)).
  apply (bool_decide_unpack _). vm_compute. exact I.
Qed.

(** In the sample store nobody has the id ["none"], and there the closed
    listings are empty: alice asking for bob's drafts, and alice asking for
    drafts without [authorId], who does not get her own draft [r1]. *)
Example closed_listings_on_blog :
  run_handler (reflections_list (Some alice) (Some "DRAFT") (Some "bob")) blog
  = (c_json_ok (ReflectionsBody []), blog) ∧
  reflections blog !! "r1" = Some r1 ∧ r_status r1 = DRAFT ∧
  r_authorId r1 = user_id alice ∧
  run_handler (reflections_list (Some alice) (Some "DRAFT") None) blog
  = (c_json_ok (ReflectionsBody []), blog).
Proof.
  split_and!; [|reflexivity..|].
  - apply closed_listing_empty; [|apply blog_has_no_sentinel_author].
    intros u [= <-]. discriminate.
  - apply closed_listing_empty; [|apply blog_has_no_sentinel_author]. done.
Qed.

(** C3, at a concrete input.  The session user whose id is ["none"] posts a
    reflection, which is stored as a draft of theirs.  Then alice, signed in,
    lists [status=DRAFT] with bob's id as [authorId]: the id is not her own,
    the route sets the filter on the author to ["none"], and the answer is
    not the empty list but the draft of that user. *)
Theorem foreign_draft_listing_leaks_sentinel_rows :
  ∃ created w,
    run_handler (reflections_create (Some nobody) (Some notes_body) "r4") blog
    = (c_json (ReflectionBody created) 201, w) ∧
    r_status created = DRAFT ∧ r_authorId created = "none" ∧
    r_authorId created ≠ user_id alice ∧
    Some (user_id bob) ≠ Some (user_id alice) ∧
    run_handler (reflections_list (Some alice) (Some "DRAFT") (Some (user_id bob))) w
    = (c_json_ok (ReflectionsBody [created]), w).
Proof.
  eexists _, _. vm_compute. repeat split; try reflexivity; discriminate.
Qed.

(** C10, at a concrete input.  In the same store alice lists [status=DRAFT]
    without [authorId] and is sent the draft of the user ["none"]; and that
    user, doing the same, is sent their own draft.  Neither list is
    empty. *)
Theorem draft_listing_without_authorId_is_not_empty :
  ∃ created w,
    run_handler (reflections_create (Some nobody) (Some notes_body) "r4") blog
    = (c_json (ReflectionBody created) 201, w) ∧
    r_status created = DRAFT ∧ r_authorId created = "none" ∧
    run_handler (reflections_list (Some alice) (Some "DRAFT") None) w
    = (c_json_ok (ReflectionsBody [created]), w) ∧
    run_handler (reflections_list (Some nobody) (Some "DRAFT") None) w
    = (c_json_ok (ReflectionsBody [created]), w).
Proof.
  eexists _, _. vm_compute. repeat split; reflexivity.
Qed.

(** C5, at a concrete input.  Creating with [status: "PUBLISHED"] and no
    [publishDate] succeeds (201) and stores a published reflection whose
    [publishDate] is null. *)
Theorem create_published_without_date :
  ∃ r w',
    run_handler (route (Some alice) (PostCreate (Some launch_body) "r9")) blog
    = (c_json (ReflectionBody r) 201, w') ∧
    reflections w' !! "r9" = Some r ∧
    r_status r = PUBLISHED ∧ r_publishDate r = None.
Proof. eexists _, _. vm_compute. repeat split; reflexivity. Qed.


(** Against C4 as stated: alice publishes [r1] twice within one millisecond;
    the second call leaves [publishDate] as the first set it. *)
Lemma publish_twice_same_instant :
  ∃ ra rb wa wb,
    run_handler (reflections_publish (Some alice) "r1" 7) blog
    = (c_json_ok (ReflectionBody ra), wa) ∧
    run_handler (reflections_publish (Some alice) "r1" 7) wa
    = (c_json_ok (ReflectionBody rb), wb) ∧
    r_publishDate ra = Some 7 ∧
    r_publishDate rb = r_publishDate ra.
Proof. eexists _, _, _, _. vm_compute. repeat split; reflexivity. Qed.

Lemma publish_restamps_witness :
  ∃ ra rb wa wb,
    run_handler (reflections_publish (Some alice) "r2" 2000) blog
    = (c_json_ok (ReflectionBody ra), wa) ∧
    run_handler (reflections_publish (Some alice) "r2" 3000) wa
    = (c_json_ok (ReflectionBody rb), wb) ∧
    reflections wa !! "r2" = Some ra ∧ reflections wb !! "r2" = Some rb ∧
    r_status ra = PUBLISHED ∧ r_publishDate ra = Some 2000 ∧
    r_status rb = PUBLISHED ∧ r_publishDate rb = Some 3000 ∧
    (r_publishDate ra ≠ r_publishDate r2 ↔ r_publishDate r2 ≠ Some 2000) ∧
    (r_publishDate rb ≠ r_publishDate ra ↔ 2000 ≠ 3000).
Proof.
  apply (publish_restamps blog alice "r2" r2 2000 3000).
  - reflexivity.
  - reflexivity.
Defined.


Lemma second_create_same_title_fails_witness :
  ∃ first w1,
    run_handler (reflections_create (Some bob) (Some hello_body) "r8") w1
    = (c_json (ErrorBody "Failed to create reflection") 400, w1)
    ∧ reflections w1 !! "r7" = Some first
    ∧ reflections (run_handler (reflections_create (Some bob) (Some hello_body) "r8") w1).2
        !! "r7" = Some first.
Proof.
  eexists _, _.
  apply (second_create_same_title_fails empty_world _ alice bob
           [("title", JStr "Hello World"); ("content", JStr "x")]
           [("title", JStr "Hello World"); ("content", JStr "x")] "r7" "r8").
  - reflexivity.
  - reflexivity.
  - reflexivity.
  - vm_compute. reflexivity.
Defined.

Lemma album_images_follow_uploads_witness :
  ∃ validated album ts0 w0 r,
    albums_create_begin (Some alice) (Some trip_form) "alb" sample_uuid empty_world
    = (Ok (inr (alice, validated, album, ts0)), w0) ∧
    answers validated album alice sample_sched {| run_world := w0; run_tasks := ts0 |}
    = Some r ∧
    albums_create_response album (run_tasks r)
    = Some (c_json (ErrorBody "Failed to create album") 400).
Proof.
  eexists _, _, _, _, _.
  match goal with
  | |- ?A ∧ ?B ∧ _ =>
      assert A as Hbegin by (vm_compute; reflexivity);
      assert B as Hrun by (vm_compute; reflexivity)
  end.
  split_and!; [exact Hbegin|exact Hrun|].
  apply (album_images_follow_uploads _ _ _ _ _ _ _ _ _ _ _ _ Hbegin Hrun) with (k := 1%nat).
  unfold sample_sched. apply list_elem_of_further, list_elem_of_here.
Defined.

(** The same through an update: [{ status: "PUBLISHED" }] on the draft [r1]
    publishes it without a [publishDate]. *)
Example update_publishes_without_date :
  ∃ r w',
    run_handler (route (Some alice)
                   (PutUpdate "r1" (Some (JObj [("status", JStr "PUBLISHED")])))) blog
    = (c_json_ok (ReflectionBody r), w') ∧
    r_status r = PUBLISHED ∧ r_publishDate r = None.
Proof. eexists _, _. vm_compute. repeat split; reflexivity. Qed.

Example gallery_delete_removes_files_first :
  (run_handler (albums_delete (λ _, false) (Some alice) "alb") gallery).1
  = c_json_ok SuccessBody ∧
  effects (run_handler (albums_delete (λ _, false) (Some alice) "alb") gallery).2
  = (effects gallery ++ (StorageRemove <$> removal_keys "alb" (images_of "alb" gallery))
       ++ [DbAlbumDelete "alb"])%list ∧
  albums (run_handler (albums_delete (λ _, false) (Some alice) "alb") gallery).2
    !! "alb" = None ∧
  (∀ k img,
     images (run_handler (albums_delete (λ _, false) (Some alice) "alb") gallery).2
       !! k = Some img → i_albumId img ≠ "alb") ∧
  (∀ k, k ∈ removal_keys "alb" (images_of "alb" gallery) →
     k ∉ bucket (run_handler (albums_delete (λ _, false) (Some alice) "alb") gallery).2).
Proof.
  apply (album_delete_removes_files_first (λ _, false) gallery alice "alb" trip).
  - reflexivity.
  - reflexivity.
  - intros k _. reflexivity.
Qed.

(** C9, at a concrete input.  Alice creates an album with one file named
    [a.b/c]: the route takes [b/c] for the extension and uploads the object
    under the key [alb/u0.b/c]; the request is answered 201.  Then she
    deletes the album and no removal fails: the answer is 200, the album and
    its image row are gone, the one removal was that of the key [alb/c],
    which the route rebuilt from the last segment of the URL, and the
    uploaded object is still in the bucket. *)
Theorem album_delete_leaves_uploaded_object :
  ∃ validated album ts0 w0 r imgs w',
    albums_create_begin (Some alice) (Some slash_form) "alb" sample_uuid empty_world
    = (Ok (inr (alice, validated, album, ts0)), w0) ∧
    answers validated album alice [UploadDone 0; InsertDone 0]
      {| run_world := w0; run_tasks := ts0 |} = Some r ∧
    albums_create_response album (run_tasks r)
    = Some (c_json (AlbumBody album imgs) 201) ∧
    effects (run_world r)
    = [DbAlbumCreate "alb"; StorageUpload "alb/u0.b/c"; DbImageCreate "u0"] ∧
    bucket (run_world r) = {["alb/u0.b/c"]} ∧
    run_handler (albums_delete (λ _, false) (Some alice) "alb") (run_world r)
    = (c_json_ok SuccessBody, w') ∧
    albums w' = ∅ ∧ images w' = ∅ ∧
    effects w'
    = [DbAlbumCreate "alb"; StorageUpload "alb/u0.b/c"; DbImageCreate "u0";
       StorageRemove "alb/c"; DbAlbumDelete "alb"] ∧
    bucket w' = {["alb/u0.b/c"]}.
Proof.
  eexists _, _, _, _, _, _, _.
  repeat (split; [vm_compute; reflexivity|]). vm_compute. reflexivity.
Qed.

(** The same with a file named [x./]: the URL ends with ["/"], its last
    segment is empty, and the route removes nothing at all. *)
Example album_delete_skips_empty_segment :
  ∃ validated album ts0 w0 r imgs w',
    albums_create_begin (Some alice) (Some dot_slash_form) "alb" sample_uuid
      empty_world
    = (Ok (inr (alice, validated, album, ts0)), w0) ∧
    answers validated album alice [UploadDone 0; InsertDone 0]
      {| run_world := w0; run_tasks := ts0 |} = Some r ∧
    albums_create_response album (run_tasks r)
    = Some (c_json (AlbumBody album imgs) 201) ∧
    run_handler (albums_delete (λ _, false) (Some alice) "alb") (run_world r)
    = (c_json_ok SuccessBody, w') ∧
    albums w' = ∅ ∧ images w' = ∅ ∧
    effects w'
    = [DbAlbumCreate "alb"; StorageUpload "alb/u0./"; DbImageCreate "u0";
       DbAlbumDelete "alb"] ∧
    bucket w' = {["alb/u0./"]}.
Proof.
  eexists _, _, _, _, _, _, _.
  repeat (split; [vm_compute; reflexivity|]). vm_compute. reflexivity.
Qed.

(** The blobs of the sample album are what the route removes, in the order
    in which the rows were read, before the album row goes. *)
Example gallery_delete_effects :
  effects (run_handler (albums_delete (λ _, false) (Some alice) "alb") gallery).2
  = [StorageRemove "alb/u1.jpg"; StorageRemove "alb/u0.png"; DbAlbumDelete "alb"].
Proof. vm_compute. reflexivity. Qed.

(** A removal that fails: the route answers 400 and both tables are intact. *)
Example gallery_delete_fails :
  run_handler (albums_delete (λ key, String.eqb key "alb/u0.png") (Some alice) "alb")
    gallery
  = (c_json (ErrorBody "Failed to delete album") 400,
     removed ["alb/u1.jpg"] gallery).
Proof. vm_compute. reflexivity. Qed.

(** The scenario of the reflection routes: alice creates "Hello World" (a
    draft with slug [hello-world] and no [publishDate]), publishes it, an
    anonymous reader gets it, and bob's update is refused. *)
Example reflection_scenario :
  ∃ w1 w2 created published,
    run_handler (route (Some alice) (PostCreate (Some hello_body) "r7")) empty_world
    = (c_json (ReflectionBody created) 201, w1) ∧
    r_status created = DRAFT ∧ r_slug created = "hello-world" ∧
    r_publishDate created = None ∧
    run_handler (route (Some alice) (PatchPublish "r7" 42)) w1
    = (c_json_ok (ReflectionBody published), w2) ∧
    r_status published = PUBLISHED ∧ r_publishDate published = Some 42 ∧
    run_handler (route None (GetOne "r7")) w2
    = (c_json_ok (ReflectionBody published), w2) ∧
    run_handler (route (Some bob) (PutUpdate "r7" (Some hello_body))) w2
    = (c_json (ErrorBody "Unauthorized") 403, w2).
Proof. eexists _, _, _, _. vm_compute. repeat split; reflexivity. Qed.

(** All uploads and inserts succeed, in an order that interleaves the two
    tasks: the request is answered 201 with both images. *)
Example album_create_succeeds :
  ∃ validated album ts0 w0 r img0 img1,
    albums_create_begin (Some alice) (Some trip_form) "alb" sample_uuid empty_world
    = (Ok (inr (alice, validated, album, ts0)), w0) ∧
    answers validated album alice
      [UploadDone 1; UploadDone 0; InsertDone 0; InsertDone 1]
      {| run_world := w0; run_tasks := ts0 |} = Some r ∧
    albums_create_response album (run_tasks r)
    = Some (c_json (AlbumBody album [img0; img1]) 201) ∧
    i_url img0 = "https://cdn.test/public/albums/alb/u0.png" ∧
    effects (run_world r)
    = [DbAlbumCreate "alb"; StorageUpload "alb/u1.jpg"; StorageUpload "alb/u0.png";
       DbImageCreate "u0"; DbImageCreate "u1"].
Proof. eexists _, _, _, _, _, _, _. vm_compute. repeat split; reflexivity. Qed.

(** An insert cannot be answered before the upload of its task. *)
Example insert_before_upload_impossible :
  ∀ validated album ts0 w0,
    albums_create_begin (Some alice) (Some trip_form) "alb" sample_uuid empty_world
    = (Ok (inr (alice, validated, album, ts0)), w0) →
    answers validated album alice [InsertDone 0]
      {| run_world := w0; run_tasks := ts0 |} = None.
Proof. intros validated album ts0 w0 [= <- <- <- <-]. vm_compute. reflexivity. Qed.

(** Outside the two cases above, the listing does not filter by author: bob,
    authenticated and asking for no status, is sent alice's draft [r1]. *)
Example unfiltered_listing_shows_foreign_drafts :
  ∃ rs,
    run_handler (reflections_list (Some bob) None None) blog
    = (c_json_ok (ReflectionsBody rs), blog) ∧
    r1 ∈ rs ∧ r_status r1 = DRAFT ∧ r_authorId r1 ≠ user_id bob.
Proof.
  eexists. split; [vm_compute; reflexivity|]. split_and!; [|done..].
  apply list_elem_of_In. simpl. repeat (first [left; reflexivity | right]).
Qed.

(** ** The further properties on the sample data *)

Lemma delete_then_get_witness :
  (run_handler (reflections_delete (Some alice) "r1") blog).1 = c_json SuccessBody 200 ∧
  reflections (run_handler (reflections_delete (Some alice) "r1") blog).2
  = delete "r1" (reflections blog) ∧
  run_handler (reflections_get (Some alice) "r1")
    (run_handler (reflections_delete (Some alice) "r1") blog).2
  = (c_json (ErrorBody "Reflection not found") 404,
     (run_handler (reflections_delete (Some alice) "r1") blog).2).
Proof. apply (delete_then_get blog alice "r1" r1 (Some alice)); reflexivity. Defined.

Lemma blog_store_ok : store_ok (reflections blog).
Proof.
  split.
  - change (map_Forall (λ k r, r_id r = k) (reflections blog)).
    apply (bool_decide_unpack _). vm_compute. exact I.
  - intros k1 k2 ra rb H1. revert k2 rb. revert k1 ra H1.
    change (map_Forall (λ k1 ra, map_Forall (λ k2 rb, r_slug ra = r_slug rb → k1 = k2)
                                   (reflections blog)) (reflections blog)).
    apply (bool_decide_unpack _). vm_compute. exact I.
Defined.

Lemma routes_keep_store_ok_witness :
  store_ok (reflections
              (run_handler (route (Some bob) (PostCreate (Some launch_body) "r8")) blog).2).
Proof. apply routes_keep_store_ok, blog_store_ok. Defined.

Lemma update_without_fields_witness :
  (run_handler (reflections_update (Some alice) "r1"
                  (Some (JObj [("views", JNum 3)]))) blog).1
  = c_json_ok (ReflectionBody r1) ∧
  reflections (run_handler (reflections_update (Some alice) "r1"
                              (Some (JObj [("views", JNum 3)]))) blog).2
  = reflections blog.
Proof.
  apply (update_without_fields blog alice "r1" r1 [("views", JNum 3)]);
    [reflexivity..|].
  intros k Hk.
  repeat (apply elem_of_cons in Hk as [->|Hk]; [reflexivity|]).
  by apply elem_of_nil in Hk.
Defined.

Lemma update_to_taken_slug_witness :
  run_handler (reflections_update (Some alice) "r1"
                 (Some (JObj [("slug", JStr "second")]))) blog
  = (c_json (ErrorBody "Failed to update reflection") 400, blog).
Proof.
  apply (update_to_taken_slug blog alice "r1" r1 "r2" r2 [("slug", JStr "second")]);
    [reflexivity|reflexivity|reflexivity|discriminate|reflexivity].
Defined.

Lemma list_own_drafts_witness :
  ∃ rs,
    run_handler (reflections_list (Some alice) (Some "DRAFT") (Some "alice")) blog
    = (c_json_ok (ReflectionsBody rs), blog) ∧
    ∀ r, r ∈ rs ↔ (∃ k, reflections blog !! k = Some r)
                  ∧ r_status r = DRAFT ∧ r_authorId r = "alice".
Proof. apply (list_own_drafts blog alice). discriminate. Defined.

Lemma list_unknown_status_witness :
  run_handler (reflections_list (Some alice) (Some "ARCHIVED") None) blog
  = ({| res_body := TextBody "Internal Server Error"; res_status := 500 |}, blog).
Proof.
  apply (list_unknown_status blog (Some alice) "ARCHIVED" None);
    [reflexivity|reflexivity|discriminate].
Defined.



Lemma generateUniquePath_distinct_witness :
  generateUniquePath "a" 12 ≠ generateUniquePath "a_1" 2.
Proof. apply (generateUniquePath_distinct "a" "a_1" 12 2). discriminate. Defined.

(** The name keeps folder and extension, the time goes before the dot. *)
Example generateUniquePath_runs :
  generateUniquePath "alb/u0.png" 1700000000000 = "alb/u0_1700000000000.png" ∧
  generateUniquePath "README" 7 = "README_7".
Proof. vm_compute. split; reflexivity. Qed.

Lemma image_delete_by_owner_witness :
  ∃ reply w',
    albums_delete_image (λ _, false) (Some alice) "alb" "u0" gallery = (Ok reply, w') ∧
    images w' = delete "u0" (images gallery) ∧
    albums w' = albums gallery ∧
    bucket w' = bucket gallery ∖ {["alb/u0.png"]} ∧
    reply = Answered (c_json_ok (AlbumBody trip (images_of "alb" w'))).
Proof.
  exact (proj2 (image_delete_by_owner (λ _, false) gallery alice "alb" "u0"
                  (photo "u0" "png") trip eq_refl eq_refl eq_refl eq_refl) eq_refl).
Defined.

Lemma image_delete_wrong_album_leaves_object_witness :
  ∃ reply w',
    albums_delete_image (λ _, false) (Some alice) "old" "u0" gallery = (Ok reply, w') ∧
    images w' !! "u0" = None ∧
    "alb/u0.png" ∈ bucket w'.
Proof.
  apply (image_delete_wrong_album_leaves_object (λ _, false) gallery alice "old" "u0"
           (photo "u0" "png") trip);
    [reflexivity|reflexivity|reflexivity|reflexivity|reflexivity|discriminate|].
  apply elem_of_union. left. by apply elem_of_singleton.
Defined.

(** Here the path names no album at all: the answer is [null] with status
    200. *)
Example image_delete_answers_null :
  ∃ w', albums_delete_image (λ _, false) (Some alice) "old" "u0" gallery
        = (Ok AnsweredNull, w').
Proof. eexists. vm_compute. reflexivity. Qed.

Lemma album_update_writes_album_last_witness :
  ∃ resp w',
    run_handler (albums_update (λ _, false) (λ _, false) (λ _, false) (Some alice)
                   "alb" (Some rename_form) sample_uuid) gallery = (resp, w') ∧
    (res_status resp ≠ 200 → albums w' = albums gallery) ∧
    (res_status resp = 200 →
       ∃ a a',
         resp = c_json_ok (AlbumBody a' (images_of "alb" w')) ∧
         albums gallery !! "alb" = Some a ∧ a_uploadedById a = user_id alice ∧
         albums w' = <["alb" := a']> (albums gallery) ∧
         a_id a' = a_id a ∧ a_uploadedById a' = a_uploadedById a ∧
         (a_name a' = a_name a ∨ a_name a' ≠ "") ∧
         (a_description a' = a_description a
          ∨ ∃ d, a_description a' = Some d ∧ d ≠ "")).
Proof.
  eexists _, _.
  match goal with
  | |- ?A ∧ _ => assert A as Hrun by (vm_compute; reflexivity)
  end.
  split; [exact Hrun|].
  exact (album_update_writes_album_last _ _ _ _ _ _ _ _ _ _ Hrun).
Defined.

Lemma album_delete_then_get_witness :
  ∃ w',
    run_handler (albums_delete (λ _, false) (Some alice) "alb") gallery
    = (c_json_ok SuccessBody, w') ∧
    albums_get "alb" w' = (Ok (c_json (ErrorBody "Album not found") 404), w') ∧
    images_of "alb" w' = [] ∧
    (∀ caller, run_handler (albums_delete (λ _, false) caller "alb") w'
               = (match caller with
                  | Some _ => c_json (ErrorBody "Album not found") 404
                  | None => c_json (ErrorBody "Unauthorized") 401
                  end, w')).
Proof.
  apply (album_delete_then_get (λ _, false) gallery alice "alb" trip).
  - reflexivity.
  - reflexivity.
  - intros key _. reflexivity.
Defined.


Lemma album_created_lists_every_file_witness :
  ∃ validated album ts0 w0 r resp,
    albums_create_begin (Some alice) (Some trip_form) "alb" sample_uuid empty_world
    = (Ok (inr (alice, validated, album, ts0)), w0) ∧
    answers validated album alice full_sched {| run_world := w0; run_tasks := ts0 |}
    = Some r ∧
    albums_create_response album (run_tasks r) = Some resp ∧
    ∃ imgs,
      resp = c_json (AlbumBody album imgs) 201 ∧
      a_id album = "alb" ∧ a_uploadedById album = user_id alice ∧
      albums (run_world r) !! "alb" = Some album ∧
      List.length imgs = List.length (fd_images trip_form) ∧
      ∀ k file, fd_images trip_form !! k = Some file →
        ∃ img, imgs !! k = Some img ∧
          i_id img = sample_uuid k ∧ i_albumId img = "alb" ∧
          i_userId img = Some (user_id alice) ∧
          i_url img = getPublicUrl "albums"
                        ("alb" ++ "/" ++ sample_uuid k ++ "."
                         ++ split_pop "." (f_name file)) ∧
          images (run_world r) !! sample_uuid k = Some img.
Proof.
  eexists _, _, _, _, _, _.
  match goal with
  | |- ?A ∧ ?B ∧ ?D ∧ _ =>
      assert A as Hbegin by (vm_compute; reflexivity);
      assert B as Hrun by (vm_compute; reflexivity);
      assert D as Hresp by (vm_compute; reflexivity)
  end.
  split_and!; [exact Hbegin|exact Hrun|exact Hresp|].
  exact (album_created_lists_every_file _ _ _ _ _ _ _ _ _ _ _ _ _ _
           eq_refl Hbegin Hrun Hresp eq_refl).
Defined.

Lemma files_beyond_metadata_never_created_witness :
  ∃ validated album ts0 w0 r,
    albums_create_begin (Some alice) (Some crowded_form) "alb" sample_uuid empty_world
    = (Ok (inr (alice, validated, album, ts0)), w0) ∧
    answers validated album alice crowded_sched {| run_world := w0; run_tasks := ts0 |}
    = Some r ∧
    albums (run_world r) !! "alb" = Some album ∧
    (∀ resp, albums_create_response album (run_tasks r) = Some resp →
       resp = c_json (ErrorBody "Failed to create album") 400) ∧
    (∀ k file, fd_images crowded_form !! k = Some file →
       (List.length (al_images validated) ≤ k)%nat →
       UploadDone k ∈ crowded_sched →
       upload_key album sample_uuid k file ∈ bucket (run_world r) ∧
       run_tasks r !! k = Some (Rejected TypeError)).
Proof.
  eexists _, _, _, _, _.
  match goal with
  | |- ?A ∧ ?B ∧ _ =>
      assert A as Hbegin by (vm_compute; reflexivity);
      assert B as Hrun by (vm_compute; reflexivity)
  end.
  split; [exact Hbegin|]. split; [exact Hrun|].
  refine (files_beyond_metadata_never_created _ _ _ _ _ _ _ _ _ _ _ _ _
            eq_refl _ Hbegin Hrun).
  simpl. lia.
Defined.

(** The third file of the crowded form is uploaded and stays in the bucket,
    and the request is answered 400. *)
Example crowded_create_leaves_object :
  ∃ validated album ts0 w0 r,
    albums_create_begin (Some alice) (Some crowded_form) "alb" sample_uuid empty_world
    = (Ok (inr (alice, validated, album, ts0)), w0) ∧
    answers validated album alice crowded_sched {| run_world := w0; run_tasks := ts0 |}
    = Some r ∧
    albums_create_response album (run_tasks r)
    = Some (c_json (ErrorBody "Failed to create album") 400) ∧
    effects (run_world r)
    = [DbAlbumCreate "alb"; StorageUpload "alb/u1.gif"; StorageUpload "alb/u0.png";
       DbImageCreate "u0"].
Proof.
  eexists _, _, _, _, _.
  repeat (split; [vm_compute; reflexivity|]). vm_compute. reflexivity.
Qed.
